(** * Newton's rings simulation: the traveling microscope and the ring geometry

    A shallow embedding of [newton_rings_simulation.py]: the class
    [TravelingMicroscope] (motion model, step size control, precision mode,
    measurements) and the parts of [NewtonRingsSimulation] that compute the
    ring table, the radius of curvature regression, the wavelength read-back
    and the per-ring aggregation of microscope measurements.

    Python's [float] is kept abstract behind the interface [Num], so every
    function of the program is written once, with the shape of its source.
    Two instances interpret it:
    - [R_Num]: the real numbers, exact arithmetic.  General theorems are
      stated on this instance; they describe the program up to the rounding
      of binary64 arithmetic.
    - [F64_Num]: Rocq's primitive binary64 floats, the arithmetic CPython
      runs.  It evaluates, so concrete runs are checked by computation.

    The wall clock ([time.time()]), the random sample
    ([random.triangular]) and the formatted timestamp are inputs of the
    functions that read them. *)

From Stdlib Require Import ZArith List Bool String Lia Lra Permutation.
From Stdlib Require Import Floats.
From Stdlib Require Import Reals.
Import ListNotations.

Set Implicit Arguments.

(** ** The numeric interface *)

Declare Scope num_scope.
Delimit Scope num_scope with num.

(** The operations the program applies to floats.  [flit m e] is the decimal
    literal [m * 10^e] ([0.8] is [flit 8 (-1)]; an [int] used in float
    arithmetic is [flit z 0]); [fround x n] is the builtin [round(x, n)]. *)
Class Num (F : Type) : Type := {
  flit : Z -> Z -> F;
  fadd : F -> F -> F;
  fsub : F -> F -> F;
  fmul : F -> F -> F;
  fdiv : F -> F -> F;
  fneg : F -> F;
  fabs : F -> F;
  fsqrt : F -> F;
  flt : F -> F -> bool;
  fle : F -> F -> bool;
  feq : F -> F -> bool;
  fround : F -> Z -> F
}.

Infix "+" := fadd : num_scope.
Infix "-" := fsub : num_scope.
Infix "*" := fmul : num_scope.
Infix "/" := fdiv : num_scope.
Notation "- x" := (fneg x) : num_scope.
Infix "<?" := flt : num_scope.
Infix "<=?" := fle : num_scope.
Infix "=?" := feq : num_scope.
Notation "x >? y" := (flt y x) (at level 70, no associativity, only parsing) : num_scope.

(** *** Real numbers *)

Definition Rltb (x y : R) : bool := if Rlt_dec x y then true else false.
Definition Rleb (x y : R) : bool := if Rle_dec x y then true else false.
Definition Reqb (x y : R) : bool := if Req_dec_T x y then true else false.

Definition R_lit (m e : Z) : R :=
  if (e <? 0)%Z then (IZR m / IZR (10 ^ (- e)))%R else IZR (m * 10 ^ e).

(** Round to the nearest integer, ties to the even one. *)
Definition R_round_half_even (y : R) : Z :=
  let f := Zfloor y in
  let d := (y - IZR f)%R in
  if Rlt_dec d (1 / 2) then f
  else if Rlt_dec (1 / 2) d then (f + 1)%Z
  else if Z.even f then f else (f + 1)%Z.

(** [round(x, n)] for [n >= 0]: the multiple of [10^-n] nearest to [x],
    ties to even. *)
Definition R_round (x : R) (n : Z) : R :=
  (IZR (R_round_half_even (x * IZR (10 ^ n))) / IZR (10 ^ n))%R.

#[export] Instance R_Num : Num R := {|
  flit := R_lit;
  fadd := Rplus;
  fsub := Rminus;
  fmul := Rmult;
  fdiv := Rdiv;
  fneg := Ropp;
  fabs := Rabs;
  fsqrt := sqrt;
  flt := Rltb;
  fle := Rleb;
  feq := Reqb;
  fround := R_round
|}.

(** *** Binary64 floats *)

Definition F64_of_Z (z : Z) : float :=
  match z with
  | Z0 => PrimFloat.zero
  | Zpos _ => PrimFloat.of_uint63 (Uint63.of_Z z)
  | Zneg p => PrimFloat.opp (PrimFloat.of_uint63 (Uint63.of_Z (Zpos p)))
  end.

(** A decimal literal is the double nearest to it: for a mantissa and a power
    of ten that are both doubles, that is their correctly rounded quotient. *)
Definition F64_lit (m e : Z) : float :=
  if (e <? 0)%Z then PrimFloat.div (F64_of_Z m) (F64_of_Z (10 ^ (- e)))
  else F64_of_Z (m * 10 ^ e).

(** The integer nearest to [num / den], ties to even ([0 <= num], [0 < den]). *)
Definition Z_round_half_even (num den : Z) : Z :=
  let q := (num / den)%Z in
  let r := (num mod den)%Z in
  if (2 * r <? den)%Z then q
  else if (den <? 2 * r)%Z then (q + 1)%Z
  else if Z.even q then q else (q + 1)%Z.

(** [round(x, n)] as CPython computes it for [n >= 0]: the exact value of the
    double is rounded to [n] decimals, ties to even, and the decimal result is
    converted back to the nearest double.  Exact as long as the rounded value
    scaled by [10^n] is below [2^53], which covers step sizes and positions. *)
Definition F64_round (x : float) (n : Z) : float :=
  match Prim2SF x with
  | S754_finite s m e =>
      let k :=
        if (0 <=? e)%Z then (Zpos m * 2 ^ e * 10 ^ n)%Z
        else Z_round_half_even (Zpos m * 10 ^ n) (2 ^ (- e)) in
      let r := PrimFloat.div (F64_of_Z k) (F64_of_Z (10 ^ n)) in
      if s then PrimFloat.opp r else r
  | _ => x
  end.

#[export] Instance F64_Num : Num float := {|
  flit := F64_lit;
  fadd := PrimFloat.add;
  fsub := PrimFloat.sub;
  fmul := PrimFloat.mul;
  fdiv := PrimFloat.div;
  fneg := PrimFloat.opp;
  fabs := PrimFloat.abs;
  fsqrt := PrimFloat.sqrt;
  flt := PrimFloat.ltb;
  fle := PrimFloat.leb;
  feq := PrimFloat.eqb;
  fround := F64_round
|}.

(** ** Python builtins used by the program *)

(** [sorted(l)] for the order [lt] of the elements: a stable insertion
    sort. *)
Section Sorting.
Variables (A : Type) (lt : A -> A -> bool).

Fixpoint insert_sorted (x : A) (l : list A) : list A :=
  match l with
  | [] => [x]
  | y :: l' => if lt x y then x :: l else y :: insert_sorted x l'
  end.

Definition sorted_by (l : list A) : list A :=
  fold_left (fun acc x => insert_sorted x acc) l [].
End Sorting.

Section Builtins.
Context {F : Type} `{Num F}.
Local Open Scope num_scope.

(** [min(a, b)] and [max(a, b)]: the first argument unless the second is
    strictly smaller (larger). *)
Definition py_min (a b : F) : F := if b <? a then b else a.
Definition py_max (a b : F) : F := if b >? a then b else a.

(** [max(l)] and [min(l)] of a non-empty list; [None] is the [ValueError]
    of an empty one. *)
Definition py_max_list (l : list F) : option F :=
  match l with
  | [] => None
  | x :: l' => Some (fold_left py_max l' x)
  end.
Definition py_min_list (l : list F) : option F :=
  match l with
  | [] => None
  | x :: l' => Some (fold_left py_min l' x)
  end.

(** [sum(l)]: the additions from the integer [0], left to right (CPython
    from 3.12 on compensates the rounding of these additions). *)
Definition py_sum (l : list F) : F := fold_left fadd l (flit 0 0).

(** [x / y] for a divisor that is not a literal: [ZeroDivisionError] is
    [None]. *)
Definition py_div (x y : F) : option F :=
  if y =? flit 0 0 then None else Some (x / y).

(** [math.sqrt(x)]: [ValueError] on a negative argument is [None]. *)
Definition py_sqrt (x : F) : option F :=
  if x <? flit 0 0 then None else Some (fsqrt x).

End Builtins.

(** ** Python dictionaries

    A [dict] is an association list in insertion order whose keys are
    pairwise different for the key equality [keq] (Python's [==]).  Ring
    numbers and rounded positions are its keys in the program. *)

Section Dict.
Variables (K V : Type) (keq : K -> K -> bool).

Definition dict : Type := list (K * V).

(** [d.get(k)] *)
Fixpoint dict_get (k : K) (d : dict) : option V :=
  match d with
  | [] => None
  | (k', v) :: d' => if keq k' k then Some v else dict_get k d'
  end.

(** [k in d] *)
Definition dict_mem (k : K) (d : dict) : bool :=
  match dict_get k d with Some _ => true | None => false end.

(** [d[k] = v]: an existing key keeps its place (and the key object first
    inserted), a new key goes last. *)
Fixpoint dict_set (k : K) (v : V) (d : dict) : dict :=
  match d with
  | [] => [(k, v)]
  | (k', v') :: d' =>
      if keq k' k then (k', v) :: d' else (k', v') :: dict_set k v d'
  end.

(** [d.keys()] *)
Definition dict_keys (d : dict) : list K := map fst d.
End Dict.

Arguments dict_get {K V} keq k d.
Arguments dict_mem {K V} keq k d.
Arguments dict_set {K V} keq k v d.
Arguments dict_keys {K V} d.

(** ** class TravelingMicroscope *)

(** The direction recorded in [movement_history]: ['left'] or ['right']. *)
Inductive Direction : Type := DLeft | DRight.

(** The quality labels ["Ultra-High"], ["Very High"], ["High"], ["Good"],
    ["Standard"] stored under ['precision']. *)
Inductive Quality : Type := UltraHigh | VeryHigh | High | Good | Standard.

Definition Quality_eqb (a b : Quality) : bool :=
  match a, b with
  | UltraHigh, UltraHigh | VeryHigh, VeryHigh | High, High
  | Good, Good | Standard, Standard => true
  | _, _ => false
  end.

(** Exceptions the modelled code can raise. *)
Inductive Exn : Type :=
  TypeError | ValueError | ZeroDivisionError | IndexError | StopIteration.

Section Microscope.
Context {F : Type} `{Num F}.
Local Open Scope num_scope.

(** The record stored in [current_reading] and in [measurements].
    [float('inf')], the initial value of a distance, is [None]. *)
Record Reading : Type := {
  r_position : F;
  r_closest_ring : option nat;
  r_second_closest_ring : option nat;
  r_distance_from_ring : option F;
  r_reading : F;
  r_precision : Quality;
  r_velocity : F;
  r_noise_estimate : F;
  r_timestamp : string;
  r_alignment_quality : F
}.

(** The attributes of a [TravelingMicroscope].  [normal_step_size] is the
    attribute [_normal_step_size], absent ([None]) until precision mode is
    first entered.  The attribute [parent] is passed to [take_measurement]
    separately (see [Parent]). *)
Record TravelingMicroscope : Type := {
  position : F;
  max_position : F;
  step_size : F;
  current_reading : option Reading;
  is_measuring : bool;
  measurements : dict F Reading;
  movement_history : list (Direction * F * F);
  precision_mode : bool;
  sub_pixel_positions : list (F * F);
  last_update_time : F;
  velocity : F;
  acceleration : F;
  movement_smoothness : F;
  normal_step_size : option F
}.

(** [__init__(max_position=30)], constructed at wall-clock time [now]. *)
Definition init (now : F) : TravelingMicroscope := {|
  position := flit 0 0;
  max_position := flit 30 0;
  step_size := flit 1 (-1);
  current_reading := None;
  is_measuring := false;
  measurements := [];
  movement_history := [];
  precision_mode := false;
  sub_pixel_positions := [];
  last_update_time := now;
  velocity := flit 0 0;
  acceleration := flit 0 0;
  movement_smoothness := flit 8 (-1);
  normal_step_size := None
|}.

(** [l.append(x)] followed by [if len(l) > n: l.pop(0)]. *)
Definition append_bounded {A : Type} (n : nat) (l : list A) (x : A) : list A :=
  let l' := l ++ [x] in
  if (n <? List.length l')%nat then tl l' else l'.

(** [move_left(factor)], with [time.time()] returning [now]. *)
Definition move_left (s : TravelingMicroscope) (factor now : F)
  : bool * TravelingMicroscope :=
  if position s >? - max_position s then
    let current_time := now in
    let dt := py_min (flit 1 (-1)) (current_time - last_update_time s) in
    let actual_step := step_size s * factor in
    let actual_step :=
      if precision_mode s then actual_step / flit 10 0 else actual_step in
    let target_velocity := - actual_step * flit 10 0 in
    let velocity1 :=
      velocity s * movement_smoothness s
      + target_velocity * (flit 1 0 - movement_smoothness s) in
    let new_position := position s + velocity1 * dt in
    let clamp := new_position <? - max_position s in
    let new_position := if clamp then - max_position s else new_position in
    let velocity2 := if clamp then flit 0 0 else velocity1 in
    let actual_change := new_position - position s in
    (true,
     {| position := new_position;
        max_position := max_position s;
        step_size := step_size s;
        current_reading := current_reading s;
        is_measuring := is_measuring s;
        measurements := measurements s;
        movement_history :=
          append_bounded 15 (movement_history s)
            (DLeft, fabs actual_change, current_time);
        precision_mode := precision_mode s;
        sub_pixel_positions :=
          append_bounded 20 (sub_pixel_positions s)
            (new_position, current_time);
        last_update_time := current_time;
        velocity := velocity2;
        acceleration := acceleration s;
        movement_smoothness := movement_smoothness s;
        normal_step_size := normal_step_size s |})
  else
    (false,
     {| position := position s;
        max_position := max_position s;
        step_size := step_size s;
        current_reading := current_reading s;
        is_measuring := is_measuring s;
        measurements := measurements s;
        movement_history := movement_history s;
        precision_mode := precision_mode s;
        sub_pixel_positions := sub_pixel_positions s;
        last_update_time := last_update_time s;
        velocity := velocity s * flit 5 (-1);
        acceleration := acceleration s;
        movement_smoothness := movement_smoothness s;
        normal_step_size := normal_step_size s |}).

(** [move_right(factor)], with [time.time()] returning [now]. *)
Definition move_right (s : TravelingMicroscope) (factor now : F)
  : bool * TravelingMicroscope :=
  if position s <? max_position s then
    let current_time := now in
    let dt := py_min (flit 1 (-1)) (current_time - last_update_time s) in
    let actual_step := step_size s * factor in
    let actual_step :=
      if precision_mode s then actual_step / flit 10 0 else actual_step in
    let target_velocity := actual_step * flit 10 0 in
    let velocity1 :=
      velocity s * movement_smoothness s
      + target_velocity * (flit 1 0 - movement_smoothness s) in
    let new_position := position s + velocity1 * dt in
    let clamp := new_position >? max_position s in
    let new_position := if clamp then max_position s else new_position in
    let velocity2 := if clamp then flit 0 0 else velocity1 in
    let actual_change := new_position - position s in
    (true,
     {| position := new_position;
        max_position := max_position s;
        step_size := step_size s;
        current_reading := current_reading s;
        is_measuring := is_measuring s;
        measurements := measurements s;
        movement_history :=
          append_bounded 15 (movement_history s)
            (DRight, fabs actual_change, current_time);
        precision_mode := precision_mode s;
        sub_pixel_positions :=
          append_bounded 20 (sub_pixel_positions s)
            (new_position, current_time);
        last_update_time := current_time;
        velocity := velocity2;
        acceleration := acceleration s;
        movement_smoothness := movement_smoothness s;
        normal_step_size := normal_step_size s |})
  else
    (false,
     {| position := position s;
        max_position := max_position s;
        step_size := step_size s;
        current_reading := current_reading s;
        is_measuring := is_measuring s;
        measurements := measurements s;
        movement_history := movement_history s;
        precision_mode := precision_mode s;
        sub_pixel_positions := sub_pixel_positions s;
        last_update_time := last_update_time s;
        velocity := velocity s * flit 5 (-1);
        acceleration := acceleration s;
        movement_smoothness := movement_smoothness s;
        normal_step_size := normal_step_size s |}).

(** [self.step_size = x] *)
Definition set_step_size (s : TravelingMicroscope) (x : F)
  : TravelingMicroscope :=
  {| position := position s;
     max_position := max_position s;
     step_size := x;
     current_reading := current_reading s;
     is_measuring := is_measuring s;
     measurements := measurements s;
     movement_history := movement_history s;
     precision_mode := precision_mode s;
     sub_pixel_positions := sub_pixel_positions s;
     last_update_time := last_update_time s;
     velocity := velocity s;
     acceleration := acceleration s;
     movement_smoothness := movement_smoothness s;
     normal_step_size := normal_step_size s |}.

(** [increase_step_size()]: the new step size and the new state. *)
Definition increase_step_size (s : TravelingMicroscope)
  : F * TravelingMicroscope :=
  if step_size s <? flit 2 0 then
    let scaled :=
      if step_size s <? flit 1 (-1) then step_size s * flit 125 (-2)
      else if step_size s <? flit 5 (-1) then step_size s * flit 12 (-1)
      else step_size s * flit 115 (-2) in
    let rounded := fround scaled 3 in
    (rounded, set_step_size s rounded)
  else (step_size s, s).

(** [decrease_step_size()]: the new step size and the new state. *)
Definition decrease_step_size (s : TravelingMicroscope)
  : F * TravelingMicroscope :=
  if step_size s >? flit 1 (-3) then
    let scaled :=
      if step_size s <=? flit 1 (-1) then
        py_max (flit 1 (-3)) (step_size s * flit 8 (-1))
      else if step_size s <=? flit 5 (-1) then step_size s * flit 85 (-2)
      else step_size s * flit 9 (-1) in
    let rounded := fround scaled 3 in
    (rounded, set_step_size s rounded)
  else (step_size s, s).

(** [toggle_precision_mode()]: the new mode flag and the new state. *)
Definition toggle_precision_mode (s : TravelingMicroscope)
  : bool * TravelingMicroscope :=
  let mode := negb (precision_mode s) in
  if mode then
    (mode,
     {| position := position s;
        max_position := max_position s;
        step_size :=
          fround (py_max (flit 1 (-3)) (step_size s / flit 10 0)) 3;
        current_reading := current_reading s;
        is_measuring := is_measuring s;
        measurements := measurements s;
        movement_history := movement_history s;
        precision_mode := mode;
        sub_pixel_positions := sub_pixel_positions s;
        last_update_time := last_update_time s;
        velocity := flit 0 0;
        acceleration := acceleration s;
        movement_smoothness := flit 9 (-1);
        normal_step_size := Some (step_size s) |})
  else
    (mode,
     {| position := position s;
        max_position := max_position s;
        step_size :=
          fround
            (match normal_step_size s with
             | Some saved => saved
             | None => step_size s
             end) 3;
        current_reading := current_reading s;
        is_measuring := is_measuring s;
        measurements := measurements s;
        movement_history := movement_history s;
        precision_mode := mode;
        sub_pixel_positions := sub_pixel_positions s;
        last_update_time := last_update_time s;
        velocity := flit 0 0;
        acceleration := acceleration s;
        movement_smoothness := flit 8 (-1);
        normal_step_size := normal_step_size s |}).

(** *** take_measurement *)

(** The four loop variables of the scan over [ring_radii].  A distance
    [None] is [float('inf')]; positions and radii are finite numbers. *)
Record Scan : Type := {
  closest_ring : option nat;
  min_distance : option F;
  second_closest : option nat;
  second_min_distance : option F
}.

Definition scan_start : Scan :=
  {| closest_ring := None; min_distance := None;
     second_closest := None; second_min_distance := None |}.

(** [d < m] and [m < c] for a distance [m] that may be infinite. *)
Definition lt_inf (d : F) (m : option F) : bool :=
  match m with None => true | Some m' => d <? m' end.
Definition inf_lt (m : option F) (c : F) : bool :=
  match m with None => false | Some m' => m' <? c end.

(** One iteration of [for ring_num, radius in enumerate(ring_radii)]. *)
Definition scan_step (pos : F) (acc : Scan) (ring_num : nat) (radius : F)
  : Scan :=
  let distance := fabs (fabs pos - radius) in
  if lt_inf distance (min_distance acc) then
    {| closest_ring := Some ring_num; min_distance := Some distance;
       second_closest := closest_ring acc;
       second_min_distance := min_distance acc |}
  else if lt_inf distance (second_min_distance acc) then
    {| closest_ring := closest_ring acc; min_distance := min_distance acc;
       second_closest := Some ring_num;
       second_min_distance := Some distance |}
  else acc.

Fixpoint scan_from (pos : F) (acc : Scan) (ring_num : nat)
  (ring_radii : list F) : Scan :=
  match ring_radii with
  | [] => acc
  | radius :: rest =>
      scan_from pos (scan_step pos acc ring_num radius) (S ring_num) rest
  end.

Definition scan (pos : F) (ring_radii : list F) : Scan :=
  scan_from pos scan_start 0 ring_radii.

(** The finite difference of the last two entries of
    [sub_pixel_positions]; [0.0] with fewer than two entries or no time
    elapsed between them. *)
Definition instantaneous_velocity (history : list (F * F)) : F :=
  match rev history with
  | (p1, t1) :: (p0, t0) :: _ =>
      let pos_diff := p1 - p0 in
      let time_diff := t1 - t0 in
      if time_diff >? flit 0 0 then pos_diff / time_diff else flit 0 0
  | _ => flit 0 0
  end.

(** The quality label from the distance to the closest ring and the
    instantaneous velocity. *)
Definition quality_of (min_dist : option F) (vel : F) : Quality :=
  if inf_lt min_dist (flit 1 (-3)) && (fabs vel <? flit 1 (-3)) then UltraHigh
  else if inf_lt min_dist (flit 1 (-2)) && (fabs vel <? flit 1 (-2)) then VeryHigh
  else if inf_lt min_dist (flit 5 (-2)) && (fabs vel <? flit 5 (-2)) then High
  else if inf_lt min_dist (flit 1 (-1)) && (fabs vel <? flit 1 (-1)) then Good
  else Standard.

Definition noise_scale_of (min_dist : option F) : F :=
  if inf_lt min_dist (flit 1 (-3)) then flit 1 (-2)
  else if inf_lt min_dist (flit 1 (-2)) then flit 1 (-1)
  else if inf_lt min_dist (flit 1 (-1)) then flit 2 (-1)
  else flit 1 0.

(** The part of the owning [NewtonRingsSimulation] that the microscope
    writes to through its [parent] reference. *)
Record Parent : Type := {
  left_measurements : dict nat F;
  right_measurements : dict nat F
}.

(** The dictionary assigned to [self.current_reading] by
    [take_measurement(ring_radii)]: [rnd] is the value of
    [random.triangular(-1.0, 1.0, 0.0)], [ts] the formatted local time. *)
Definition make_reading (s : TravelingMicroscope) (ring_radii : list F)
  (rnd : F) (ts : string) : Reading :=
  let sc := scan (position s) ring_radii in
  let alignment_quality :=
    match min_distance sc with
    | None => flit 1 0
    | Some d => py_min (flit 1 0) (d * flit 100 0)
    end in
  let base_noise :=
    if precision_mode s then flit 1 (-2) * flit 1 (-1) else flit 1 (-2) in
  let noise_scale := noise_scale_of (min_distance sc) in
  let noise := rnd * base_noise * noise_scale in
  let vel := instantaneous_velocity (sub_pixel_positions s) in
  let quality := quality_of (min_distance sc) vel in
  {| r_position := position s;
     r_closest_ring := closest_ring sc;
     r_second_closest_ring := second_closest sc;
     r_distance_from_ring := min_distance sc;
     r_reading := position s + noise;
     r_precision := quality;
     r_velocity := vel;
     r_noise_estimate := base_noise * noise_scale;
     r_timestamp := ts;
     r_alignment_quality := flit 100 0 - alignment_quality |}.

(** [self.current_reading = rd] and
    [self.measurements[round(self.position, 9)] = rd]. *)
Definition store_reading (s : TravelingMicroscope) (rd : Reading)
  : TravelingMicroscope :=
  {| position := position s;
     max_position := max_position s;
     step_size := step_size s;
     current_reading := Some rd;
     is_measuring := is_measuring s;
     measurements :=
       dict_set feq (fround (position s) 9) rd (measurements s);
     movement_history := movement_history s;
     precision_mode := precision_mode s;
     sub_pixel_positions := sub_pixel_positions s;
     last_update_time := last_update_time s;
     velocity := velocity s;
     acceleration := acceleration s;
     movement_smoothness := movement_smoothness s;
     normal_step_size := normal_step_size s |}.

(** [take_measurement(ring_radii)].  [parent] is the attribute of that name
    ([None] when no simulation is attached).  The result is the returned
    reading, or the [TypeError] of [closest_ring > 0] when [ring_radii] is
    empty and a parent is attached; the state is the one left behind in
    either case. *)
Definition take_measurement (s : TravelingMicroscope)
  (parent : option Parent) (ring_radii : list F) (rnd : F) (ts : string)
  : TravelingMicroscope * option Parent * (Reading + Exn) :=
  let rd := make_reading s ring_radii rnd ts in
  let s' := store_reading s rd in
  match parent with
  | None => (s', None, inl rd)
  | Some p =>
      match r_closest_ring rd with
      | None => (s', Some p, inr TypeError)
      | Some ring =>
          if (0 <? ring)%nat then
            if position s <? flit 0 0 then
              (s',
               Some {| left_measurements :=
                         dict_set Nat.eqb ring (position s)
                           (left_measurements p);
                       right_measurements := right_measurements p |},
               inl rd)
            else
              (s',
               Some {| left_measurements := left_measurements p;
                       right_measurements :=
                         dict_set Nat.eqb ring (position s)
                           (right_measurements p) |},
               inl rd)
          else (s', Some p, inl rd)
      end
  end.
End Microscope.

Arguments Reading F : clear implicits.
Arguments Scan F : clear implicits.
Arguments TravelingMicroscope F : clear implicits.
Arguments Parent F : clear implicits.

(** ** class NewtonRingsSimulation *)

Definition MAX_RINGS : nat := 15.

(** What [calculate_radius_from_measurements] reports: the message that two
    complete rings are needed, or the calculated radius of curvature (cm),
    the actual one (cm) and the relative error in percent. *)
Inductive RadiusReport (F : Type) : Type :=
  | NeedTwoRings
  | RadiusResults (calculated_radius actual_radius error_pct : F).
Arguments NeedTwoRings {F}.

(** The choice made in the menu of [change_wavelength]: one of the four
    spectral lines, a custom wavelength, or anything else. *)
Inductive WavelengthChoice (F : Type) : Type :=
  | SodiumD
  | MercuryGreen
  | HydrogenBeta
  | HydrogenAlpha
  | Custom (custom : F)
  | OtherChoice.
Arguments SodiumD {F}.
Arguments MercuryGreen {F}.
Arguments HydrogenBeta {F}.
Arguments HydrogenAlpha {F}.
Arguments OtherChoice {F}.

Section Simulation.
Context {F : Type} `{Num F}.
Local Open Scope num_scope.

(** The attributes of a [NewtonRingsSimulation]; [session] holds
    [left_measurements] and [right_measurements], which the microscope
    reaches through its [parent] reference. *)
Record NewtonRingsSimulation : Type := {
  wavelength : F;
  refractive_index : F;
  radius_of_curvature : F;
  ring_measurements : dict nat F;
  current_ring : nat;
  session : Parent F;
  microscope : TravelingMicroscope F;
  ring_radii : list F
}.

Definition set_ring_radii (s : NewtonRingsSimulation) (radii : list F)
  : NewtonRingsSimulation :=
  {| wavelength := wavelength s;
     refractive_index := refractive_index s;
     radius_of_curvature := radius_of_curvature s;
     ring_measurements := ring_measurements s;
     current_ring := current_ring s;
     session := session s;
     microscope := microscope s;
     ring_radii := radii |}.

Definition set_session (s : NewtonRingsSimulation) (p : Parent F)
  : NewtonRingsSimulation :=
  {| wavelength := wavelength s;
     refractive_index := refractive_index s;
     radius_of_curvature := radius_of_curvature s;
     ring_measurements := ring_measurements s;
     current_ring := current_ring s;
     session := p;
     microscope := microscope s;
     ring_radii := ring_radii s |}.

(** The radius in mm appended for ring order [m]. *)
Definition ring_radius (s : NewtonRingsSimulation) (m : nat) : F + Exn :=
  match m with
  | O => inl (flit 0 0)
  | _ =>
      match py_div (flit (Z.of_nat m) 0 * wavelength s * radius_of_curvature s)
              (refractive_index s) with
      | None => inr ZeroDivisionError
      | Some q =>
          match py_sqrt q with
          | None => inr ValueError
          | Some physical_radius => inl (physical_radius / flit 1000000 0)
          end
      end
  end.

(** The loop [for m in range(MAX_RINGS + 1)], appending to [radii]; it
    stops at the first exception. *)
Fixpoint ring_radii_loop (s : NewtonRingsSimulation) (ms : list nat)
  (radii : list F) : list F * option Exn :=
  match ms with
  | [] => (radii, None)
  | m :: rest =>
      match ring_radius s m with
      | inl radius => ring_radii_loop s rest (radii ++ [radius])
      | inr e => (radii, Some e)
      end
  end.

(** [calculate_ring_radii()]: the state it leaves and the exception it
    raised, if any. *)
Definition calculate_ring_radii (s : NewtonRingsSimulation)
  : NewtonRingsSimulation * option Exn :=
  let '(radii, e) := ring_radii_loop s (seq 0 (MAX_RINGS + 1)) [] in
  (set_ring_radii s radii, e).

(** The attributes [__init__()] sets before it calls
    [calculate_ring_radii]: sodium light, air, a lens of 100 cm, and a new
    microscope. *)
Definition default_parameters (now : F) : NewtonRingsSimulation :=
  {| wavelength := flit 5893 (-1);
     refractive_index := flit 1 0;
     radius_of_curvature := flit (100 * 10 ^ 7) 0;
     ring_measurements := [];
     current_ring := 0;
     session := {| left_measurements := []; right_measurements := [] |};
     microscope := init now;
     ring_radii := [] |}.

(** [__init__()] up to and including the call of [calculate_ring_radii]. *)
Definition new_simulation (now : F) : NewtonRingsSimulation :=
  fst (calculate_ring_radii (default_parameters now)).

(** [change_wavelength()] for the menu choice the user made, and
    [change_radius()] for the radius in cm the user entered. *)
Definition set_wavelength (s : NewtonRingsSimulation) (w : F)
  : NewtonRingsSimulation :=
  {| wavelength := w;
     refractive_index := refractive_index s;
     radius_of_curvature := radius_of_curvature s;
     ring_measurements := ring_measurements s;
     current_ring := current_ring s;
     session := session s;
     microscope := microscope s;
     ring_radii := ring_radii s |}.

Definition set_radius_of_curvature (s : NewtonRingsSimulation) (r : F)
  : NewtonRingsSimulation :=
  {| wavelength := wavelength s;
     refractive_index := refractive_index s;
     radius_of_curvature := r;
     ring_measurements := ring_measurements s;
     current_ring := current_ring s;
     session := session s;
     microscope := microscope s;
     ring_radii := ring_radii s |}.

Definition change_wavelength (s : NewtonRingsSimulation)
  (choice : WavelengthChoice F) : NewtonRingsSimulation * option Exn :=
  calculate_ring_radii
    match choice with
    | SodiumD => set_wavelength s (flit 5893 (-1))
    | MercuryGreen => set_wavelength s (flit 5461 (-1))
    | HydrogenBeta => set_wavelength s (flit 4861 (-1))
    | HydrogenAlpha => set_wavelength s (flit 6563 (-1))
    | Custom custom =>
        if (flit 400 0 <=? custom) && (custom <=? flit 700 0)
        then set_wavelength s custom else s
    | OtherChoice => s
    end.

Definition change_radius (s : NewtonRingsSimulation) (new_radius : F)
  : NewtonRingsSimulation * option Exn :=
  if (flit 50 0 <=? new_radius) && (new_radius <=? flit 200 0) then
    calculate_ring_radii
      (set_radius_of_curvature s (new_radius * flit (10 ^ 7) 0))
  else (s, None).

(** [measure_left_side()] and [measure_right_side()] for the ring number
    the user entered, [u] being the value of [random.random()]. *)
Definition measure_left_side (s : NewtonRingsSimulation)
  (ring_number : nat) (u : F) : NewtonRingsSimulation * option Exn :=
  if (1 <=? ring_number)%nat && (ring_number <=? MAX_RINGS)%nat then
    let noise := (u - flit 5 (-1)) * flit 2 (-2) in
    match nth_error (ring_radii s) ring_number with
    | None => (s, Some IndexError)
    | Some radius =>
        (set_session s
           {| left_measurements :=
                dict_set Nat.eqb ring_number (- radius + noise)
                  (left_measurements (session s));
              right_measurements := right_measurements (session s) |},
         None)
    end
  else (s, None).

Definition measure_right_side (s : NewtonRingsSimulation)
  (ring_number : nat) (u : F) : NewtonRingsSimulation * option Exn :=
  if (1 <=? ring_number)%nat && (ring_number <=? MAX_RINGS)%nat then
    let noise := (u - flit 5 (-1)) * flit 2 (-2) in
    match nth_error (ring_radii s) ring_number with
    | None => (s, Some IndexError)
    | Some radius =>
        (set_session s
           {| left_measurements := left_measurements (session s);
              right_measurements :=
                dict_set Nat.eqb ring_number (radius + noise)
                  (right_measurements (session s)) |},
         None)
    end
  else (s, None).

(** The wavelength shown by [display_microscope_view] for a reading whose
    closest ring is [ring_number > 0]. *)
Definition calculated_wavelength (s : NewtonRingsSimulation)
  (ring_number : nat) : F + Exn :=
  match nth_error (ring_radii s) ring_number with
  | None => inr IndexError
  | Some ring_radius =>
      match py_div (ring_radius * ring_radius * refractive_index s)
              (flit (Z.of_nat ring_number) 0 * radius_of_curvature s
               / flit (10 ^ 7) 0) with
      | None => inr ZeroDivisionError
      | Some w => inl (w * flit 1000000 0)
      end
  end.

(** The loop over [sorted(self.left_measurements.keys())] that fills
    [valid_rings] and [diameters_squared], as one list of pairs. *)
Fixpoint complete_rings (p : Parent F) (rings : list nat) : list (nat * F) :=
  match rings with
  | [] => []
  | ring :: rest =>
      match dict_get Nat.eqb ring (right_measurements p),
            dict_get Nat.eqb ring (left_measurements p) with
      | Some right_pos, Some left_pos =>
          let diameter := fabs (right_pos - left_pos) in
          (ring, diameter * diameter) :: complete_rings p rest
      | _, _ => complete_rings p rest
      end
  end.

Definition valid_rings_and_squares (s : NewtonRingsSimulation)
  : list (nat * F) :=
  complete_rings (session s)
    (sorted_by Nat.ltb (dict_keys (left_measurements (session s)))).

(** The least-squares slope of [diameters_squared] against [valid_rings]. *)
Definition regression_slope (points : list (nat * F)) : F + Exn :=
  let valid_rings := map (fun xy => Z.of_nat (fst xy)) points in
  let diameters_squared := map snd points in
  let n := Z.of_nat (List.length valid_rings) in
  let sum_x := fold_left Z.add valid_rings 0%Z in
  let sum_y := py_sum diameters_squared in
  let sum_xy :=
    py_sum (map (fun xy => flit (Z.of_nat (fst xy)) 0 * snd xy) points) in
  let sum_x_squared :=
    fold_left Z.add (map (fun x => (x ^ 2)%Z) valid_rings) 0%Z in
  let denominator := (n * sum_x_squared - sum_x ^ 2)%Z in
  if (denominator =? 0)%Z then inr ZeroDivisionError
  else
    inl ((flit n 0 * sum_xy - flit sum_x 0 * sum_y) / flit denominator 0).

(** [calculate_radius_from_measurements()]: the state it leaves and what
    it reports (or the exception it raised). *)
Definition calculate_radius_from_measurements (s : NewtonRingsSimulation)
  : NewtonRingsSimulation * (RadiusReport F + Exn) :=
  let points := valid_rings_and_squares s in
  if (List.length points <? 2)%nat then (s, inl NeedTwoRings)
  else
    match regression_slope points with
    | inr e => (s, inr e)
    | inl slope =>
        match py_div slope (wavelength s * flit 1 (-7)) with
        | None => (s, inr ZeroDivisionError)
        | Some calculated_radius =>
            let actual_radius := radius_of_curvature s / flit (10 ^ 7) 0 in
            match py_div (fabs (calculated_radius - actual_radius))
                    actual_radius with
            | None => (s, inr ZeroDivisionError)
            | Some rel =>
                (s, inl (RadiusResults calculated_radius actual_radius
                           (rel * flit 100 0)))
            end
        end
    end.
End Simulation.

Arguments NewtonRingsSimulation F : clear implicits.

(** ** display_microscope_measurements: the per-ring aggregation

    The part of [display_microscope_measurements] that groups the stored
    readings by closest ring, chooses one left and one right position per
    ring and writes them to [left_measurements] and [right_measurements].
    Printing is left out; the rows of the printed table are returned. *)

(** [ring_measurements[ring]]: its ['left'] and ['right'] position lists. *)
Record Sides (F : Type) : Type := {
  side_left : list F;
  side_right : list F
}.

(** One row of the table "Calculated Ring Diameters". *)
Record Row (F : Type) : Type := {
  row_ring : nat;
  row_left_pos : F;
  row_right_pos : F;
  row_precision_type : Quality
}.

Section Aggregation.
Context {F : Type} `{Num F}.
Local Open Scope num_scope.

(** [sorted(self.microscope.measurements.keys())] *)
Definition sorted_positions (m : dict F (Reading F)) : list F :=
  sorted_by flt (dict_keys m).

(** [[self.microscope.measurements[p] for p in sorted_positions]] *)
Definition sorted_readings (m : dict F (Reading F)) : list (Reading F) :=
  flat_map
    (fun p => match dict_get feq p m with Some r => [r] | None => [] end)
    (sorted_positions m).

(** One iteration of the grouping loop for a reading whose closest ring is
    [ring]. *)
Definition add_reading (g : dict nat (Sides F)) (ring : nat)
  (r : Reading F) : dict nat (Sides F) :=
  let cur :=
    match dict_get Nat.eqb ring g with
    | Some c => c
    | None => {| side_left := []; side_right := [] |}
    end in
  dict_set Nat.eqb ring
    (if r_position r <? flit 0 0 then
       {| side_left := side_left cur ++ [r_position r];
          side_right := side_right cur |}
     else
       {| side_left := side_left cur;
          side_right := side_right cur ++ [r_position r] |})
    g.

(** The grouping loop.  A reading without a closest ring (taken with an
    empty ring table) makes the later [ring > 0] raise [TypeError]. *)
Fixpoint group_by_ring (rs : list (Reading F)) (g : dict nat (Sides F))
  : dict nat (Sides F) + Exn :=
  match rs with
  | [] => inl g
  | r :: rest =>
      match r_closest_ring r with
      | None => inr TypeError
      | Some ring => group_by_ring rest (add_reading g ring r)
      end
  end.

(** [next(r for r in records if r['position'] == pos)['precision']] *)
Definition precision_at (records : list (Reading F)) (pos : F)
  : option Quality :=
  match find (fun r => r_position r =? pos) records with
  | Some r => Some (r_precision r)
  | None => None
  end.

(** The loop that fills the local dict [left_measurements] (or
    [right_measurements]) from quality label to positions. *)
Fixpoint group_by_precision (records : list (Reading F))
  (positions : list F) (g : dict Quality (list F))
  : dict Quality (list F) + Exn :=
  match positions with
  | [] => inl g
  | pos :: rest =>
      match precision_at records pos with
      | None => inr StopIteration
      | Some q =>
          let cur :=
            match dict_get Quality_eqb q g with
            | Some l => l
            | None => []
            end in
          group_by_precision records rest
            (dict_set Quality_eqb q (cur ++ [pos]) g)
      end
  end.

(** [(max(ls), min(rs), label)] *)
Definition extremes (ls rs : list F) (label : Quality)
  : (F * F * Quality) + Exn :=
  match py_max_list ls, py_min_list rs with
  | Some left_pos, Some right_pos => inl (left_pos, right_pos, label)
  | _, _ => inr ValueError
  end.

(** The [if]/[elif] chain "Prefer highest precision measurements if
    available". *)
Definition select_pair (left_by right_by : dict Quality (list F))
  (all_left all_right : list F) : (F * F * Quality) + Exn :=
  match dict_get Quality_eqb UltraHigh left_by,
        dict_get Quality_eqb UltraHigh right_by with
  | Some ls, Some rs => extremes ls rs UltraHigh
  | _, _ =>
  match dict_get Quality_eqb VeryHigh left_by,
        dict_get Quality_eqb VeryHigh right_by with
  | Some ls, Some rs => extremes ls rs VeryHigh
  | _, _ =>
  match dict_get Quality_eqb High left_by,
        dict_get Quality_eqb High right_by with
  | Some ls, Some rs => extremes ls rs High
  | _, _ => extremes all_left all_right Standard
  end end end.

(** The body of [for ring in sorted(ring_measurements.keys())] for a ring
    with both sides measured. *)
Definition best_pair (records : list (Reading F)) (sides : Sides F)
  : (F * F * Quality) + Exn :=
  match group_by_precision records (side_left sides) [] with
  | inr e => inr e
  | inl left_by =>
      match group_by_precision records (side_right sides) [] with
      | inr e => inr e
      | inl right_by =>
          select_pair left_by right_by (side_left sides) (side_right sides)
      end
  end.

Definition nonempty {A : Type} (l : list A) : bool :=
  match l with [] => false | _ => true end.

(** The loop over the sorted ring numbers: the rows printed so far, and
    the exception that ended the loop, if any. *)
Fixpoint rows_loop (records : list (Reading F)) (g : dict nat (Sides F))
  (rings : list nat) : list (Row F) * option Exn :=
  match rings with
  | [] => ([], None)
  | ring :: rest =>
      match dict_get Nat.eqb ring g with
      | None => rows_loop records g rest
      | Some sides =>
          if nonempty (side_left sides) && nonempty (side_right sides)
             && (0 <? ring)%nat then
            match best_pair records sides with
            | inr e => ([], Some e)
            | inl (left_pos, right_pos, label) =>
                let '(rows, e) := rows_loop records g rest in
                ({| row_ring := ring; row_left_pos := left_pos;
                    row_right_pos := right_pos;
                    row_precision_type := label |} :: rows, e)
            end
          else rows_loop records g rest
      end
  end.

(** The rows of the table for the stored measurements [m]. *)
Definition ring_rows (m : dict F (Reading F)) : list (Row F) * option Exn :=
  let positions := sorted_positions m in
  let left_positions := filter (fun p => p <? flit 0 0) positions in
  let right_positions := filter (fun p => p >? flit 0 0) positions in
  if nonempty left_positions && nonempty right_positions then
    match group_by_ring (sorted_readings m) [] with
    | inr e => ([], Some e)
    | inl g =>
        if existsb (fun ring => (0 <? ring)%nat) (dict_keys g) then
          rows_loop (sorted_readings m) g
            (sorted_by Nat.ltb (dict_keys g))
        else ([], None)
    end
  else ([], None).

(** [self.left_measurements[ring] = left_pos] and
    [self.right_measurements[ring] = right_pos] for every row. *)
Definition store_rows (p : Parent F) (rows : list (Row F)) : Parent F :=
  fold_left
    (fun p row =>
       {| left_measurements :=
            dict_set Nat.eqb (row_ring row) (row_left_pos row)
              (left_measurements p);
          right_measurements :=
            dict_set Nat.eqb (row_ring row) (row_right_pos row)
              (right_measurements p) |})
    rows p.
End Aggregation.

(** ** Sequences of calls *)

(** A call of one of the two move operations, with the wall-clock time at
    which it runs. *)
Inductive MoveCall (F : Type) : Type :=
  | MoveLeft (factor now : F)
  | MoveRight (factor now : F).

(** A call of one of the two step size operations. *)
Inductive StepCall : Type := Increase | Decrease.

(** Any operation on the microscope: its methods, and the two assignments
    by which the simulation clears [measurements] and [current_reading]. *)
Inductive Command (F : Type) : Type :=
  | CMove (c : MoveCall F)
  | CStep (c : StepCall)
  | CToggle
  | CMeasure (parent : option (Parent F)) (ring_radii : list F) (rnd : F)
      (ts : string)
  | CClearMeasurements
  | CClearReading.
Arguments CStep {F} c.
Arguments CToggle {F}.
Arguments CClearMeasurements {F}.
Arguments CClearReading {F}.

Section Calls.
Context {F : Type} `{Num F}.
Local Open Scope num_scope.

Definition do_move (s : TravelingMicroscope F) (c : MoveCall F)
  : TravelingMicroscope F :=
  match c with
  | MoveLeft factor now => snd (move_left s factor now)
  | MoveRight factor now => snd (move_right s factor now)
  end.

Definition run_moves (s : TravelingMicroscope F) (calls : list (MoveCall F))
  : TravelingMicroscope F :=
  fold_left do_move calls s.

(** The clock never runs backwards: every call happens at or after the
    time of the previous update. *)
Fixpoint clock_monotone (last : F) (calls : list (MoveCall F)) : bool :=
  match calls with
  | [] => true
  | MoveLeft _ now :: rest | MoveRight _ now :: rest =>
      (last <=? now) && clock_monotone now rest
  end.

Definition do_step (s : TravelingMicroscope F) (c : StepCall)
  : TravelingMicroscope F :=
  match c with
  | Increase => snd (increase_step_size s)
  | Decrease => snd (decrease_step_size s)
  end.

Definition run_steps (s : TravelingMicroscope F) (calls : list StepCall)
  : TravelingMicroscope F :=
  fold_left do_step calls s.

(** [self.microscope.measurements = {}] *)
Definition clear_measurements (s : TravelingMicroscope F)
  : TravelingMicroscope F :=
  {| position := position s;
     max_position := max_position s;
     step_size := step_size s;
     current_reading := current_reading s;
     is_measuring := is_measuring s;
     measurements := [];
     movement_history := movement_history s;
     precision_mode := precision_mode s;
     sub_pixel_positions := sub_pixel_positions s;
     last_update_time := last_update_time s;
     velocity := velocity s;
     acceleration := acceleration s;
     movement_smoothness := movement_smoothness s;
     normal_step_size := normal_step_size s |}.

(** [self.microscope.current_reading = None] *)
Definition clear_reading (s : TravelingMicroscope F)
  : TravelingMicroscope F :=
  {| position := position s;
     max_position := max_position s;
     step_size := step_size s;
     current_reading := None;
     is_measuring := is_measuring s;
     measurements := measurements s;
     movement_history := movement_history s;
     precision_mode := precision_mode s;
     sub_pixel_positions := sub_pixel_positions s;
     last_update_time := last_update_time s;
     velocity := velocity s;
     acceleration := acceleration s;
     movement_smoothness := movement_smoothness s;
     normal_step_size := normal_step_size s |}.

Definition exec (s : TravelingMicroscope F) (c : Command F)
  : TravelingMicroscope F :=
  match c with
  | CMove m => do_move s m
  | CStep st => do_step s st
  | CToggle => snd (toggle_precision_mode s)
  | CMeasure parent radii rnd ts =>
      fst (fst (take_measurement s parent radii rnd ts))
  | CClearMeasurements => clear_measurements s
  | CClearReading => clear_reading s
  end.

(** The states a microscope can be in: the constructed one and those any
    sequence of operations leads to. *)
Inductive reachable : TravelingMicroscope F -> Prop :=
  | reachable_init (now : F) : reachable (init now)
  | reachable_exec (s : TravelingMicroscope F) (c : Command F) :
      reachable s -> reachable (exec s c).
End Calls.

(** ** Reference values for the statements below *)

(** The noise-free measurements of the rings [m1] and [m2] of a ring table:
    the left edge of a ring at minus its radius, the right edge at its
    radius. *)
Definition synthetic_session {F : Type} `{Num F} (radii : list F)
  (m1 m2 : nat) : Parent F :=
  {| left_measurements :=
       [(m1, fneg (nth m1 radii (flit 0 0)));
        (m2, fneg (nth m2 radii (flit 0 0)))];
     right_measurements :=
       [(m1, nth m1 radii (flit 0 0)); (m2, nth m2 radii (flit 0 0))] |}.

(** The radius the ring formula gives for order [m], in mm, over the
    reals: [sqrt(m * wavelength * R / mu) / 1e6]. *)
Definition formula_radius (s : NewtonRingsSimulation R) (m : nat) : R :=
  (sqrt (INR m * wavelength s * radius_of_curvature s / refractive_index s)
   / 1000000)%R.

(** Entry [m] of the ring table: [0] for the central spot. *)
Definition table_entry (s : NewtonRingsSimulation R) (m : nat) : R :=
  match m with O => 0%R | _ => formula_radius s m end.

(** Ring [r] has both a left and a right measurement. *)
Definition complete_ring {F : Type} (p : Parent F) (r : nat) : Prop :=
  dict_mem Nat.eqb r (left_measurements p) = true
  /\ dict_mem Nat.eqb r (right_measurements p) = true.

(** A session in which ring 5 is measured on both sides and ring 7 on the
    right only. *)
Definition one_complete_ring : NewtonRingsSimulation float :=
  set_session (new_simulation (flit 0 0))
    {| left_measurements := [(5%nat, fneg (flit 17 (-1)))];
       right_measurements := [(5%nat, flit 17 (-1)); (7%nat, flit 2 0)] |}.

Section TierDefs.
Context {F : Type} `{Num F}.

(** The positions of [positions] whose reading carries the label [q]. *)
Definition tier_positions (records : list (Reading F)) (positions : list F)
  (q : Quality) : list F :=
  filter
    (fun pos =>
       match precision_at records pos with
       | Some q' => Quality_eqb q' q
       | None => false
       end)
    positions.

(** The first label of [tiers] that occurs on both sides of a ring. *)
Definition first_common_tier (tiers : list Quality)
  (records : list (Reading F)) (sides : Sides F) : option Quality :=
  find
    (fun q =>
       nonempty (tier_positions records (side_left sides) q)
       && nonempty (tier_positions records (side_right sides) q))
    tiers.

(** The list a label maps to in a local dict from label to positions. *)
Definition entries (g : dict Quality (list F)) (q : Quality) : list F :=
  match dict_get Quality_eqb q g with Some l => l | None => [] end.

(** No label of the dict maps to an empty list. *)
Definition no_empty_entry (g : dict Quality (list F)) : Prop :=
  forall q, dict_get Quality_eqb q g <> Some [].

(** A stored reading of ring 5 (radius 1.7165 mm) at [pos], at distance
    [dist] from the ring, taken at velocity [vel] and labelled [q], with
    ring 4 second closest. *)
Definition ring5_reading (pos dist vel : F) (q : Quality) (noise : F)
  : Reading F :=
  {| r_position := pos;
     r_closest_ring := Some 5%nat;
     r_second_closest_ring := Some 4%nat;
     r_distance_from_ring := Some dist;
     r_reading := pos;
     r_precision := q;
     r_velocity := vel;
     r_noise_estimate := noise;
     r_timestamp := "12:00:00";
     r_alignment_quality := fsub (flit 100 0) (flit 1 0) |}.

(** Three stored measurements of ring 5: on the left one labelled Good at
    -1.70 mm and one labelled Standard at -1.65 mm, on the right one
    labelled Good at 1.70 mm. *)
Definition good_and_standard : dict F (Reading F) :=
  [(fneg (flit 170 (-2)),
    ring5_reading (fneg (flit 170 (-2))) (flit 165 (-4)) (flit 6 (-2)) Good
      (flit 2 (-3)));
   (fneg (flit 165 (-2)),
    ring5_reading (fneg (flit 165 (-2))) (flit 665 (-4)) (flit 5 (-1))
      Standard (flit 2 (-3)));
   (flit 170 (-2),
    ring5_reading (flit 170 (-2)) (flit 165 (-4)) (flit 6 (-2)) Good
      (flit 2 (-3)))].
End TierDefs.

(** The list is strictly increasing; [x] lies strictly between [lo] and
    [hi]. *)
Fixpoint increasing {F : Type} `{Num F} (l : list F) : bool :=
  match l with
  | x :: (y :: _) as l' => flt x y && increasing l'
  | _ => true
  end.
Definition within {F : Type} `{Num F} (lo x hi : F) : bool :=
  flt lo x && flt x hi.

Section RingSides.
Context {F : Type} `{Num F}.

(** The closest ring of the reading is [ring]. *)
Definition of_ring (ring : nat) (r : Reading F) : bool :=
  match r_closest_ring r with
  | Some k => Nat.eqb k ring
  | None => false
  end.

(** The positions of the readings of [ring] left of the centre (negative)
    and right of it, in the order of the readings. *)
Definition ring_left (records : list (Reading F)) (ring : nat) : list F :=
  map r_position
    (filter (fun r => of_ring ring r && flt (r_position r) (flit 0 0))
       records).
Definition ring_right (records : list (Reading F)) (ring : nat) : list F :=
  map r_position
    (filter (fun r => of_ring ring r && negb (flt (r_position r) (flit 0 0)))
       records).
Definition ring_sides (records : list (Reading F)) (ring : nat) : Sides F :=
  {| side_left := ring_left records ring;
     side_right := ring_right records ring |}.

(** The sides a ring has in the grouping dict, none when it is no key. *)
Definition sides_entry (g : dict nat (Sides F)) (ring : nat) : Sides F :=
  match dict_get Nat.eqb ring g with
  | Some sides => sides
  | None => {| side_left := []; side_right := [] |}
  end.

(** The ring has a row: both of its sides are measured and it is not the
    central spot. *)
Definition has_row (sides : Sides F) (ring : nat) : bool :=
  nonempty (side_left sides) && nonempty (side_right sides)
  && (0 <? ring)%nat.

(** The table is printed: some key is negative and some key is positive. *)
Definition table_shown (m : dict F (Reading F)) : bool :=
  nonempty (filter (fun p => flt p (flit 0 0)) (sorted_positions m))
  && nonempty (filter (fun p => flt (flit 0 0) p) (sorted_positions m)).
End RingSides.

(** [m] is a greatest (least) element of [l]. *)
Definition is_max (m : R) (l : list R) : Prop :=
  In m l /\ forall y : R, In y l -> (y <= m)%R.
Definition is_min (m : R) (l : list R) : Prop :=
  In m l /\ forall y : R, In y l -> (m <= y)%R.

(** The step size operations on a step size that is a whole number [a] of
    thousandths of a millimetre, in integer arithmetic. *)
Definition increase_thousandths (a : Z) : Z :=
  if (a <? 2000)%Z then
    if (a <? 100)%Z then Z_round_half_even (a * 125) 100
    else if (a <? 500)%Z then Z_round_half_even (a * 12) 10
    else Z_round_half_even (a * 115) 100
  else a.

Definition decrease_thousandths (a : Z) : Z :=
  if (1 <? a)%Z then
    if (a <=? 100)%Z then
      if (10 <? a * 8)%Z then Z_round_half_even (a * 8) 10 else 1%Z
    else if (a <=? 500)%Z then Z_round_half_even (a * 85) 100
    else Z_round_half_even (a * 9) 10
  else a.

Definition step_thousandths (a : Z) (c : StepCall) : Z :=
  match c with
  | Increase => increase_thousandths a
  | Decrease => decrease_thousandths a
  end.

(** The elapsed time a move integrates over, and the filtered velocity of a
    move towards [direction] (-1 for left, 1 for right), over the reals. *)
Definition elapsed (s : TravelingMicroscope R) (now : R) : R :=
  Rmin (1 / 10) (now - last_update_time s).

Definition filtered_velocity (s : TravelingMicroscope R) (direction factor : R)
  : R :=
  (velocity s * movement_smoothness s
   + direction
     * (if precision_mode s then step_size s * factor / 10
        else step_size s * factor)
     * 10 * (1 - movement_smoothness s))%R.

(** ** Reference runs *)

Section Runs.
Context {F : Type} `{Num F}.

(** Two calls 0.1 s apart on a microscope constructed at time 0: a move
    right with factor 1000, then a move left with factor 0. *)
Definition overshoot_calls : list (MoveCall F) :=
  [MoveRight (flit 1000 0) (flit 1 (-1)); MoveLeft (flit 0 0) (flit 2 (-1))].

(** Key presses with the default factor 1.0 on a microscope constructed at
    time 0: 303 moves right 0.1 s apart, one more 0.095 s later, then a
    move left 0.1 s later. *)
Definition keypress_calls : list (MoveCall F) :=
  map (fun i => MoveRight (flit 1 0) (flit (Z.of_nat i) (-1))) (seq 1 303)
  ++ [MoveRight (flit 1 0) (flit 30395 (-3));
      MoveLeft (flit 1 0) (flit 30495 (-3))].

(** A measurement taken by the microscope of a new simulation. *)
Definition measure (s : TravelingMicroscope F) (ts : string)
  : TravelingMicroscope F :=
  fst (fst (take_measurement s (Some (session (new_simulation (flit 0 0))))
              (ring_radii (new_simulation (flit 0 0))) (flit 0 0) ts)).

(** A move from the constructed microscope to 4.5e-10 mm, and, after a
    measurement there, a move on to 5.5e-10 mm. *)
Definition boundary_state_1 : TravelingMicroscope F :=
  do_move (init (flit 0 0)) (MoveRight (flit 1 0) (flit 225 (-11))).
Definition boundary_state_2 : TravelingMicroscope F :=
  do_move (measure boundary_state_1 "12:00:00")
    (MoveRight (flit 2 (-1)) (flit 275 (-11))).

(** A move from the constructed microscope, after a measurement at 0, to
    1e-10 mm. *)
Definition inside_state_2 : TravelingMicroscope F :=
  do_move (measure (init (flit 0 0)) "12:00:00")
    (MoveRight (flit 1 0) (flit 5 (-10))).

(** A sweep with the default factor 1.0: 21 moves left 0.1 s apart and a
    measurement while moving; one second later a move right and a
    measurement; 40 moves right 0.1 s apart; 1.5 s later one more move right
    and a measurement. *)
Definition sweep_commands : list (Command F) :=
  map (fun i => CMove (MoveLeft (flit 1 0) (flit (Z.of_nat i) (-1))))
    (seq 1 21)
  ++ [CMeasure (Some (session (new_simulation (flit 0 0))))
        (ring_radii (new_simulation (flit 0 0))) (flit 0 0) "00:00:02";
      CMove (MoveRight (flit 1 0) (flit 31 (-1)));
      CMeasure (Some (session (new_simulation (flit 0 0))))
        (ring_radii (new_simulation (flit 0 0))) (flit 0 0) "00:00:03"]
  ++ map (fun i => CMove (MoveRight (flit 1 0) (flit (31 + Z.of_nat i) (-1))))
       (seq 1 40)
  ++ [CMove (MoveRight (flit 1 0) (flit 86 (-1)));
      CMeasure (Some (session (new_simulation (flit 0 0))))
        (ring_radii (new_simulation (flit 0 0))) (flit 0 0) "00:00:09"].

Definition run_commands (s : TravelingMicroscope F)
  (commands : list (Command F)) : TravelingMicroscope F :=
  fold_left exec commands s.
End Runs.

(** ** display_microscope_view: the real-time analysis *)

Section LiveView.
Context {F : Type} `{Num F}.
Local Open Scope num_scope.

(** The loop of [display_microscope_view] that computes [nearest_ring] and
    [min_distance] for the current position. *)
Definition nearest_step (pos : F) (acc : option nat * option F)
  (ring_num : nat) (radius : F) : option nat * option F :=
  let distance := fabs (fabs pos - radius) in
  if lt_inf distance (snd acc) then (Some ring_num, Some distance) else acc.

Fixpoint nearest_from (pos : F) (acc : option nat * option F)
  (ring_num : nat) (ring_radii : list F) : option nat * option F :=
  match ring_radii with
  | [] => acc
  | radius :: rest =>
      nearest_from pos (nearest_step pos acc ring_num radius) (S ring_num) rest
  end.

Definition nearest_ring (pos : F) (ring_radii : list F)
  : option nat * option F :=
  nearest_from pos (None, None) 0 ring_radii.
End LiveView.

(** ** change_wavelength and change_radius: sequences of calls *)

(** A call of one of the two menus that change a parameter of the
    experiment. *)
Inductive ParameterCall (F : Type) : Type :=
  | ChangeWavelength (choice : WavelengthChoice F)
  | ChangeRadius (new_radius : F).

Section Parameters.
Context {F : Type} `{Num F}.
Local Open Scope num_scope.

Definition do_parameter (s : NewtonRingsSimulation F) (c : ParameterCall F)
  : NewtonRingsSimulation F * option Exn :=
  match c with
  | ChangeWavelength choice => change_wavelength s choice
  | ChangeRadius new_radius => change_radius s new_radius
  end.

(** A run of such calls; it stops at the first exception. *)
Fixpoint run_parameters (s : NewtonRingsSimulation F)
  (calls : list (ParameterCall F)) : NewtonRingsSimulation F * option Exn :=
  match calls with
  | [] => (s, None)
  | c :: rest =>
      match do_parameter s c with
      | (s', None) => run_parameters s' rest
      | (s', Some e) => (s', Some e)
      end
  end.
End Parameters.

(** ** display_microscope_measurements: the wavelength statistics

    The part of [display_microscope_measurements] that follows the table
    of ring diameters: a second loop over the rings fills the lists
    [diameters], [ring_numbers], [precisions] and [wavelengths].  It reads
    the local dicts [left_measurements] and [right_measurements], which the
    loop over the rows assigned last for the last ring with a row. *)

(** One element of the four lists. *)
Record StatEntry (F : Type) : Type := {
  stat_ring : nat;
  stat_diameter : F;
  stat_class : Z;
  stat_wavelength : F
}.

(** [precision_class] for the label of the branch taken. *)
Definition precision_class (label : Quality) : Z :=
  match label with
  | UltraHigh => 3%Z
  | VeryHigh => 2%Z
  | High => 1%Z
  | _ => 0%Z
  end.

Section Statistics.
Context {F : Type} `{Num F}.
Local Open Scope num_scope.

(** The wavelength in nm that [display_microscope_measurements] prints in
    the row of [ring] for the pair [left_pos], [right_pos]. *)
Definition row_wavelength (s : NewtonRingsSimulation F) (ring : nat)
  (left_pos right_pos : F) : F + Exn :=
  let diameter := right_pos - left_pos in
  let diameter_squared := diameter * diameter in
  match py_div (diameter_squared * refractive_index s)
          (flit (4 * Z.of_nat ring) 0 * radius_of_curvature s
           / flit (10 ^ 7) 0) with
  | None => inr ZeroDivisionError
  | Some wavelength_nm => inl (wavelength_nm * flit 1000000 0)
  end.

(** The local dicts [left_measurements] and [right_measurements] as the
    loop over the rows leaves them: those of the last ring with a row,
    [acc] when there is none. *)
Fixpoint last_groups (records : list (Reading F)) (g : dict nat (Sides F))
  (rings : list nat)
  (acc : option (dict Quality (list F) * dict Quality (list F)))
  : option (dict Quality (list F) * dict Quality (list F)) :=
  match rings with
  | [] => acc
  | ring :: rest =>
      match dict_get Nat.eqb ring g with
      | None => last_groups records g rest acc
      | Some sides =>
          if nonempty (side_left sides) && nonempty (side_right sides)
             && (0 <? ring)%nat then
            match group_by_precision records (side_left sides) [],
                  group_by_precision records (side_right sides) [] with
            | inl left_by, inl right_by =>
                last_groups records g rest (Some (left_by, right_by))
            | _, _ => acc
            end
          else last_groups records g rest acc
      end
  end.

(** The second loop over the sorted ring numbers, reading the dicts
    [left_by] and [right_by]: the entries appended so far, and the
    exception that ended the loop, if any. *)
Fixpoint statistics_loop (s : NewtonRingsSimulation F)
  (g : dict nat (Sides F)) (rings : list nat)
  (left_by right_by : dict Quality (list F))
  : list (StatEntry F) * option Exn :=
  match rings with
  | [] => ([], None)
  | ring :: rest =>
      match dict_get Nat.eqb ring g with
      | None => statistics_loop s g rest left_by right_by
      | Some sides =>
          if nonempty (side_left sides) && nonempty (side_right sides)
             && (0 <? ring)%nat then
            match select_pair left_by right_by (side_left sides)
                    (side_right sides) with
            | inr e => ([], Some e)
            | inl (left_pos, right_pos, label) =>
                match row_wavelength s ring left_pos right_pos with
                | inr e => ([], Some e)
                | inl wavelength_nm =>
                    let '(entries, e) :=
                      statistics_loop s g rest left_by right_by in
                    ({| stat_ring := ring;
                        stat_diameter := right_pos - left_pos;
                        stat_class := precision_class label;
                        stat_wavelength := wavelength_nm |} :: entries, e)
                end
            end
          else statistics_loop s g rest left_by right_by
      end
  end.

(** The entries of the statistics for the stored measurements [m]. *)
Definition ring_statistics (s : NewtonRingsSimulation F)
  (m : dict F (Reading F)) : list (StatEntry F) * option Exn :=
  let positions := sorted_positions m in
  let left_positions := filter (fun p => p <? flit 0 0) positions in
  let right_positions := filter (fun p => p >? flit 0 0) positions in
  if nonempty left_positions && nonempty right_positions then
    match group_by_ring (sorted_readings m) [] with
    | inr e => ([], Some e)
    | inl g =>
        if existsb (fun ring => (0 <? ring)%nat) (dict_keys g) then
          let rings := sorted_by Nat.ltb (dict_keys g) in
          match rows_loop (sorted_readings m) g rings with
          | (_, Some e) => ([], Some e)
          | (_, None) =>
              match last_groups (sorted_readings m) g rings None with
              | None => ([], None)
              | Some (left_by, right_by) =>
                  statistics_loop s g rings left_by right_by
              end
          end
        else ([], None)
    end
  else ([], None).
End Statistics.

(** ** adjust_microscope_realtime: the arrow keys

    [int(x)] of a float truncates towards zero; it is kept behind an
    interface of its own, with the same two interpretations as [Num]. *)
Class Trunc (F : Type) : Type := {
  ftrunc : F -> Z
}.

#[export] Instance R_Trunc : Trunc R := {|
  ftrunc := fun x => if Rle_dec 0 x then Zfloor x else (- Zfloor (- x))%Z
|}.

#[export] Instance F64_Trunc : Trunc float := {|
  ftrunc := fun x =>
    match Prim2SF x with
    | S754_finite s m e =>
        let k :=
          if (0 <=? e)%Z then (Zpos m * 2 ^ e)%Z
          else (Zpos m / 2 ^ (- e))%Z in
        if s then (- k)%Z else k
    | _ => 0%Z
    end
|}.

(** The three local variables of [adjust_microscope_realtime] that track a
    held arrow key. *)
Record KeyRepeat (F : Type) : Type := {
  continuous_movement : bool;
  last_movement_time : F;
  movement_acceleration : F
}.

(** What happens to them in a frame: an arrow key is down at
    [current_time], or no arrow key is down. *)
Inductive ArrowEvent (F : Type) : Type :=
  | ArrowDown (current_time : F)
  | ArrowUp.
Arguments ArrowUp {F}.

Section ArrowKeys.
Context {F : Type} `{Num F} `{Trunc F}.
Local Open Scope num_scope.

(** Their values before the loop, entered at time [now]. *)
Definition key_repeat_start (now : F) : KeyRepeat F :=
  {| continuous_movement := false;
     last_movement_time := now;
     movement_acceleration := flit 1 0 |}.

(** A frame with an arrow key down: the new variables, the number [steps]
    of calls of the move operation and the factor [step_size] of each. *)
Definition arrow_down (k : KeyRepeat F) (current_time : F)
  : KeyRepeat F * (nat * F) :=
  let acceleration :=
    if continuous_movement k
       && (current_time - last_movement_time k <? flit 1 0)
    then py_min (flit 4 0) (movement_acceleration k * flit 105 (-2))
    else flit 1 0 in
  let steps := Z.to_nat (Z.max 1 (ftrunc (acceleration * flit 15 (-1)))) in
  let step_size := acceleration / flit (Z.of_nat steps) 0 in
  ({| continuous_movement := true;
      last_movement_time := current_time;
      movement_acceleration := acceleration |},
   (steps, step_size)).

(** A frame with no arrow key down. *)
Definition arrow_up (k : KeyRepeat F) : KeyRepeat F :=
  if continuous_movement k then
    let acceleration :=
      py_max (flit 1 0) (movement_acceleration k * flit 95 (-2)) in
    if acceleration <? flit 105 (-2) then
      {| continuous_movement := false;
         last_movement_time := last_movement_time k;
         movement_acceleration := flit 1 0 |}
    else
      {| continuous_movement := true;
         last_movement_time := last_movement_time k;
         movement_acceleration := acceleration |}
  else k.

Definition arrow_event (k : KeyRepeat F) (e : ArrowEvent F) : KeyRepeat F :=
  match e with
  | ArrowDown current_time => fst (arrow_down k current_time)
  | ArrowUp => arrow_up k
  end.
End ArrowKeys.

(** ** display_rings_ascii: the rings that are drawn *)

Section AsciiPicture.
Context {F : Type} `{Num F} `{Trunc F}.
Local Open Scope num_scope.

(** The loop [for m in range(MAX_RINGS, 0, -1)] over the ring orders [ms]:
    the rings that are not skipped, each drawn as a circle of
    [int(ring_radii[m] * 100)] characters. *)
Fixpoint ascii_rings_loop (s : NewtonRingsSimulation F) (ms : list nat)
  : list nat + Exn :=
  match ms with
  | [] => inl []
  | m :: rest =>
      match nth_error (ring_radii s) m with
      | None => inr IndexError
      | Some ring_radius =>
          let radius := ftrunc (ring_radius * flit 100 0) in
          match ascii_rings_loop s rest with
          | inr e => inr e
          | inl drawn =>
              inl (if (Z.min 30 15 <=? radius)%Z then drawn else m :: drawn)
          end
      end
  end.

Definition ascii_rings_drawn (s : NewtonRingsSimulation F)
  : list nat + Exn :=
  ascii_rings_loop s (rev (seq 1 MAX_RINGS)).
End AsciiPicture.

(** ** The session: keys of the microscope view and menu choices *)

(** What the user does in one step of a session: a key of the microscope
    view that [process_microscope_key] handles, read at time [now] with
    the random sample [rnd] and the formatted time [ts]; a move made by
    the real-time loop for an arrow key; a change of a parameter; a manual
    measurement of one side of a ring with the random sample [u]; a
    confirmed reset. *)
Inductive SessionEvent (F : Type) : Type :=
  | Key (key : string) (now rnd : F) (ts : string)
  | Arrow (c : MoveCall F)
  | ChangeParameter (c : ParameterCall F)
  | ManualLeft (ring_number : nat) (u : F)
  | ManualRight (ring_number : nat) (u : F)
  | ResetAll.
Arguments ResetAll {F}.

Section Session.
Context {F : Type} `{Num F}.
Local Open Scope num_scope.

Definition set_microscope (s : NewtonRingsSimulation F)
  (mic : TravelingMicroscope F) : NewtonRingsSimulation F :=
  {| wavelength := wavelength s;
     refractive_index := refractive_index s;
     radius_of_curvature := radius_of_curvature s;
     ring_measurements := ring_measurements s;
     current_ring := current_ring s;
     session := session s;
     microscope := mic;
     ring_radii := ring_radii s |}.

(** [key in keys] *)
Definition key_in (key : string) (keys : list string) : bool :=
  existsb (String.eqb key) keys.

(** The rows of the table whose positions are stored: those before the
    first row for which the wavelength or its error raises
    [ZeroDivisionError]. *)
Fixpoint rows_before_error (s : NewtonRingsSimulation F)
  (rows : list (Row F)) : list (Row F) :=
  match rows with
  | [] => []
  | row :: rest =>
      match row_wavelength s (row_ring row) (row_left_pos row)
              (row_right_pos row) with
      | inr _ => []
      | inl _ =>
          if wavelength s =? flit 0 0 then []
          else row :: rows_before_error s rest
      end
  end.

(** The state [display_microscope_measurements] leaves behind: the
    positions of the rows it printed are in the left and right
    measurements of the simulation. *)
Definition show_measurements (s : NewtonRingsSimulation F)
  : NewtonRingsSimulation F :=
  let rows := fst (ring_rows (measurements (microscope s))) in
  set_session s (store_rows (session s) (rows_before_error s rows)).

(** The state [process_microscope_key(key)] leaves behind. *)
Definition process_microscope_key (s : NewtonRingsSimulation F)
  (key : string) (now rnd : F) (ts : string) : NewtonRingsSimulation F :=
  if key_in key ["a"%string; "left"%string] then
    set_microscope s (snd (move_left (microscope s) (flit 1 0) now))
  else if key_in key ["d"%string; "right"%string] then
    set_microscope s (snd (move_right (microscope s) (flit 1 0) now))
  else if key_in key ["+"%string; "="%string] then
    set_microscope s (snd (increase_step_size (microscope s)))
  else if key_in key ["-"%string; "_"%string] then
    set_microscope s (snd (decrease_step_size (microscope s)))
  else if key_in key [" "%string; "space"%string] then
    let '(mic, parent, _) :=
      take_measurement (microscope s) (Some (session s)) (ring_radii s)
        rnd ts in
    set_session (set_microscope s mic)
      match parent with Some p => p | None => session s end
  else if String.eqb key "m" then show_measurements s
  else if String.eqb key "c" then
    set_microscope s (clear_measurements (microscope s))
  else if String.eqb key "p" then
    set_microscope s (snd (toggle_precision_mode (microscope s)))
  else s.

(** The state [reset_all_measurements()] leaves behind when the user
    confirms. *)
Definition reset_all_measurements (s : NewtonRingsSimulation F)
  : NewtonRingsSimulation F :=
  set_session
    (set_microscope s (clear_reading (clear_measurements (microscope s))))
    {| left_measurements := []; right_measurements := [] |}.

Definition session_step (s : NewtonRingsSimulation F) (e : SessionEvent F)
  : NewtonRingsSimulation F :=
  match e with
  | Key key now rnd ts => process_microscope_key s key now rnd ts
  | Arrow c => set_microscope s (do_move (microscope s) c)
  | ChangeParameter c => fst (do_parameter s c)
  | ManualLeft ring_number u => fst (measure_left_side s ring_number u)
  | ManualRight ring_number u => fst (measure_right_side s ring_number u)
  | ResetAll => reset_all_measurements s
  end.

Definition run_session (s : NewtonRingsSimulation F)
  (events : list (SessionEvent F)) : NewtonRingsSimulation F :=
  fold_left session_step events s.

(** The random sample of a manual measurement is in [0, 1), as
    [random.random()] is. *)
Definition event_ok (e : SessionEvent F) : bool :=
  match e with
  | ManualLeft _ u | ManualRight _ u => (flit 0 0 <=? u) && (u <? flit 1 0)
  | _ => true
  end.
End Session.

(** ** Reference notions for the further properties *)

(** The invariant behind the bounds: the step size and the step size saved
    on entering precision mode are whole numbers of thousandths between 1
    and 2300. *)
Definition step_invariant (s : TravelingMicroscope R) : Prop :=
  (exists a : Z, step_size s = (IZR a / 1000)%R /\ (1 <= a <= 2300)%Z)
  /\ forall saved : R,
       normal_step_size s = Some saved ->
       exists b : Z, saved = (IZR b / 1000)%R /\ (1 <= b <= 2300)%Z.

(** The distance [abs(abs(pos) - radius)] of the position [pos] from ring
    [k] of a ring table, over the reals. *)
Definition ring_distance (pos : R) (ring_radii : list R) (k : nat) : R :=
  Rabs (Rabs pos - nth k ring_radii 0%R).

(** Among the first [n] rings, ring [i] is the first one at the least
    distance [d]; ring [j] is at the least distance among the others. *)
Definition nearest (d : nat -> R) (n i : nat) : Prop :=
  (i < n)%nat
  /\ (forall j : nat, (j < n)%nat -> (d i <= d j)%R)
  /\ (forall j : nat, (j < i)%nat -> (d i < d j)%R).

Definition second_nearest (d : nat -> R) (n i j : nat) : Prop :=
  (j < n)%nat /\ j <> i
  /\ forall k : nat, (k < n)%nat -> k <> i -> (d j <= d k)%R.

(** The loop variables of the scan after [n] rings with distances [d]. *)
Definition scanned (d : nat -> R) (n : nat) (acc : Scan R) : Prop :=
  match n with
  | O => acc = scan_start
  | S n' =>
      exists i : nat,
        closest_ring acc = Some i /\ min_distance acc = Some (d i)
        /\ nearest d n i
        /\ match n' with
           | O => second_closest acc = None /\ second_min_distance acc = None
           | S _ =>
               exists j : nat,
                 second_closest acc = Some j
                 /\ second_min_distance acc = Some (d j)
                 /\ second_nearest d n i j
           end
  end.

(** The stored measurements: the keys are pairwise different and every
    reading is filed under its own position rounded to 9 decimals. *)
Definition filed_by_position (m : dict R (Reading R)) : Prop :=
  NoDup (dict_keys m)
  /\ forall (k : R) (rd : Reading R),
       In (k, rd) m -> k = fround (r_position rd) 9.

(** A microscope at rest at [pos]: the constructed one, moved there. *)
Definition microscope_at {F : Type} `{Num F} (pos : F)
  : TravelingMicroscope F :=
  {| position := pos;
     max_position := flit 30 0;
     step_size := flit 1 (-1);
     current_reading := None;
     is_measuring := false;
     measurements := [];
     movement_history := [];
     precision_mode := false;
     sub_pixel_positions := [];
     last_update_time := flit 0 0;
     velocity := flit 0 0;
     acceleration := flit 0 0;
     movement_smoothness := flit 8 (-1);
     normal_step_size := None |}.

(** The moves among a list of commands, in order. *)
Definition moves_of {F : Type} (commands : list (Command F))
  : list (MoveCall F) :=
  flat_map (fun c => match c with CMove m => [m] | _ => [] end) commands.

(** The command does not move against the direction [dir], and a move
    towards [dir] has a factor that is not negative. *)
Definition toward {F : Type} `{Num F} (dir : Direction) (c : Command F)
  : bool :=
  match c, dir with
  | CMove (MoveLeft factor _), DLeft => fle (flit 0 0) factor
  | CMove (MoveRight factor _), DRight => fle (flit 0 0) factor
  | CMove _, _ => false
  | _, _ => true
  end.

(** What a run towards [dir] keeps: the microscope is between the centre
    and the limit of that side and does not drift back; [last] is the time
    of the latest move. *)
Definition travel_invariant (dir : Direction) (last : R)
  (s : TravelingMicroscope R) : Prop :=
  max_position s = 30%R
  /\ (0 <= movement_smoothness s <= 1)%R
  /\ (last_update_time s <= last)%R
  /\ match dir with
     | DRight => (0 <= position s <= 30)%R /\ (0 <= velocity s)%R
     | DLeft => (-30 <= position s <= 0)%R /\ (velocity s <= 0)%R
     end.

(** The sum of a list of integers and of a list of reals, and the ring
    numbers of a list of points as integers. *)
Fixpoint Zsum (l : list Z) : Z :=
  match l with
  | [] => 0%Z
  | x :: l' => (x + Zsum l')%Z
  end.

Fixpoint Rsum (l : list R) : R :=
  match l with
  | [] => 0%R
  | x :: l' => (x + Rsum l')%R
  end.

Definition ring_numbers {F : Type} (points : list (nat * F)) : list Z :=
  map (fun xy => Z.of_nat (fst xy)) points.

(** [n * sum(x^2) - sum(x)^2], the denominator of the least-squares
    slope. *)
Definition spread (xs : list Z) : Z :=
  (Z.of_nat (List.length xs) * Zsum (map (fun x => x ^ 2) xs)
   - Zsum xs ^ 2)%Z.

(** The parameters are in the ranges the menus accept and the ring table
    is the one computed from them. *)
Definition valid_parameters (s : NewtonRingsSimulation R) : Prop :=
  (400 <= wavelength s <= 700)%R
  /\ (50 <= radius_of_curvature s / 10000000 <= 200)%R
  /\ refractive_index s = 1%R
  /\ ring_radii s = map (table_entry s) (seq 0 (MAX_RINGS + 1)).

(** What a session keeps: valid parameters, pairwise different ring
    numbers, left measurements left of the centre and right measurements
    not left of it. *)
Definition session_invariant (s : NewtonRingsSimulation R) : Prop :=
  valid_parameters s
  /\ NoDup (dict_keys (left_measurements (session s)))
  /\ (forall (ring : nat) (pos : R),
        In (ring, pos) (left_measurements (session s)) -> (pos < 0)%R)
  /\ (forall (ring : nat) (pos : R),
        In (ring, pos) (right_measurements (session s)) -> (0 <= pos)%R).

Section Edges.
Context {F : Type} `{Num F}.
Local Open Scope num_scope.

(** What four measurements at rest on both edges of the rings 1 and 2 of
    the table [radii] store. *)
Definition edge_measurements (radii : list F) : dict F (Reading F) :=
  fold_left
    (fun m pos =>
       dict_set feq (fround pos 9)
         (make_reading (microscope_at pos) radii (flit 0 0) "12:00:00") m)
    [- nth 1 radii (flit 0 0); nth 1 radii (flit 0 0);
     - nth 2 radii (flit 0 0); nth 2 radii (flit 0 0)]
    [].

(** A reading labelled Ultra-High taken at rest on an edge of ring [ring],
    at [pos]. *)
Definition edge_reading (ring : nat) (pos : F) : Reading F :=
  {| r_position := pos;
     r_closest_ring := Some ring;
     r_second_closest_ring := Some (pred ring);
     r_distance_from_ring := Some (flit 0 0);
     r_reading := pos;
     r_precision := UltraHigh;
     r_velocity := flit 0 0;
     r_noise_estimate := flit 1 (-4);
     r_timestamp := "12:00:00";
     r_alignment_quality := flit 100 0 |}.

(** Stored measurements of both edges of a ring 1 of radius 1 mm and of a
    ring 2 of radius 2 mm, all labelled Ultra-High, and the two rows of
    the table for them. *)
Definition two_rings_measured : dict F (Reading F) :=
  [(- flit 1 0, edge_reading 1 (- flit 1 0));
   (flit 1 0, edge_reading 1 (flit 1 0));
   (- flit 2 0, edge_reading 2 (- flit 2 0));
   (flit 2 0, edge_reading 2 (flit 2 0))].

Definition edge_row (ring : nat) (radius : F) : Row F :=
  {| row_ring := ring; row_left_pos := - radius; row_right_pos := radius;
     row_precision_type := UltraHigh |}.
End Edges.

(** Every move of the command has a factor from 0 to 4/3: the default
    factor 1.0 of [process_microscope_key] and the factors of the arrow
    keys are in this range. *)
Definition key_factor {F : Type} `{Num F} (c : Command F) : bool :=
  match c with
  | CMove (MoveLeft factor _) | CMove (MoveRight factor _) =>
      fle (flit 0 0) factor && fle (fmul factor (flit 3 0)) (flit 4 0)
  | _ => true
  end.

(** How far beyond a limit the velocity left over from earlier moves can
    still carry the microscope: 0.4 s of it with the smoothing of normal
    mode, 0.9 s of it with that of precision mode. *)
Definition carry (s : TravelingMicroscope R) : R :=
  if precision_mode s then (9 / 10)%R else (4 / 10)%R.

(** The greatest speed the keys can ask for: 10 times a step of 2.3 mm
    times a factor of 4/3, a tenth of it in precision mode. *)
Definition top_speed (s : TravelingMicroscope R) : R :=
  if precision_mode s then (92 / 30)%R else (92 / 3)%R.

(** What a run with such factors keeps: the speed is bounded, and the
    position together with what the velocity can still add to it stays
    within 634/15 mm of the centre on either side. *)
Definition overshoot_invariant (last : R) (s : TravelingMicroscope R)
  : Prop :=
  max_position s = 30%R
  /\ movement_smoothness s
     = (if precision_mode s then 9 / 10 else 8 / 10)%R
  /\ (last_update_time s <= last)%R
  /\ (- top_speed s <= velocity s <= top_speed s)%R
  /\ (position s + carry s * Rmax (velocity s) 0 <= 634 / 15)%R
  /\ (- position s + carry s * Rmax (- velocity s) 0 <= 634 / 15)%R.

(** ** display_measurements: the rows of the table *)

(** One printed row: the ring number, the left and the right position
    ([None] is the text ["N/A"]) and, when both are measured, the squared
    diameter. *)
Record TableRow (F : Type) : Type := {
  table_ring : nat;
  table_left : option F;
  table_right : option F;
  table_diameter_squared : option F
}.

Section MeasurementTable.
Context {F : Type} `{Num F}.
Local Open Scope num_scope.

Definition table_row (p : Parent F) (ring : nat) : TableRow F :=
  let left_pos := dict_get Nat.eqb ring (left_measurements p) in
  let right_pos := dict_get Nat.eqb ring (right_measurements p) in
  {| table_ring := ring;
     table_left := left_pos;
     table_right := right_pos;
     table_diameter_squared :=
       match left_pos, right_pos with
       | Some l, Some r =>
           let diameter := fabs (r - l) in Some (diameter * diameter)
       | _, _ => None
       end |}.

(** [sorted(set(list(left.keys()) + list(right.keys())))] *)
Definition measured_rings (p : Parent F) : list nat :=
  sorted_by Nat.ltb
    (nodup Nat.eq_dec
       (dict_keys (left_measurements p) ++ dict_keys (right_measurements p))).

(** The rows [display_measurements()] prints; none when nothing is
    measured. *)
Definition display_measurements (p : Parent F) : list (TableRow F) :=
  if nonempty (left_measurements p) || nonempty (right_measurements p) then
    map (table_row p) (measured_rings p)
  else [].
End MeasurementTable.

(** * Properties *)

Unset Implicit Arguments.
Local Open Scope string_scope.
Local Open Scope list_scope.


(** ** Real arithmetic: comparisons, literals, rounding *)

Lemma Rltb_true (x y : R) : (x < y)%R -> Rltb x y = true.
Proof. intros Hxy; unfold Rltb; destruct (Rlt_dec x y); [reflexivity | contradiction]. Qed.

Lemma Rltb_false (x y : R) : (y <= x)%R -> Rltb x y = false.
Proof. intros Hyx; unfold Rltb; destruct (Rlt_dec x y); [lra | reflexivity]. Qed.

Lemma Rltb_iff (x y : R) : Rltb x y = true <-> (x < y)%R.
Proof.
  unfold Rltb; destruct (Rlt_dec x y); split; intros; try assumption;
    try reflexivity; try discriminate; contradiction.
Qed.

Lemma Rltb_false_iff (x y : R) : Rltb x y = false <-> (y <= x)%R.
Proof.
  unfold Rltb; destruct (Rlt_dec x y); split; intros; try reflexivity;
    try discriminate; lra.
Qed.

Lemma Rleb_true (x y : R) : (x <= y)%R -> Rleb x y = true.
Proof. intros Hxy; unfold Rleb; destruct (Rle_dec x y); [reflexivity | contradiction]. Qed.

Lemma Rleb_false (x y : R) : (y < x)%R -> Rleb x y = false.
Proof. intros Hyx; unfold Rleb; destruct (Rle_dec x y); [lra | reflexivity]. Qed.

Lemma Reqb_true (x y : R) : x = y -> Reqb x y = true.
Proof. intros Hxy; unfold Reqb; destruct (Req_dec_T x y); [reflexivity | contradiction]. Qed.

Lemma Reqb_false (x y : R) : x <> y -> Reqb x y = false.
Proof. intros Hxy; unfold Reqb; destruct (Req_dec_T x y); [contradiction | reflexivity]. Qed.

Lemma Reqb_iff (x y : R) : Reqb x y = true <-> x = y.
Proof.
  unfold Reqb; destruct (Req_dec_T x y); split; intros; try assumption;
    try reflexivity; try discriminate; contradiction.
Qed.

Lemma R_lit_nat (m : nat) : R_lit (Z.of_nat m) 0 = INR m.
Proof.
  unfold R_lit. simpl Z.ltb. cbv iota.
  rewrite Z.pow_0_r, Z.mul_1_r. symmetry. apply INR_IZR_INZ.
Qed.

Lemma R_lit_int (z : Z) : R_lit z 0 = IZR z.
Proof.
  unfold R_lit. simpl Z.ltb. cbv iota. now rewrite Z.pow_0_r, Z.mul_1_r.
Qed.

(** Unfold the operations of [R_Num] and turn every literal into a quotient
    of integer constants, the form [lra] and [field] work with. *)
Ltac closed_Z k :=
  let b := eval vm_compute in (Z.eqb k k) in
  lazymatch b with true => idtac end.

Ltac r_lit_step :=
  match goal with
  | |- context [R_lit ?m ?e] =>
      closed_Z m; closed_Z e;
      let b := eval vm_compute in (e <? 0)%Z in
      match b with
      | true =>
          let k := eval vm_compute in (10 ^ (- e))%Z in
          change (R_lit m e) with (IZR m / IZR k)%R
      | false =>
          let k := eval vm_compute in (m * 10 ^ e)%Z in
          change (R_lit m e) with (IZR k)
      end
  end.

Ltac r_ops :=
  cbn [flit fadd fsub fmul fdiv fneg fabs fsqrt flt fle feq fround R_Num];
  rewrite ?R_lit_nat;
  repeat r_lit_step.

(** Decide the comparisons of the goal by linear arithmetic. *)
Ltac r_cmp_step :=
  match goal with
  | |- context [Rltb ?a ?b] =>
      first [ rewrite (Rltb_true a b) by lra | rewrite (Rltb_false a b) by lra ]
  | |- context [Rleb ?a ?b] =>
      first [ rewrite (Rleb_true a b) by lra | rewrite (Rleb_false a b) by lra ]
  | |- context [Reqb ?a ?b] =>
      first [ rewrite (Reqb_true a b) by lra
            | rewrite (Reqb_false a b) by (let E := fresh in intro E; lra) ]
  end.

Ltac r_cmp := repeat r_cmp_step.

Lemma R_round_half_even_near (y : R) (k : Z) :
  (IZR k - 1 / 2 < y < IZR k + 1 / 2)%R -> R_round_half_even y = k.
Proof.
  intros [Hlo Hhi]. unfold R_round_half_even.
  destruct (Rle_dec (IZR k) y) as [Hle | Hnle].
  - assert (Hf : Zfloor y = k) by (apply Zfloor_eq; lra).
    rewrite Hf. destruct (Rlt_dec (y - IZR k) (1 / 2)); [reflexivity | lra].
  - assert (Hf : Zfloor y = (k - 1)%Z)
      by (apply Zfloor_eq; rewrite minus_IZR; lra).
    rewrite Hf, minus_IZR.
    destruct (Rlt_dec (y - (IZR k - 1)) (1 / 2)); [lra |].
    destruct (Rlt_dec (1 / 2) (y - (IZR k - 1))); [lia | lra].
Qed.

Lemma R_round_near (x : R) (n k : Z) :
  (IZR k - 1 / 2 < x * IZR (10 ^ n) < IZR k + 1 / 2)%R ->
  R_round x n = (IZR k / IZR (10 ^ n))%R.
Proof.
  intros Hk. unfold R_round. now rewrite (R_round_half_even_near _ k Hk).
Qed.

(** A number with at most [n] decimals is its own rounding. *)
Lemma R_round_decimal (k n : Z) :
  (0 <= n)%Z -> R_round (IZR k / IZR (10 ^ n)) n = (IZR k / IZR (10 ^ n))%R.
Proof.
  intros Hn. apply R_round_near.
  assert (Hp : (0 < IZR (10 ^ n))%R) by (apply IZR_lt; lia).
  replace (IZR k / IZR (10 ^ n) * IZR (10 ^ n))%R with (IZR k) by (field; lra).
  lra.
Qed.

Lemma R_round_idempotent (x : R) (n : Z) :
  (0 <= n)%Z -> R_round (R_round x n) n = R_round x n.
Proof. intros Hn. unfold R_round at 2 3. now apply R_round_decimal. Qed.

(** Rounding a quotient of integers is integer rounding. *)
Lemma Zfloor_quot (num den : Z) :
  (0 < den)%Z -> Zfloor (IZR num / IZR den) = (num / den)%Z.
Proof.
  intros Hden.
  assert (Hd : (0 < IZR den)%R) by (now apply IZR_lt).
  pose proof (Z.div_mod num den ltac:(lia)) as Hdm.
  pose proof (Z.mod_pos_bound num den Hden) as [Hr0 Hr1].
  apply IZR_le in Hr0. apply IZR_lt in Hr1.
  assert (Hnum : IZR num = (IZR den * IZR (num / den) + IZR (num mod den))%R)
    by (now rewrite <- mult_IZR, <- plus_IZR, <- Hdm).
  apply Zfloor_eq. rewrite Hnum. split.
  - apply Rmult_le_reg_r with (IZR den); [assumption |].
    field_simplify; lra.
  - apply Rmult_lt_reg_r with (IZR den); [assumption |].
    field_simplify; lra.
Qed.

Lemma R_round_half_even_quot (num den : Z) :
  (0 < den)%Z ->
  R_round_half_even (IZR num / IZR den) = Z_round_half_even num den.
Proof.
  intros Hden.
  assert (Hd : (0 < IZR den)%R) by (now apply IZR_lt).
  pose proof (Z.div_mod num den ltac:(lia)) as Hdm.
  assert (Hnum : IZR num = (IZR den * IZR (num / den) + IZR (num mod den))%R)
    by (now rewrite <- mult_IZR, <- plus_IZR, <- Hdm).
  unfold R_round_half_even, Z_round_half_even.
  rewrite Zfloor_quot by assumption.
  assert (Hfrac : (IZR num / IZR den - IZR (num / den)
                   = IZR (num mod den) / IZR den)%R)
    by (rewrite Hnum; field; lra).
  rewrite Hfrac.
  assert (Hhalf : forall r : Z,
             (IZR r / IZR den < 1 / 2)%R <-> (2 * r < den)%Z).
  { intros r. split; intros Hlt.
    - apply lt_IZR. rewrite mult_IZR.
      apply (Rmult_lt_compat_r (IZR den)) in Hlt; [| assumption].
      unfold Rdiv in Hlt. rewrite Rmult_assoc, Rinv_l in Hlt by lra. lra.
    - apply IZR_lt in Hlt. rewrite mult_IZR in Hlt.
      apply Rmult_lt_reg_r with (IZR den); [assumption |].
      unfold Rdiv. rewrite Rmult_assoc, Rinv_l by lra. lra. }
  assert (Hhalf' : forall r : Z,
             (1 / 2 < IZR r / IZR den)%R <-> (den < 2 * r)%Z).
  { intros r. split; intros Hlt.
    - apply lt_IZR. rewrite mult_IZR.
      apply (Rmult_lt_compat_r (IZR den)) in Hlt; [| assumption].
      unfold Rdiv in Hlt. rewrite (Rmult_assoc (IZR r)), Rinv_l in Hlt by lra.
      lra.
    - apply IZR_lt in Hlt. rewrite mult_IZR in Hlt.
      apply Rmult_lt_reg_r with (IZR den); [assumption |].
      unfold Rdiv. rewrite (Rmult_assoc (IZR r)), Rinv_l by lra. lra. }
  destruct (Rlt_dec (IZR (num mod den) / IZR den) (1 / 2)) as [H1 | H1].
  - apply Hhalf in H1.
    destruct (Z.ltb_spec (2 * (num mod den)) den); [reflexivity | lia].
  - destruct (Z.ltb_spec (2 * (num mod den)) den) as [H2 | H2];
      [apply Hhalf in H2; contradiction |].
    destruct (Rlt_dec (1 / 2) (IZR (num mod den) / IZR den)) as [H3 | H3].
    + apply Hhalf' in H3.
      destruct (Z.ltb_spec den (2 * (num mod den))); [reflexivity | lia].
    + destruct (Z.ltb_spec den (2 * (num mod den))) as [H4 | H4];
        [apply Hhalf' in H4; contradiction | reflexivity].
Qed.

(** Rounding a product of a number of thousandths and a ratio [c / d] to
    three decimals is integer rounding of thousandths. *)
Lemma R_round_scaled (a c d : Z) :
  (0 < d)%Z ->
  R_round (IZR a / 1000 * (IZR c / IZR d)) 3
  = (IZR (Z_round_half_even (a * c) d) / 1000)%R.
Proof.
  intros Hd. assert (Hd' : (0 < IZR d)%R) by (now apply IZR_lt).
  unfold R_round. change (10 ^ 3)%Z with 1000%Z.
  replace (IZR a / 1000 * (IZR c / IZR d) * 1000)%R
    with (IZR (a * c) / IZR d)%R by (rewrite mult_IZR; field; lra).
  now rewrite R_round_half_even_quot.
Qed.

Lemma R_round_thousandths (a : Z) :
  R_round (IZR a / 1000) 3 = (IZR a / 1000)%R.
Proof. exact (R_round_decimal a 3 ltac:(lia)). Qed.

(** Evaluate a run of the microscope over the reals: reduce the record
    projections, unfold the operations and decide each comparison. *)
Ltac r_fields :=
  cbn [init fst snd position max_position step_size current_reading
       is_measuring measurements movement_history precision_mode
       sub_pixel_positions last_update_time velocity acceleration
       movement_smoothness normal_step_size set_step_size store_reading
       negb].

Ltac r_eval :=
  repeat (progress (r_fields; r_ops; r_cmp; cbv beta iota)).

(** ** Sorting *)

Section SortingFacts.
Context {A : Type} (lt : A -> A -> bool).

Lemma insert_sorted_perm (x : A) (l : list A) :
Permutation (insert_sorted lt x l) (x :: l).
Proof.
induction l as [| y l IH]; simpl.
- apply Permutation_refl.
- destruct (lt x y).
  + apply Permutation_refl.
  + apply Permutation_trans with (y :: x :: l).
    * now apply perm_skip.
    * apply perm_swap.
Qed.

Lemma sorted_by_perm (l : list A) : Permutation (sorted_by lt l) l.
Proof.
unfold sorted_by.
assert (Hgen : forall acc,
           Permutation (fold_left (fun acc x => insert_sorted lt x acc) l acc)
             (rev l ++ acc)).
{ induction l as [| x l IH]; intros acc; simpl.
  - apply Permutation_refl.
  - eapply Permutation_trans; [apply IH |].
    rewrite <- app_assoc. simpl.
    apply Permutation_app_head.
    apply insert_sorted_perm. }
eapply Permutation_trans; [apply Hgen |].
rewrite app_nil_r. apply Permutation_sym, Permutation_rev.
Qed.
End SortingFacts.

Lemma NoDup_all_equal_length {A : Type} (l : list A) :
  NoDup l -> (forall x y, In x l -> In y l -> x = y) ->
  (List.length l < 2)%nat.
Proof.
  intros Hnd Heq. destruct l as [| x [| y l]]; simpl; try lia.
  exfalso. inversion Hnd as [| ? ? Hnotin _]; subst.
  apply Hnotin. rewrite (Heq x y); simpl; auto.
Qed.

(** ** Dictionaries whose key equality decides equality *)

Section DictFacts.
Context {K V : Type} (keq : K -> K -> bool).
Hypothesis keq_eq : forall a b : K, keq a b = true <-> a = b.

Lemma keq_refl (k : K) : keq k k = true.
Proof. now apply keq_eq. Qed.

Lemma dict_get_set_same (k : K) (v : V) (d : dict K V) :
dict_get keq k (dict_set keq k v d) = Some v.
Proof.
induction d as [| [k' v'] d IH]; cbn [dict_set dict_get].
- now rewrite keq_refl.
- destruct (keq k' k) eqn:E; cbn [dict_get]; rewrite E; auto.
Qed.

Lemma dict_keys_set_present (k : K) (v : V) (d : dict K V) :
dict_mem keq k d = true -> dict_keys (dict_set keq k v d) = dict_keys d.
Proof.
unfold dict_mem. induction d as [| [k' v'] d IH]; cbn [dict_set dict_get].
- discriminate.
- destruct (keq k' k) eqn:E; intros Hmem; cbn [dict_keys map fst].
  + reflexivity.
  + f_equal. now apply IH.
Qed.

Lemma dict_keys_set_absent (k : K) (v : V) (d : dict K V) :
dict_mem keq k d = false ->
dict_keys (dict_set keq k v d) = dict_keys d ++ [k].
Proof.
unfold dict_mem. induction d as [| [k' v'] d IH]; cbn [dict_set dict_get].
- reflexivity.
- destruct (keq k' k) eqn:E; intros Hmem; cbn [dict_keys map fst app].
  + discriminate.
  + f_equal. now apply IH.
Qed.

Lemma dict_mem_set_same (k : K) (v : V) (d : dict K V) :
dict_mem keq k (dict_set keq k v d) = true.
Proof. unfold dict_mem. now rewrite dict_get_set_same. Qed.

(** Writing twice under one key leaves one entry, the second value. *)
Lemma dict_set_twice (k : K) (v1 v2 : V) (d : dict K V) :
dict_keys (dict_set keq k v2 (dict_set keq k v1 d))
= dict_keys (dict_set keq k v1 d)
/\ dict_get keq k (dict_set keq k v2 (dict_set keq k v1 d)) = Some v2.
Proof.
split.
- apply dict_keys_set_present, dict_mem_set_same.
- apply dict_get_set_same.
Qed.

Lemma dict_get_set_other (k k' : K) (v : V) (d : dict K V) :
k <> k' -> dict_get keq k' (dict_set keq k v d) = dict_get keq k' d.
Proof.
intros Hne. induction d as [| [k0 v0] d IH]; cbn [dict_set dict_get].
- destruct (keq k k') eqn:E; [apply keq_eq in E; contradiction | reflexivity].
- destruct (keq k0 k) eqn:E; cbn [dict_get].
  + apply keq_eq in E. subst k0.
    destruct (keq k k') eqn:E'; [apply keq_eq in E'; contradiction |].
    reflexivity.
  + destruct (keq k0 k'); [reflexivity | exact IH].
Qed.
End DictFacts.

Lemma Quality_eqb_eq (a b : Quality) : Quality_eqb a b = true <-> a = b.
Proof. destruct a, b; cbn; split; intros; try reflexivity; discriminate. Qed.

(** ** Ring geometry *)

Section RingTable.
Variable s : NewtonRingsSimulation R.
Hypothesis wavelength_pos : (0 < wavelength s)%R.
Hypothesis radius_pos : (0 < radius_of_curvature s)%R.
Hypothesis index_pos : (0 < refractive_index s)%R.

Lemma radicand_nonneg (m : nat) :
  (0 <= INR m * wavelength s * radius_of_curvature s / refractive_index s)%R.
Proof.
  apply Rmult_le_pos; [| left; now apply Rinv_0_lt_compat].
  apply Rmult_le_pos; [| lra].
  apply Rmult_le_pos; [apply pos_INR | lra].
Qed.

Lemma radicand_lt (m m' : nat) :
  (m < m')%nat ->
  (INR m * wavelength s * radius_of_curvature s / refractive_index s
   < INR m' * wavelength s * radius_of_curvature s / refractive_index s)%R.
Proof.
  intros Hlt. apply lt_INR in Hlt.
  apply Rmult_lt_compat_r; [now apply Rinv_0_lt_compat |].
  apply Rmult_lt_compat_r; [assumption |].
  apply Rmult_lt_compat_r; assumption.
Qed.

Lemma ring_radius_entry (m : nat) : ring_radius s m = inl (table_entry s m).
Proof.
  destruct m as [| k]; [reflexivity |].
  unfold ring_radius, py_div, py_sqrt, table_entry, formula_radius. r_ops.
  r_cmp.
  pose proof (radicand_nonneg (S k)) as Hnn.
  rewrite Rltb_false by lra.
  reflexivity.
Qed.

Lemma ring_radii_loop_entries (ms : list nat) (radii : list R) :
  ring_radii_loop s ms radii = (radii ++ map (table_entry s) ms, None).
Proof.
  revert radii. induction ms as [| m ms IH]; intros radii; simpl.
  - now rewrite app_nil_r.
  - rewrite ring_radius_entry, IH, <- app_assoc. reflexivity.
Qed.

Lemma calculate_ring_radii_table :
  calculate_ring_radii s
  = (set_ring_radii s (map (table_entry s) (seq 0 (MAX_RINGS + 1))), None).
Proof.
  unfold calculate_ring_radii. now rewrite ring_radii_loop_entries.
Qed.

Lemma table_nth (m : nat) :
  (m <= MAX_RINGS)%nat ->
  nth m (map (table_entry s) (seq 0 (MAX_RINGS + 1))) 0%R = table_entry s m.
Proof.
  intros Hm.
  rewrite (nth_indep _ 0%R (table_entry s 0))
    by (rewrite length_map, length_seq; unfold MAX_RINGS in *; lia).
  rewrite (map_nth (table_entry s)), seq_nth by (unfold MAX_RINGS in *; lia).
  reflexivity.
Qed.

Lemma formula_radius_pos (m : nat) : (0 < m)%nat -> (0 < formula_radius s m)%R.
Proof.
  intros Hm. unfold formula_radius.
  apply Rdiv_lt_0_compat; [| lra].
  apply sqrt_lt_R0.
  pose proof (@radicand_lt 0 m Hm) as Hlt. simpl INR in Hlt.
  replace (0 * wavelength s * radius_of_curvature s / refractive_index s)%R
    with 0%R in Hlt by (field; lra).
  exact Hlt.
Qed.

Lemma table_entry_lt (m m' : nat) :
  (m < m')%nat -> (table_entry s m < table_entry s m')%R.
Proof.
  intros Hlt. destruct m' as [| k']; [lia |].
  destruct m as [| k]; simpl.
  - apply formula_radius_pos; lia.
  - unfold formula_radius.
    apply Rmult_lt_compat_r; [lra |].
    apply sqrt_lt_1_alt. split; [apply radicand_nonneg | now apply radicand_lt].
Qed.
End RingTable.

(** C4: for a positive wavelength, a positive radius of curvature and a
    positive refractive index (the program only ever uses 1.0),
    [calculate_ring_radii] raises nothing, and the table [ring_radii] of
    the state it leaves has [MAX_RINGS + 1] entries; entry 0 is exactly 0,
    entry [m >= 1] is
    [sqrt(m * wavelength * radius_of_curvature / refractive_index) / 1e6],
    every entry is non-negative and the table is strictly increasing in
    [m].  Stated over the reals. *)
Theorem C4_ring_table (s : NewtonRingsSimulation R) :
  (0 < wavelength s)%R ->
  (0 < radius_of_curvature s)%R ->
  (0 < refractive_index s)%R ->
  let radii := ring_radii (fst (calculate_ring_radii s)) in
  snd (calculate_ring_radii s) = None
  /\ List.length radii = (MAX_RINGS + 1)%nat
  /\ nth 0 radii 0%R = 0%R
  /\ (forall m : nat, (1 <= m <= MAX_RINGS)%nat ->
        nth m radii 0%R
        = (sqrt (INR m * wavelength s * radius_of_curvature s
                 / refractive_index s) / 1000000)%R)
  /\ (forall m : nat, (m <= MAX_RINGS)%nat -> (0 <= nth m radii 0)%R)
  /\ (forall m m' : nat, (m < m')%nat -> (m' <= MAX_RINGS)%nat ->
        (nth m radii 0 < nth m' radii 0)%R).
Proof.
  intros Hw Hr Hi radii. subst radii.
  rewrite calculate_ring_radii_table by assumption.
  cbn [fst snd set_ring_radii ring_radii].
  split; [reflexivity |].
  split; [now rewrite length_map, length_seq |].
  split; [reflexivity |].
  split; [| split].
  - intros m [H1 Hm]. rewrite table_nth by assumption.
    destruct m; [lia | reflexivity].
  - intros m Hm. rewrite table_nth by assumption.
    destruct m as [| k]; [simpl; lra |].
    left. apply formula_radius_pos; try assumption; lia.
  - intros m m' Hlt Hm'. rewrite !table_nth by lia.
    now apply table_entry_lt.
Qed.

Lemma table_nth_error (s : NewtonRingsSimulation R) (m : nat) :
  (m <= MAX_RINGS)%nat ->
  nth_error (map (table_entry s) (seq 0 (MAX_RINGS + 1))) m
  = Some (table_entry s m).
Proof.
  intros Hm. rewrite nth_error_map, nth_error_seq.
  destruct (Nat.ltb_spec m (MAX_RINGS + 1)) as [_ | Hge]; [reflexivity | lia].
Qed.

Lemma formula_radius_sqr (s : NewtonRingsSimulation R) (m : nat) :
  (0 < wavelength s)%R -> (0 < radius_of_curvature s)%R ->
  (0 < refractive_index s)%R ->
  (formula_radius s m * formula_radius s m
   = INR m * wavelength s * radius_of_curvature s / refractive_index s
     / 1000000000000)%R.
Proof.
  intros Hw Hr Hi. unfold formula_radius.
  pose proof (radicand_nonneg s Hw Hr Hi m) as Hq.
  set (q := (INR m * wavelength s * radius_of_curvature s
             / refractive_index s)%R) in *.
  rewrite <- (sqrt_sqrt q Hq) at 3. field.
Qed.

(** C3: the wavelength that [display_microscope_view] computes back from
    the table radius of ring [m >= 1] is ten times the wavelength the table
    was computed from, for every positive wavelength, radius of curvature
    and refractive index: the round trip does not return the wavelength.
    Stated over the reals. *)
Theorem C3_read_back_is_ten_wavelengths (s : NewtonRingsSimulation R)
  (m : nat) :
  (0 < wavelength s)%R ->
  (0 < radius_of_curvature s)%R ->
  (0 < refractive_index s)%R ->
  (1 <= m <= MAX_RINGS)%nat ->
  calculated_wavelength (fst (calculate_ring_radii s)) m
  = inl (10 * wavelength s)%R.
Proof.
  intros Hw Hr Hi [H1 Hm].
  rewrite calculate_ring_radii_table by assumption.
  unfold calculated_wavelength. cbn [fst set_ring_radii ring_radii
    refractive_index radius_of_curvature].
  rewrite table_nth_error by assumption.
  destruct m as [| k]; [lia |]. cbn [table_entry].
  unfold py_div. r_ops.
  assert (Hk : (0 < INR (S k))%R) by (apply lt_0_INR; lia).
  assert (Hden : (0 < INR (S k) * radius_of_curvature s / 10000000)%R).
  { apply Rdiv_lt_0_compat; [| lra]. now apply Rmult_lt_0_compat. }
  r_cmp. f_equal.
  rewrite formula_radius_sqr by assumption.
  field. repeat split; lra.
Qed.

Lemma sorted_two (m1 m2 : nat) :
  (m1 < m2)%nat -> sorted_by Nat.ltb [m1; m2] = [m1; m2].
Proof.
  intros Hlt. unfold sorted_by. simpl.
  destruct (Nat.ltb_spec m2 m1); [lia | reflexivity].
Qed.

Lemma synthetic_points (s : NewtonRingsSimulation R) (m1 m2 : nat) :
  (0 < wavelength s)%R -> (0 < radius_of_curvature s)%R ->
  (0 < refractive_index s)%R ->
  (1 <= m1)%nat -> (m1 < m2)%nat -> (m2 <= MAX_RINGS)%nat ->
  let s1 := fst (calculate_ring_radii s) in
  valid_rings_and_squares
    (set_session s1 (synthetic_session (ring_radii s1) m1 m2))
  = [(m1, (4 * (formula_radius s m1 * formula_radius s m1))%R);
     (m2, (4 * (formula_radius s m2 * formula_radius s m2))%R)].
Proof.
  intros Hw Hr Hi H1 Hlt Hm s1. subst s1.
  rewrite calculate_ring_radii_table by assumption.
  unfold valid_rings_and_squares.
  cbn [fst set_session session set_ring_radii ring_radii synthetic_session
       left_measurements right_measurements dict_keys map].
  rewrite sorted_two by assumption.
  unfold synthetic_session.
  change (@flit R R_Num 0 0) with 0%R.
  rewrite !table_nth by lia.
  cbn [complete_rings dict_get left_measurements right_measurements].
  rewrite !Nat.eqb_refl.
  replace (Nat.eqb m1 m2) with false by (symmetry; apply Nat.eqb_neq; lia).
  assert (Hp1 : (0 < formula_radius s m1)%R)
    by (apply formula_radius_pos; try assumption; lia).
  assert (Hp2 : (0 < formula_radius s m2)%R)
    by (apply formula_radius_pos; try assumption; lia).
  destruct m1 as [| k1]; [lia |]. destruct m2 as [| k2]; [lia |].
  cbn [table_entry]. r_ops.
  rewrite !Rabs_pos_eq by lra.
  f_equal; [f_equal; ring | f_equal; f_equal; ring].
Qed.

(** C2: on the noise-free synthetic measurements of any two rings
    [m1 < m2] of the ring table, [calculate_radius_from_measurements]
    reports 400 times the radius of curvature in cm divided by the
    refractive index, not the radius of curvature itself.  Stated over the
    reals. *)
Theorem C2_regression_returns_400_R (s : NewtonRingsSimulation R)
  (m1 m2 : nat) :
  (0 < wavelength s)%R ->
  (0 < radius_of_curvature s)%R ->
  (0 < refractive_index s)%R ->
  (1 <= m1)%nat -> (m1 < m2)%nat -> (m2 <= MAX_RINGS)%nat ->
  let s1 := fst (calculate_ring_radii s) in
  let s2 := set_session s1 (synthetic_session (ring_radii s1) m1 m2) in
  let actual := (radius_of_curvature s / 10000000)%R in
  let calculated := (400 * actual / refractive_index s)%R in
  calculate_radius_from_measurements s2
  = (s2, inl (RadiusResults calculated actual
                (Rabs (calculated - actual) / actual * 100)%R)).
Proof.
  intros Hw Hr Hi H1 Hlt Hm s1 s2 actual calculated.
  unfold calculate_radius_from_measurements.
  subst s2 s1. rewrite synthetic_points by assumption.
  rewrite !formula_radius_sqr by assumption.
  cbn [List.length Nat.ltb Nat.leb].
  unfold regression_slope, py_sum.
  cbn [map fst snd fold_left List.length].
  assert (Hden : ((Z.of_nat 2 * (0 + Z.of_nat m1 ^ 2 + Z.of_nat m2 ^ 2)
                   - (0 + Z.of_nat m1 + Z.of_nat m2) ^ 2) =? 0)%Z = false).
  { apply Z.eqb_neq. nia. }
  rewrite Hden. clear Hden.
  rewrite calculate_ring_radii_table by assumption.
  cbn [fst set_session set_ring_radii wavelength radius_of_curvature].
  unfold py_div. r_ops.
  rewrite !R_lit_int.
  rewrite !Z.pow_2_r, ?minus_IZR, ?mult_IZR, ?plus_IZR, ?mult_IZR,
    <- !INR_IZR_INZ.
  change (INR 2) with 2%R.
  assert (Hm1 : (1 <= INR m1)%R) by (apply (le_INR 1); lia).
  assert (Hm12 : (INR m1 < INR m2)%R) by (now apply lt_INR).
  assert (Hw7 : (0 < wavelength s * (1 / 10000000))%R) by nra.
  assert (Hact : (0 < radius_of_curvature s / 10000000)%R) by lra.
  r_cmp. cbv beta iota.
  match goal with
  | |- (_, inl (RadiusResults ?x _ _)) = _ =>
      replace x with calculated
        by (subst calculated actual; field; repeat split; try lra; nra)
  end.
  reflexivity.
Qed.

(** *** The default simulation: sodium light, a lens of 100 cm *)

Lemma default_parameters_positive (now : R) :
  (0 < wavelength (default_parameters now))%R
  /\ (0 < radius_of_curvature (default_parameters now))%R
  /\ (0 < refractive_index (default_parameters now))%R.
Proof.
  cbn [default_parameters wavelength radius_of_curvature refractive_index].
  r_ops. lra.
Qed.

Lemma C4_ring_table_witness :
  let radii :=
    ring_radii (fst (calculate_ring_radii (default_parameters 0%R))) in
  snd (calculate_ring_radii (default_parameters 0%R)) = None
  /\ List.length radii = (MAX_RINGS + 1)%nat
  /\ nth 0 radii 0%R = 0%R
  /\ (forall m : nat, (1 <= m <= MAX_RINGS)%nat ->
        nth m radii 0%R
        = (sqrt (INR m * wavelength (default_parameters 0%R)
                 * radius_of_curvature (default_parameters 0%R)
                 / refractive_index (default_parameters 0%R))
           / 1000000)%R)
  /\ (forall m : nat, (m <= MAX_RINGS)%nat -> (0 <= nth m radii 0)%R)
  /\ (forall m m' : nat, (m < m')%nat -> (m' <= MAX_RINGS)%nat ->
        (nth m radii 0 < nth m' radii 0)%R).
Proof.
  apply (C4_ring_table (default_parameters 0%R));
    cbn [default_parameters wavelength radius_of_curvature refractive_index];
    r_ops; lra.
Defined.

Lemma C3_read_back_is_ten_wavelengths_witness :
  calculated_wavelength (new_simulation 0%R) 1
  = inl (10 * wavelength (default_parameters 0%R))%R.
Proof.
  apply (C3_read_back_is_ten_wavelengths (default_parameters 0%R) 1);
    [ cbn [default_parameters wavelength]; r_ops; lra
    | cbn [default_parameters radius_of_curvature]; r_ops; lra
    | cbn [default_parameters refractive_index]; r_ops; lra
    | unfold MAX_RINGS; lia ].
Defined.

Lemma C2_regression_returns_400_R_witness :
  let s1 := fst (calculate_ring_radii (default_parameters 0%R)) in
  let s2 := set_session s1 (synthetic_session (ring_radii s1) 5 10) in
  let actual :=
    (radius_of_curvature (default_parameters 0%R) / 10000000)%R in
  let calculated :=
    (400 * actual / refractive_index (default_parameters 0%R))%R in
  calculate_radius_from_measurements s2
  = (s2, inl (RadiusResults calculated actual
                (Rabs (calculated - actual) / actual * 100)%R)).
Proof.
  apply (C2_regression_returns_400_R (default_parameters 0%R) 5 10);
    [ cbn [default_parameters wavelength]; r_ops; lra
    | cbn [default_parameters radius_of_curvature]; r_ops; lra
    | cbn [default_parameters refractive_index]; r_ops; lra
    | lia | lia | unfold MAX_RINGS; lia ].
Defined.

(** The default radius of curvature is 100 cm, so the report of the
    regression on rings 5 and 10 is 40000 cm. *)
Lemma default_radius_cm (now : R) :
  (radius_of_curvature (default_parameters now) / 10000000 = 100)%R
  /\ (400 * (radius_of_curvature (default_parameters now) / 10000000)
      / refractive_index (default_parameters now) = 40000)%R.
Proof.
  cbn [default_parameters radius_of_curvature refractive_index]. r_ops. lra.
Qed.

(** The noise-free measurements are what [measure_left_side] and
    [measure_right_side] store when [random.random()] returns 0.5. *)
Lemma measure_sides_noise_free (s : NewtonRingsSimulation R) (m : nat)
  (radius : R) :
  (1 <= m <= MAX_RINGS)%nat ->
  nth_error (ring_radii s) m = Some radius ->
  dict_get Nat.eqb m
    (left_measurements (session (fst (measure_left_side s m (5 / 10)%R))))
  = Some (- radius)%R
  /\ dict_get Nat.eqb m
       (right_measurements (session (fst (measure_right_side s m (5 / 10)%R))))
     = Some radius.
Proof.
  intros [H1 Hm] Hnth. unfold measure_left_side, measure_right_side.
  destruct (Nat.leb_spec 1 m); [| lia].
  destruct (Nat.leb_spec m MAX_RINGS); [| lia].
  cbn [andb]. rewrite Hnth.
  cbn [fst set_session session left_measurements right_measurements].
  rewrite !(dict_get_set_same Nat.eqb Nat.eqb_eq). r_ops.
  split; f_equal; lra.
Qed.

(** The menus keep the three parameters positive, so the table of every
    simulation is the one described above. *)
Lemma change_wavelength_positive (s : NewtonRingsSimulation R)
  (choice : WavelengthChoice R) :
  (0 < wavelength s)%R -> (0 < radius_of_curvature s)%R ->
  (0 < refractive_index s)%R ->
  let s' := fst (change_wavelength s choice) in
  (0 < wavelength s')%R /\ (0 < radius_of_curvature s')%R
  /\ (0 < refractive_index s')%R /\ snd (change_wavelength s choice) = None.
Proof.
  intros Hw Hr Hi. cbv zeta. unfold change_wavelength.
  set (s0 := match choice with SodiumD => _ | _ => _ end).
  assert (H0 : (0 < wavelength s0)%R /\ (0 < radius_of_curvature s0)%R
               /\ (0 < refractive_index s0)%R).
  { unfold s0. destruct choice;
      cbn [set_wavelength wavelength radius_of_curvature refractive_index];
      r_ops; try (repeat split; lra).
    destruct (Rleb 400 custom) eqn:E1; cbn [andb];
      [| repeat split; assumption].
    destruct (Rleb custom 700); [| repeat split; assumption].
    cbn [set_wavelength wavelength radius_of_curvature refractive_index].
    unfold Rleb in E1. destruct (Rle_dec 400 custom); [| discriminate].
    repeat split; lra. }
  destruct H0 as [Hw0 [Hr0 Hi0]].
  rewrite calculate_ring_radii_table by assumption.
  cbn [fst snd set_ring_radii wavelength radius_of_curvature refractive_index].
  repeat split; assumption.
Qed.

Lemma change_radius_positive (s : NewtonRingsSimulation R) (new_radius : R) :
  (0 < wavelength s)%R -> (0 < radius_of_curvature s)%R ->
  (0 < refractive_index s)%R ->
  let s' := fst (change_radius s new_radius) in
  (0 < wavelength s')%R /\ (0 < radius_of_curvature s')%R
  /\ (0 < refractive_index s')%R /\ snd (change_radius s new_radius) = None.
Proof.
  intros Hw Hr Hi. cbv zeta. unfold change_radius. r_ops.
  destruct (Rleb 50 new_radius) eqn:E1; cbn [andb];
    [| repeat split; assumption].
  destruct (Rleb new_radius 200); [| repeat split; assumption].
  unfold Rleb in E1. destruct (Rle_dec 50 new_radius); [| discriminate].
  assert (Hr' : (0 < new_radius * 10000000)%R) by lra.
  rewrite calculate_ring_radii_table by assumption.
  cbn [fst snd set_ring_radii set_radius_of_curvature wavelength
       radius_of_curvature refractive_index].
  repeat split; assumption.
Qed.

(** *** The same runs in binary64 arithmetic *)

Example ring_table_binary64 :
  let radii := ring_radii (new_simulation (@flit float _ 0 0)) in
  List.length radii = 16%nat
  /\ nth 0 radii (flit 1 0) = flit 0 0
  /\ increasing radii = true
  /\ within (flit 76765 (-5)) (nth 1 radii (flit 0 0)) (flit 76767 (-5))
     = true.
Proof. vm_compute. repeat split; reflexivity. Qed.

(** The table at the ends of the ranges the menus accept (400 and 700 nm,
    50 and 200 cm), in binary64 arithmetic: 16 entries, the first 0,
    strictly increasing. *)
Example ring_table_menu_range_binary64 :
  forallb
    (fun wr : Z * Z =>
       let s :=
         set_radius_of_curvature
           (set_wavelength (default_parameters (@flit float _ 0 0))
              (flit (fst wr) 0))
           (flit (snd wr * 10 ^ 7) 0) in
       let radii := ring_radii (fst (calculate_ring_radii s)) in
       (List.length radii =? 16)%nat
       && feq (nth 0 radii (flit 1 0)) (flit 0 0)
       && increasing radii)
    [(400, 50); (400, 200); (700, 50); (700, 200)]%Z
  = true.
Proof. vm_compute. reflexivity. Qed.

Example read_back_binary64 :
  match calculated_wavelength (new_simulation (@flit float _ 0 0)) 1 with
  | inl w => within (flit 5892 0) w (flit 5894 0)
  | inr _ => false
  end = true.
Proof. vm_compute. reflexivity. Qed.

Example regression_binary64 :
  let s1 := new_simulation (@flit float _ 0 0) in
  let s2 := set_session s1 (synthetic_session (ring_radii s1) 5 10) in
  match snd (calculate_radius_from_measurements s2) with
  | inl (RadiusResults calculated actual error_pct) =>
      within (flit 39999 0) calculated (flit 40001 0)
      && feq actual (flit 100 0)
      && within (flit 39899 0) error_pct (flit 39901 0)
  | _ => false
  end = true.
Proof. vm_compute. reflexivity. Qed.

(** The tables at the ends of the accepted ranges, 400 nm with 50 cm and
    700 nm with 200 cm, in binary64 arithmetic. *)
Example ring_table_range_binary64 :
  let s0 := new_simulation (@flit float _ 0 0) in
  let low :=
    fst (change_radius (fst (change_wavelength s0 (Custom (flit 400 0))))
           (flit 50 0)) in
  let high :=
    fst (change_radius (fst (change_wavelength s0 (Custom (flit 700 0))))
           (flit 200 0)) in
  wavelength low = flit 400 0
  /\ radius_of_curvature high = flit (200 * 10 ^ 7) 0
  /\ List.length (ring_radii low) = 16%nat
  /\ increasing (ring_radii low) = true
  /\ List.length (ring_radii high) = 16%nat
  /\ increasing (ring_radii high) = true.
Proof. vm_compute. repeat split; reflexivity. Qed.

(** ** Motion model *)

Lemma py_min_Rmin (a b : R) : py_min a b = Rmin a b.
Proof.
  unfold py_min, Rmin. cbn [flt R_Num].
  destruct (Rltb b a) eqn:E.
  - apply Rltb_iff in E. destruct (Rle_dec a b); [lra | reflexivity].
  - apply Rltb_false_iff in E. destruct (Rle_dec a b); [reflexivity | lra].
Qed.

(** A move left away from the lower limit lands on the integrated position,
    clamped at the lower limit only. *)
Lemma move_left_position (s : TravelingMicroscope R) (factor now : R) :
  (- max_position s < position s)%R ->
  position (snd (move_left s factor now))
  = Rmax (- max_position s)
      (position s + filtered_velocity s (-1) factor * elapsed s now).
Proof.
  intros Hpos. unfold move_left, filtered_velocity, elapsed.
  rewrite py_min_Rmin. cbn [flt fneg fadd fsub fmul fdiv R_Num].
  rewrite (Rltb_true _ _ Hpos). r_ops. cbn [snd position].
  set (v1 := (velocity s * movement_smoothness s + _)%R).
  set (v1' := (velocity s * movement_smoothness s + _)%R).
  assert (Hv : v1 = v1').
  { unfold v1, v1'. destruct (precision_mode s); lra. }
  rewrite Hv. clear Hv v1.
  set (p := (position s + v1' * _)%R).
  unfold Rmax. destruct (Rltb p (- max_position s)) eqn:E.
  - apply Rltb_iff in E. destruct (Rle_dec (- max_position s) p); [lra |].
    reflexivity.
  - apply Rltb_false_iff in E.
    destruct (Rle_dec (- max_position s) p); [reflexivity | lra].
Qed.

(** A move right away from the upper limit lands on the integrated
    position, clamped at the upper limit only. *)
Lemma move_right_position (s : TravelingMicroscope R) (factor now : R) :
  (position s < max_position s)%R ->
  position (snd (move_right s factor now))
  = Rmin (max_position s)
      (position s + filtered_velocity s 1 factor * elapsed s now).
Proof.
  intros Hpos. unfold move_right, filtered_velocity, elapsed.
  rewrite py_min_Rmin. cbn [flt fneg fadd fsub fmul fdiv R_Num].
  rewrite (Rltb_true _ _ Hpos). r_ops. cbn [snd position].
  set (v1 := (velocity s * movement_smoothness s + _)%R).
  set (v1' := (velocity s * movement_smoothness s + _)%R).
  assert (Hv : v1 = v1').
  { unfold v1, v1'. destruct (precision_mode s); lra. }
  rewrite Hv. clear Hv v1.
  set (p := (position s + v1' * _)%R).
  unfold Rmin. destruct (Rltb (max_position s) p) eqn:E.
  - apply Rltb_iff in E. destruct (Rle_dec (max_position s) p); [| lra].
    destruct (Rle_dec p (max_position s)); [lra | reflexivity].
  - apply Rltb_false_iff in E.
    destruct (Rle_dec (max_position s) p) as [Hle | Hnle].
    + assert (p = max_position s) by lra. now subst.
    + reflexivity.
Qed.

(** So each move keeps the limit of its own direction. *)
Lemma move_left_keeps_lower_limit (s : TravelingMicroscope R)
  (factor now : R) :
  (- max_position s <= position s)%R ->
  (- max_position s <= position (snd (move_left s factor now)))%R.
Proof.
  intros Hpos. destruct (Rlt_dec (- max_position s) (position s)) as [H | H].
  - rewrite move_left_position by assumption. apply Rmax_l.
  - unfold move_left. cbn [flt fneg R_Num]. rewrite Rltb_false by lra.
    exact Hpos.
Qed.

Lemma move_right_keeps_upper_limit (s : TravelingMicroscope R)
  (factor now : R) :
  (position s <= max_position s)%R ->
  (position (snd (move_right s factor now)) <= max_position s)%R.
Proof.
  intros Hpos. destruct (Rlt_dec (position s) (max_position s)) as [H | H].
  - rewrite move_right_position by assumption. apply Rmin_l.
  - unfold move_right. cbn [flt R_Num]. rewrite Rltb_false by lra.
    exact Hpos.
Qed.

(** C1: the position does not stay within the travel limits.  From the
    constructed microscope, a move right with factor 1000 followed 0.1 s
    later by a move left with factor 0 ends at 36 mm with velocity 160,
    beyond the upper limit of 30 mm: [move_left] integrates the velocity
    left over from the move right and clamps at the lower limit only.
    Stated over the reals. *)
Theorem C1_move_left_passes_upper_limit :
  let s1 := run_moves (init (flit 0 0)) (firstn 1 overshoot_calls) in
  let s2 := run_moves (init (flit 0 0)) overshoot_calls in
  clock_monotone (flit 0 0) overshoot_calls = true
  /\ position s1 = 20%R /\ velocity s1 = 200%R
  /\ position s2 = 36%R /\ velocity s2 = 160%R
  /\ max_position s2 = 30%R.
Proof.
  cbv zeta. unfold overshoot_calls, run_moves.
  cbn [firstn fold_left do_move clock_monotone].
  unfold move_left, move_right, py_min.
  repeat split; r_eval; try reflexivity; lra.
Qed.

(** The same run, and a run of key presses with the default factor 1.0, in
    binary64 arithmetic: both end beyond the upper limit. *)
Example overshoot_binary64 :
  let s := run_moves (init (@flit float _ 0 0)) overshoot_calls in
  clock_monotone (flit 0 0) (@overshoot_calls float _) = true
  /\ within (flit 3599 (-2)) (position s) (flit 3601 (-2)) = true
  /\ flt (max_position s) (position s) = true.
Proof. vm_compute. repeat split; reflexivity. Qed.

Example keypress_overshoot_binary64 :
  let s := run_moves (init (@flit float _ 0 0)) keypress_calls in
  clock_monotone (flit 0 0) (@keypress_calls float _) = true
  /\ within (flit 3005 (-2)) (position s) (flit 3006 (-2)) = true
  /\ flt (max_position s) (position s) = true.
Proof. vm_compute. repeat split; reflexivity. Qed.

(** ** Step size control *)

(** On a step size of a whole number of thousandths, the two operations
    compute in integer arithmetic. *)
Lemma increase_step_size_thousandths (s : TravelingMicroscope R) (a : Z) :
  step_size s = (IZR a / 1000)%R ->
  step_size (snd (increase_step_size s))
  = (IZR (increase_thousandths a) / 1000)%R.
Proof.
  intros Hs. unfold increase_step_size, increase_thousandths. r_ops.
  rewrite Hs.
  destruct (Z.ltb_spec a 2000) as [H2 | H2].
  - apply IZR_lt in H2. rewrite Rltb_true by lra.
    cbn [snd set_step_size step_size].
    destruct (Z.ltb_spec a 100) as [H3 | H3].
    + apply IZR_lt in H3. rewrite Rltb_true by lra.
      apply R_round_scaled; lia.
    + apply IZR_le in H3. rewrite Rltb_false by lra.
      destruct (Z.ltb_spec a 500) as [H4 | H4].
      * apply IZR_lt in H4. rewrite Rltb_true by lra.
        apply R_round_scaled; lia.
      * apply IZR_le in H4. rewrite Rltb_false by lra.
        apply R_round_scaled; lia.
  - apply IZR_le in H2. rewrite Rltb_false by lra. exact Hs.
Qed.

Lemma decrease_step_size_thousandths (s : TravelingMicroscope R) (a : Z) :
  step_size s = (IZR a / 1000)%R ->
  step_size (snd (decrease_step_size s))
  = (IZR (decrease_thousandths a) / 1000)%R.
Proof.
  intros Hs. unfold decrease_step_size, decrease_thousandths, py_max. r_ops.
  rewrite Hs.
  destruct (Z.ltb_spec 1 a) as [H1 | H1].
  - apply IZR_lt in H1. rewrite Rltb_true by lra.
    cbn [snd set_step_size step_size].
    destruct (Z.leb_spec a 100) as [H3 | H3].
    + apply IZR_le in H3. rewrite Rleb_true by lra.
      destruct (Z.ltb_spec 10 (a * 8)) as [H5 | H5].
      * apply IZR_lt in H5. rewrite mult_IZR in H5.
        rewrite Rltb_true by lra. apply R_round_scaled; lia.
      * apply IZR_le in H5. rewrite mult_IZR in H5.
        rewrite Rltb_false by lra.
        exact (R_round_thousandths 1).
    + apply IZR_lt in H3. rewrite Rleb_false by lra.
      destruct (Z.leb_spec a 500) as [H4 | H4].
      * apply IZR_le in H4. rewrite Rleb_true by lra.
        apply R_round_scaled; lia.
      * apply IZR_lt in H4. rewrite Rleb_false by lra.
        apply R_round_scaled; lia.
  - apply IZR_le in H1. rewrite Rltb_false by lra. exact Hs.
Qed.

Lemma run_steps_thousandths (calls : list StepCall)
  (s : TravelingMicroscope R) (a : Z) :
  step_size s = (IZR a / 1000)%R ->
  step_size (run_steps s calls)
  = (IZR (fold_left step_thousandths calls a) / 1000)%R.
Proof.
  revert s a. induction calls as [| c calls IH]; intros s a Hs.
  - exact Hs.
  - cbn [run_steps fold_left]. apply IH. destruct c.
    + now apply increase_step_size_thousandths.
    + now apply decrease_step_size_thousandths.
Qed.

Lemma init_step_thousandths (now : R) : step_size (init now) = (IZR 100 / 1000)%R.
Proof. cbn [init step_size]. r_ops. lra. Qed.

Lemma Z_round_half_even_bounds (num den : Z) :
  (num / den <= Z_round_half_even num den <= num / den + 1)%Z.
Proof.
  unfold Z_round_half_even.
  destruct (2 * (num mod den) <? den)%Z; [lia |].
  destruct (den <? 2 * (num mod den))%Z; [lia |].
  destruct (Z.even (num / den)); lia.
Qed.

(** What the operations do guarantee: from 0.001 to 2.3 mm. *)
Lemma step_thousandths_bounds (a : Z) (c : StepCall) :
  (1 <= a <= 2300)%Z -> (1 <= step_thousandths a c <= 2300)%Z.
Proof.
  intros Ha. destruct c; cbn [step_thousandths].
  - unfold increase_thousandths.
    destruct (Z.ltb_spec a 2000); [| lia].
    destruct (Z.ltb_spec a 100);
      [pose proof (Z_round_half_even_bounds (a * 125) 100); Z.div_mod_to_equations; lia |].
    destruct (Z.ltb_spec a 500);
      [pose proof (Z_round_half_even_bounds (a * 12) 10); Z.div_mod_to_equations; lia |].
    pose proof (Z_round_half_even_bounds (a * 115) 100); Z.div_mod_to_equations; lia.
  - unfold decrease_thousandths.
    destruct (Z.ltb_spec 1 a); [| lia].
    destruct (Z.leb_spec a 100).
    + destruct (Z.ltb_spec 10 (a * 8)); [| lia].
      pose proof (Z_round_half_even_bounds (a * 8) 10); Z.div_mod_to_equations; lia.
    + destruct (Z.leb_spec a 500);
        [pose proof (Z_round_half_even_bounds (a * 85) 100); Z.div_mod_to_equations; lia |].
      pose proof (Z_round_half_even_bounds (a * 9) 10); Z.div_mod_to_equations; lia.
Qed.

Lemma run_steps_bounds (calls : list StepCall) (s : TravelingMicroscope R)
  (a : Z) :
  step_size s = (IZR a / 1000)%R -> (1 <= a <= 2300)%Z ->
  exists b : Z,
    step_size (run_steps s calls) = (IZR b / 1000)%R /\ (1 <= b <= 2300)%Z.
Proof.
  intros Hs Ha. exists (fold_left step_thousandths calls a).
  split; [now apply run_steps_thousandths |].
  clear Hs. revert a Ha. induction calls as [| c calls IH]; intros a Ha.
  - exact Ha.
  - cbn [fold_left]. apply IH. now apply step_thousandths_bounds.
Qed.

(** C5: the step size does not stay within [0.001, 2.0].  Nineteen calls
    of [increase_step_size] on the constructed microscope take the step
    size from 0.1 to 2.096 mm: the last call scales 1.823 by 1.15 and
    nothing clamps the result at 2.0.  Stated over the reals. *)
Theorem C5_increase_passes_upper_limit (now : R) :
  let s := run_steps (init now) (repeat Increase 19) in
  step_size (run_steps (init now) (repeat Increase 18)) = (1823 / 1000)%R
  /\ step_size s = (2096 / 1000)%R
  /\ (2 < step_size s)%R
  /\ R_round (step_size s) 3 = step_size s.
Proof.
  cbv zeta.
  rewrite !(run_steps_thousandths _ _ 100 (init_step_thousandths now)).
  change (fold_left step_thousandths (repeat Increase 18) 100%Z) with 1823%Z.
  change (fold_left step_thousandths (repeat Increase 19) 100%Z) with 2096%Z.
  repeat split; try lra. apply R_round_thousandths.
Qed.

Example increase_binary64 :
  let s := run_steps (init (@flit float _ 0 0)) (repeat Increase 19) in
  within (flit 20955 (-4)) (step_size s) (flit 20965 (-4)) = true
  /\ flt (flit 2 0) (step_size s) = true
  /\ feq (fround (step_size s) 3) (step_size s) = true.
Proof. vm_compute. repeat split; reflexivity. Qed.

(** ** Frame of take_measurement *)

Section Frame.
Context {F : Type} `{Num F}.

Lemma take_measurement_state (s : TravelingMicroscope F)
  (parent : option (Parent F)) (ring_radii : list F) (rnd : F) (ts : string) :
  fst (fst (take_measurement s parent ring_radii rnd ts))
  = store_reading s (make_reading s ring_radii rnd ts).
Proof.
  unfold take_measurement. destruct parent as [p |]; [| reflexivity].
  destruct (r_closest_ring _) as [ring |]; [| reflexivity].
  destruct (0 <? ring)%nat; [| reflexivity].
  destruct (flt _ _); reflexivity.
Qed.

Lemma do_move_measurements (s : TravelingMicroscope F) (c : MoveCall F) :
  measurements (do_move s c) = measurements s.
Proof.
  destruct c as [factor now | factor now]; cbn [do_move].
  - unfold move_left. destruct (flt _ _); reflexivity.
  - unfold move_right. destruct (flt _ _); reflexivity.
Qed.

(** C10: [take_measurement] leaves [position], [velocity], [step_size],
    [precision_mode], [movement_smoothness], [last_update_time],
    [movement_history] and [sub_pixel_positions] (and [max_position],
    [is_measuring], [acceleration], [_normal_step_size]) unchanged.  It
    assigns [current_reading], writes that reading into [measurements] under
    the position rounded to 9 decimals, and, when a parent is attached and
    the closest ring is not ring 0, writes the position into the parent's
    [left_measurements] (negative position) or [right_measurements] under
    the closest ring, leaving the other dict as it was; otherwise the
    parent is unchanged.  For every interpretation of the arithmetic. *)
Theorem C10_take_measurement_frame (s : TravelingMicroscope F)
  (parent : option (Parent F)) (ring_radii : list F) (rnd : F) (ts : string) :
  let result := take_measurement s parent ring_radii rnd ts in
  let s' := fst (fst result) in
  let parent' := snd (fst result) in
  let rd := make_reading s ring_radii rnd ts in
  (position s' = position s
   /\ velocity s' = velocity s
   /\ step_size s' = step_size s
   /\ precision_mode s' = precision_mode s
   /\ movement_smoothness s' = movement_smoothness s
   /\ last_update_time s' = last_update_time s
   /\ movement_history s' = movement_history s
   /\ sub_pixel_positions s' = sub_pixel_positions s
   /\ max_position s' = max_position s
   /\ is_measuring s' = is_measuring s
   /\ acceleration s' = acceleration s
   /\ normal_step_size s' = normal_step_size s)
  /\ current_reading s' = Some rd
  /\ measurements s'
     = dict_set feq (fround (position s) 9) rd (measurements s)
  /\ match parent, r_closest_ring rd with
     | None, _ => parent' = None
     | Some p, Some (S k) =>
         exists p', parent' = Some p'
           /\ if flt (position s) (flit 0 0) then
                left_measurements p'
                = dict_set Nat.eqb (S k) (position s) (left_measurements p)
                /\ right_measurements p' = right_measurements p
              else
                left_measurements p' = left_measurements p
                /\ right_measurements p'
                   = dict_set Nat.eqb (S k) (position s) (right_measurements p)
     | Some p, _ => parent' = Some p
     end.
Proof.
  cbv zeta. unfold take_measurement.
  destruct parent as [p |].
  - destruct (r_closest_ring (make_reading s ring_radii rnd ts)) as [[| k] |].
    + cbn. repeat split; reflexivity.
    + cbn [Nat.ltb Nat.leb].
      destruct (flt (position s) (flit 0 0)); cbn [fst snd];
        (split; [repeat split; reflexivity |]);
        (split; [reflexivity |]); (split; [reflexivity |]);
        eexists; split; try reflexivity; split; reflexivity.
    + cbn. repeat split; reflexivity.
  - cbn. repeat split; reflexivity.
Qed.
End Frame.

(** A measurement of the constructed microscope of a new simulation, in
    binary64 arithmetic: at the centre the closest ring is ring 0, the label
    is Ultra-High and nothing is written to the parent. *)
Example measurement_at_centre_binary64 :
  let sim := new_simulation (@flit float _ 0 0) in
  let result :=
    take_measurement (microscope sim) (Some (session sim)) (ring_radii sim)
      (flit 5 (-1)) "12:00:00" in
  snd (fst result) = Some (session sim)
  /\ match snd result with
     | inl rd =>
         r_closest_ring rd = Some 0%nat /\ r_precision rd = UltraHigh
         /\ List.length (measurements (fst (fst result))) = 1%nat
     | inr _ => False
     end.
Proof. vm_compute. repeat split; reflexivity. Qed.

(** ** Precision mode *)

(** Every step size the microscope can reach has three decimals. *)
Lemma reachable_step_size_rounded (s : TravelingMicroscope R) :
  reachable s -> R_round (step_size s) 3 = step_size s.
Proof.
  induction 1 as [now | s c Hs IH].
  - cbn [init step_size]. r_ops.
    replace (1 / 10)%R with (IZR 100 / 1000)%R by lra.
    apply R_round_thousandths.
  - destruct c as [[factor now | factor now] | [|] | | parent radii rnd ts | |];
      cbn [exec do_move do_step].
    + unfold move_left. destruct (flt _ _); exact IH.
    + unfold move_right. destruct (flt _ _); exact IH.
    + unfold increase_step_size. destruct (flt _ _); [| exact IH].
      cbn [snd set_step_size step_size]. r_ops.
      apply R_round_idempotent; lia.
    + unfold decrease_step_size. destruct (flt _ _); [| exact IH].
      cbn [snd set_step_size step_size]. r_ops.
      apply R_round_idempotent; lia.
    + unfold toggle_precision_mode.
      destruct (negb (precision_mode s)); cbn [snd step_size]; r_ops;
        apply R_round_idempotent; lia.
    + rewrite take_measurement_state. exact IH.
    + exact IH.
    + exact IH.
Qed.

(** Toggling twice from normal mode returns the saved step size rounded
    to three decimals, in any state. *)
Lemma toggle_twice_rounds (s : TravelingMicroscope R) :
  precision_mode s = false ->
  step_size (snd (toggle_precision_mode (snd (toggle_precision_mode s))))
  = R_round (step_size s) 3.
Proof.
  intros Hmode. unfold toggle_precision_mode. rewrite Hmode. reflexivity.
Qed.

(** C6 (amended): for every state with precision mode off, calling
    [toggle_precision_mode] twice leaves velocity 0, movement smoothing 0.8
    and precision mode off, and sets [step_size] to its pre-toggle value
    rounded to three decimals.  So the step size is restored exactly if
    and only if it has at most three decimals, and it is restored exactly
    in every state the microscope can reach from its constructor.  Stated
    over the reals. *)
Theorem C6_toggle_twice_restores (s : TravelingMicroscope R) :
  precision_mode s = false ->
  let s2 := snd (toggle_precision_mode (snd (toggle_precision_mode s))) in
  step_size s2 = R_round (step_size s) 3
  /\ (step_size s2 = step_size s <-> R_round (step_size s) 3 = step_size s)
  /\ (reachable s -> step_size s2 = step_size s)
  /\ velocity s2 = 0%R
  /\ movement_smoothness s2 = (8 / 10)%R
  /\ precision_mode s2 = false.
Proof.
  intros Hmode s2. subst s2.
  rewrite (toggle_twice_rounds s Hmode).
  split; [reflexivity |].
  split; [reflexivity |].
  split; [intros Hreach; now apply reachable_step_size_rounded |].
  unfold toggle_precision_mode. rewrite Hmode.
  cbn [negb snd precision_mode velocity movement_smoothness].
  r_ops. repeat split; reflexivity.
Qed.

Lemma C6_toggle_twice_restores_witness :
  let s := exec (init 0%R) (CStep Increase) in
  let s2 := snd (toggle_precision_mode (snd (toggle_precision_mode s))) in
  step_size s2 = R_round (step_size s) 3
  /\ (step_size s2 = step_size s <-> R_round (step_size s) 3 = step_size s)
  /\ (reachable s -> step_size s2 = step_size s)
  /\ velocity s2 = 0%R
  /\ movement_smoothness s2 = (8 / 10)%R
  /\ precision_mode s2 = false.
Proof.
  apply (C6_toggle_twice_restores (exec (init 0%R) (CStep Increase))).
  cbn [exec do_step]. unfold increase_step_size. r_eval. reflexivity.
Defined.

(** C6 as stated fails: a microscope in normal mode whose step size has
    been set to 0.12345 mm comes back from the two toggles with a step size
    of 0.123 mm, because [toggle_precision_mode] ends with
    [round(self.step_size, 3)]. *)
Lemma C6_unrounded_step_counterexample :
  let s := set_step_size (init 0%R) (12345 / 100000)%R in
  let s2 := snd (toggle_precision_mode (snd (toggle_precision_mode s))) in
  precision_mode s = false
  /\ step_size s = (12345 / 100000)%R
  /\ step_size s2 = (123 / 1000)%R
  /\ step_size s2 <> step_size s.
Proof.
  cbv zeta.
  assert (Hs : step_size
                 (snd (toggle_precision_mode
                         (snd (toggle_precision_mode
                                 (set_step_size (init 0%R)
                                    (12345 / 100000)%R)))))
               = (123 / 1000)%R).
  { rewrite toggle_twice_rounds by reflexivity.
    cbn [set_step_size step_size].
    apply (R_round_near _ 3 123). change (IZR (10 ^ 3)) with 1000%R. lra. }
  split; [reflexivity |]. split; [reflexivity |]. split; [exact Hs |].
  rewrite Hs. cbn [set_step_size step_size]. lra.
Qed.

(** In binary64 arithmetic: after three increases the step size is 0.173,
    precision mode makes it 0.017, and leaving precision mode restores
    0.173 exactly. *)
Example toggle_twice_binary64 :
  let s := run_steps (init (@flit float _ 0 0)) (repeat Increase 3) in
  let s1 := snd (toggle_precision_mode s) in
  let s2 := snd (toggle_precision_mode s1) in
  step_size s = flit 173 (-3)
  /\ step_size s1 = flit 17 (-3)
  /\ step_size s2 = step_size s
  /\ velocity s2 = flit 0 0
  /\ movement_smoothness s2 = flit 8 (-1).
Proof. vm_compute. repeat split; reflexivity. Qed.

(** In binary64 arithmetic: a step size set to 0.12345 becomes 0.012 in
    precision mode and 0.123 after leaving it. *)
Example unrounded_step_binary64 :
  let s := set_step_size (init (@flit float _ 0 0)) (flit 12345 (-5)) in
  let s1 := snd (toggle_precision_mode s) in
  let s2 := snd (toggle_precision_mode s1) in
  step_size s1 = flit 12 (-3)
  /\ step_size s2 = flit 123 (-3)
  /\ feq (step_size s2) (step_size s) = false.
Proof. vm_compute. repeat split; reflexivity. Qed.

(** ** Radius of curvature: too few complete rings *)

Section Insufficient.
Context {F : Type} `{Num F}.

Lemma complete_rings_filter (p : Parent F) (rings : list nat) :
  map fst (complete_rings p rings)
  = filter (fun r => dict_mem Nat.eqb r (right_measurements p)
                     && dict_mem Nat.eqb r (left_measurements p)) rings.
Proof.
  induction rings as [| r rings IH]; [reflexivity |].
  cbn [complete_rings filter]. unfold dict_mem at 1 2.
  destruct (dict_get Nat.eqb r (right_measurements p));
    destruct (dict_get Nat.eqb r (left_measurements p));
    cbn [andb map fst]; now rewrite ?IH.
Qed.

Lemma few_complete_rings (s : NewtonRingsSimulation F) :
  NoDup (dict_keys (left_measurements (session s))) ->
  (forall r1 r2 : nat,
      complete_ring (session s) r1 -> complete_ring (session s) r2 ->
      r1 = r2) ->
  (List.length (valid_rings_and_squares s) < 2)%nat.
Proof.
  intros Hnd Huniq.
  rewrite <- (length_map fst). unfold valid_rings_and_squares.
  rewrite complete_rings_filter.
  apply NoDup_all_equal_length.
  - apply NoDup_filter.
    eapply Permutation_NoDup; [| exact Hnd].
    apply Permutation_sym, sorted_by_perm.
  - intros x y Hx Hy.
    apply filter_In in Hx as [_ Hx]. apply filter_In in Hy as [_ Hy].
    apply andb_true_iff in Hx as [Hxr Hxl].
    apply andb_true_iff in Hy as [Hyr Hyl].
    apply Huniq; split; assumption.
Qed.

(** C9: when at most one ring number has both a left and a right
    measurement, [calculate_radius_from_measurements] reports that two
    complete rings are needed, raises nothing and leaves the whole
    simulation state, with [left_measurements] and [right_measurements], as
    it was.  The keys of [left_measurements] are pairwise different, as the
    keys of a dict are.  For every interpretation of the arithmetic. *)
Theorem C9_too_few_rings_reported (s : NewtonRingsSimulation F) :
  NoDup (dict_keys (left_measurements (session s))) ->
  (forall r1 r2 : nat,
      complete_ring (session s) r1 -> complete_ring (session s) r2 ->
      r1 = r2) ->
  calculate_radius_from_measurements s = (s, inl NeedTwoRings).
Proof.
  intros Hnd Huniq. unfold calculate_radius_from_measurements.
  pose proof (few_complete_rings s Hnd Huniq) as Hlen.
  destruct (Nat.ltb_spec (List.length (valid_rings_and_squares s)) 2);
    [reflexivity | lia].
Qed.

(** With two complete rings or more the report is not that message. *)
Lemma two_rings_not_reported_missing (s : NewtonRingsSimulation F) :
  (2 <= List.length (valid_rings_and_squares s))%nat ->
  snd (calculate_radius_from_measurements s) <> inl NeedTwoRings.
Proof.
  intros Hlen. unfold calculate_radius_from_measurements.
  destruct (Nat.ltb_spec (List.length (valid_rings_and_squares s)) 2);
    [lia |].
  destruct (regression_slope _); [| discriminate].
  destruct (py_div _ _); [| discriminate].
  destruct (py_div _ _); discriminate.
Qed.
End Insufficient.

(** Every write to a dict of ring numbers keeps its keys pairwise
    different. *)
Lemma dict_set_NoDup {V : Type} (k : nat) (v : V) (d : dict nat V) :
  NoDup (dict_keys d) -> NoDup (dict_keys (dict_set Nat.eqb k v d)).
Proof.
  intros Hnd. destruct (dict_mem Nat.eqb k d) eqn:E.
  - now rewrite (dict_keys_set_present Nat.eqb k v d E).
  - rewrite (dict_keys_set_absent Nat.eqb k v d E).
    apply NoDup_app; [assumption | constructor; [intros [] | constructor] |].
    intros x Hx [Hk | []]. subst x.
    revert E Hx. unfold dict_mem, dict_keys. clear Hnd.
    induction d as [| [k' v'] d IH]; cbn [dict_get map fst In]; [tauto |].
    destruct (Nat.eqb_spec k' k); [discriminate |].
    intros E [Hx | Hx]; [contradiction | now apply IH].
Qed.

Lemma C9_too_few_rings_reported_witness :
  calculate_radius_from_measurements one_complete_ring
  = (one_complete_ring, inl NeedTwoRings).
Proof.
  apply C9_too_few_rings_reported.
  - cbn. constructor; [intros [] | constructor].
  - intros r1 r2 [H1 _] [H2 _]. cbn in H1, H2.
    unfold dict_mem in H1, H2. cbn in H1, H2.
    destruct r1 as [| [| [| [| [| [| r1]]]]]]; try discriminate;
    destruct r2 as [| [| [| [| [| [| r2]]]]]]; try discriminate.
    reflexivity.
Defined.

(** ** Measurement keys *)

Lemma same_cell_same_key (p1 p2 : R) (k : Z) :
  (IZR k - 1 / 2 < p1 * 1000000000 < IZR k + 1 / 2)%R ->
  (IZR k - 1 / 2 < p2 * 1000000000 < IZR k + 1 / 2)%R ->
  R_round p1 9 = R_round p2 9.
Proof.
  intros H1 H2.
  rewrite (R_round_near p1 9 k), (R_round_near p2 9 k); auto.
Qed.

(** Two positions on different sides of a rounding boundary, however
    close, get different keys. *)
Lemma across_boundary_different_keys (p1 p2 : R) (k : Z) :
  (IZR k - 1 / 2 < p1 * 1000000000 < IZR k + 1 / 2)%R ->
  (IZR k + 1 / 2 < p2 * 1000000000 < IZR k + 3 / 2)%R ->
  R_round p1 9 <> R_round p2 9.
Proof.
  intros H1 H2.
  rewrite (R_round_near p1 9 k) by assumption.
  rewrite (R_round_near p2 9 (k + 1)) by (rewrite plus_IZR; lra).
  change (IZR (10 ^ 9)) with 1000000000%R. rewrite plus_IZR. lra.
Qed.

(** Measurements at two positions with one key: one entry, the second
    reading. *)
Lemma equal_keys_collide (s1 s2 : TravelingMicroscope R)
  (parent1 parent2 : option (Parent R)) (radii1 radii2 : list R)
  (rnd1 rnd2 : R) (ts1 ts2 : string) :
  let s1' := fst (fst (take_measurement s1 parent1 radii1 rnd1 ts1)) in
  let s2' := fst (fst (take_measurement s2 parent2 radii2 rnd2 ts2)) in
  measurements s2 = measurements s1' ->
  R_round (position s1) 9 = R_round (position s2) 9 ->
  dict_keys (measurements s2') = dict_keys (measurements s1')
  /\ dict_get feq (fround (position s1) 9) (measurements s2')
     = Some (make_reading s2 radii2 rnd2 ts2).
Proof.
  intros s1' s2' Hm Hkey. subst s1' s2'.
  rewrite !take_measurement_state in *.
  cbn [store_reading measurements] in *. rewrite Hm.
  cbn [fround feq R_Num]. rewrite <- Hkey.
  apply (dict_set_twice Reqb Reqb_iff).
Qed.

(** C8 (amended): two [take_measurement] calls at positions 1e-10 mm apart
    that lie strictly inside one rounding interval
    ((k - 1/2) * 1e-9, (k + 1/2) * 1e-9) store their readings under the
    same key, the position rounded to 9 decimals: after the second call the
    dict has the keys it had after the first, and the second reading under
    that key.  Stated over the reals. *)
Theorem C8_same_cell_collides (s1 s2 : TravelingMicroscope R)
  (parent1 parent2 : option (Parent R)) (radii1 radii2 : list R)
  (rnd1 rnd2 : R) (ts1 ts2 : string) (k : Z) :
  let s1' := fst (fst (take_measurement s1 parent1 radii1 rnd1 ts1)) in
  let s2' := fst (fst (take_measurement s2 parent2 radii2 rnd2 ts2)) in
  measurements s2 = measurements s1' ->
  Rabs (position s2 - position s1) = (1 / 10000000000)%R ->
  (IZR k - 1 / 2 < position s1 * 1000000000 < IZR k + 1 / 2)%R ->
  (IZR k - 1 / 2 < position s2 * 1000000000 < IZR k + 1 / 2)%R ->
  fround (position s1) 9 = fround (position s2) 9
  /\ dict_keys (measurements s2') = dict_keys (measurements s1')
  /\ dict_get feq (fround (position s1) 9) (measurements s2')
     = Some (make_reading s2 radii2 rnd2 ts2).
Proof.
  intros s1' s2' Hm _ Hc1 Hc2.
  pose proof (same_cell_same_key _ _ k Hc1 Hc2) as Hkey.
  split; [exact Hkey |].
  now apply equal_keys_collide.
Qed.

Lemma inside_position_2 :
  position (@inside_state_2 R _) = (1 / 10000000000)%R.
Proof.
  unfold inside_state_2, measure. cbn [do_move].
  rewrite take_measurement_state.
  unfold move_right, py_min. r_eval. lra.
Qed.

Lemma C8_same_cell_collides_witness :
  let sim := new_simulation (@flit R _ 0 0) in
  let s1 := init (@flit R _ 0 0) in
  let s2 := @inside_state_2 R _ in
  let s1' :=
    fst (fst (take_measurement s1 (Some (session sim)) (ring_radii sim)
                (flit 0 0) "12:00:00")) in
  let s2' :=
    fst (fst (take_measurement s2 (Some (session sim)) (ring_radii sim)
                (flit 0 0) "12:00:01")) in
  fround (position s1) 9 = fround (position s2) 9
  /\ dict_keys (measurements s2') = dict_keys (measurements s1')
  /\ dict_get feq (fround (position s1) 9) (measurements s2')
     = Some (make_reading s2 (ring_radii sim) (flit 0 0) "12:00:01").
Proof.
  cbv zeta.
  apply (C8_same_cell_collides (init (@flit R _ 0 0)) (@inside_state_2 R _)
           _ _ _ _ _ _ _ _ 0%Z).
  - unfold inside_state_2 at 1. rewrite do_move_measurements. reflexivity.
  - rewrite inside_position_2. cbn [init position]. r_ops.
    rewrite Rabs_pos_eq; lra.
  - cbn [init position]. r_ops. lra.
  - rewrite inside_position_2. lra.
Defined.

Lemma boundary_position_1 :
  position (@boundary_state_1 R _) = (45 / 100000000000)%R.
Proof.
  unfold boundary_state_1. cbn [do_move].
  unfold move_right, py_min. r_eval. lra.
Qed.

Lemma boundary_position_2 :
  position (@boundary_state_2 R _) = (55 / 100000000000)%R.
Proof.
  unfold boundary_state_2, measure. cbn [do_move].
  rewrite take_measurement_state.
  unfold move_right at 1, py_min. r_fields.
  rewrite boundary_position_1.
  unfold boundary_state_1. cbn [do_move].
  unfold move_right, py_min. r_eval. lra.
Qed.

(** C8 as stated fails: the microscope measures at 4.5e-10 mm, moves on by
    exactly 1e-10 mm and measures at 5.5e-10 mm; the two positions round to
    0 and to 1e-9, and [measurements] holds two entries. *)
Lemma C8_boundary_counterexample :
  let s2' := measure (@boundary_state_2 R _) "12:00:01" in
  (position (@boundary_state_2 R _) - position (@boundary_state_1 R _)
   = 1 / 10000000000)%R
  /\ fround (position (@boundary_state_1 R _)) 9 = (0 / 1000000000)%R
  /\ fround (position (@boundary_state_2 R _)) 9 = (1 / 1000000000)%R
  /\ dict_keys (measurements s2') = [(0 / 1000000000)%R; (1 / 1000000000)%R]
  /\ List.length (measurements s2') = 2%nat.
Proof.
  cbv zeta.
  assert (K1 : fround (position (@boundary_state_1 R _)) 9
               = (0 / 1000000000)%R).
  { rewrite boundary_position_1. cbn [fround R_Num].
    apply (R_round_near _ 9 0). change (IZR (10 ^ 9)) with 1000000000%R. lra. }
  assert (K2 : fround (position (@boundary_state_2 R _)) 9
               = (1 / 1000000000)%R).
  { rewrite boundary_position_2. cbn [fround R_Num].
    apply (R_round_near _ 9 1). change (IZR (10 ^ 9)) with 1000000000%R. lra. }
  split; [rewrite boundary_position_1, boundary_position_2; lra |].
  split; [exact K1 |]. split; [exact K2 |].
  assert (M1 : measurements (@boundary_state_1 R _) = []).
  { unfold boundary_state_1. now rewrite do_move_measurements. }
  assert (M2 : dict_keys (measurements (@boundary_state_2 R _))
               = [(0 / 1000000000)%R]).
  { unfold boundary_state_2, measure.
    rewrite do_move_measurements, take_measurement_state.
    cbn [store_reading measurements]. now rewrite M1, K1. }
  unfold measure. rewrite take_measurement_state.
  cbn [store_reading measurements]. rewrite K2.
  destruct (measurements (@boundary_state_2 R _)) as [| [key rd] [| e rest]];
    try discriminate.
  cbn [dict_keys map fst] in M2. injection M2 as ->.
  cbn [dict_set dict_keys map fst feq R_Num List.length].
  rewrite Reqb_false by lra. split; reflexivity.
Qed.

(** The same two runs in binary64 arithmetic: one record inside a rounding
    interval, two records across a boundary. *)
Example inside_binary64 :
  let s2' := measure (@inside_state_2 float _) "12:00:01" in
  within (flit 99 (-12)) (position (@inside_state_2 float _)) (flit 101 (-12))
  = true
  /\ List.length (measurements s2') = 1%nat
  /\ option_map r_timestamp (current_reading s2') = Some "12:00:01"
  /\ map (fun e => r_timestamp (snd e)) (measurements s2') = ["12:00:01"].
Proof. vm_compute. repeat split; reflexivity. Qed.

Example boundary_binary64 :
  let s1 := @boundary_state_1 float _ in
  let s2 := @boundary_state_2 float _ in
  let s2' := measure s2 "12:00:01" in
  within (flit 99999 (-15)) (fsub (position s2) (position s1))
    (flit 100001 (-15)) = true
  /\ dict_keys (measurements s2') = [flit 0 0; flit 1 (-9)]
  /\ map (fun e => r_timestamp (snd e)) (measurements s2')
     = ["12:00:00"; "12:00:01"].
Proof. vm_compute. repeat split; reflexivity. Qed.

(** ** Aggregation: the pair chosen for a ring *)

Section Grouping.
Context {F : Type} `{Num F}.

Lemma group_by_precision_spec (records : list (Reading F))
(positions : list F) (g : dict Quality (list F)) :
(forall pos, In pos positions -> precision_at records pos <> None) ->
no_empty_entry g ->
exists g',
  group_by_precision records positions g = inl g'
  /\ no_empty_entry g'
  /\ forall q, entries g' q = entries g q ++ tier_positions records positions q.
Proof.
revert g. induction positions as [| pos rest IH]; intros g Hall Hne.
- exists g. split; [reflexivity |]. split; [assumption |].
  intros q. cbn. now rewrite app_nil_r.
- cbn [group_by_precision].
  destruct (precision_at records pos) as [q0 |] eqn:Hq0;
    [| exfalso; apply (Hall pos); [now left | assumption]].
  set (g1 := dict_set Quality_eqb q0 (entries g q0 ++ [pos]) g).
  assert (Hne1 : no_empty_entry g1).
  { intros q Hq. unfold g1 in Hq.
    destruct (Quality_eqb q0 q) eqn:E.
    - apply Quality_eqb_eq in E. subst q.
      rewrite (dict_get_set_same Quality_eqb Quality_eqb_eq) in Hq.
      injection Hq as Hq. destruct (entries g q0); discriminate.
    - rewrite (dict_get_set_other Quality_eqb Quality_eqb_eq) in Hq.
      + now apply (Hne q).
      + intros ->. rewrite (proj2 (Quality_eqb_eq q q) eq_refl) in E.
        discriminate. }
  destruct (IH g1) as [g' [Hg' [Hne' Hent]]]; [| assumption |].
  { intros p Hp. apply Hall. now right. }
  exists g'. split; [exact Hg' |]. split; [assumption |].
  intros q. rewrite Hent. unfold tier_positions at 2. cbn [filter].
  rewrite Hq0. fold (tier_positions records rest q).
  unfold entries at 1, g1.
  destruct (Quality_eqb q0 q) eqn:E.
  + apply Quality_eqb_eq in E. subst q.
    rewrite (dict_get_set_same Quality_eqb Quality_eqb_eq).
    now rewrite <- app_assoc.
  + rewrite (dict_get_set_other Quality_eqb Quality_eqb_eq).
    * reflexivity.
    * intros ->. rewrite (proj2 (Quality_eqb_eq q q) eq_refl) in E.
      discriminate.
Qed.

(** Grouping from the empty dict: a label is a key exactly when some
  position carries it, and then maps to the positions that carry it. *)
Lemma group_by_precision_tiers (records : list (Reading F))
(positions : list F) :
(forall pos, In pos positions -> precision_at records pos <> None) ->
exists g,
  group_by_precision records positions [] = inl g
  /\ forall q,
       dict_get Quality_eqb q g
       = match tier_positions records positions q with
         | [] => None
         | l => Some l
         end.
Proof.
intros Hall.
destruct (group_by_precision_spec records positions [] Hall)
  as [g [Hg [Hne Hent]]]; [intros q; discriminate |].
exists g. split; [exact Hg |]. intros q.
specialize (Hent q). unfold entries in Hent. cbn [dict_get app] in Hent.
destruct (dict_get Quality_eqb q g) as [l |] eqn:E.
- subst l. destruct (tier_positions records positions q) eqn:E2.
  + exfalso. now apply (Hne q).
  + reflexivity.
- now rewrite <- Hent.
Qed.
End Grouping.

(** ** Maximum and minimum of a list of reals *)

Lemma fold_py_max_spec (l : list R) (x : R) :
  let m := fold_left py_max l x in
  In m (x :: l) /\ forall y : R, In y (x :: l) -> (y <= m)%R.
Proof.
  revert x. induction l as [| z l IH]; intros x; cbn [fold_left].
  - split; [now left |]. intros y [<- | []]. lra.
  - destruct (IH (py_max x z)) as [Hin Hub]. split.
    + destruct Hin as [Hm | Hm]; [| right; now right].
      rewrite <- Hm. unfold py_max. cbn [flt R_Num].
      destruct (Rltb x z); [right; now left | now left].
    + intros y Hy.
      assert (Hxz : (x <= py_max x z /\ z <= py_max x z)%R).
      { unfold py_max. cbn [flt R_Num].
        destruct (Rltb x z) eqn:E.
        - apply Rltb_iff in E. lra.
        - apply Rltb_false_iff in E. lra. }
      pose proof (Hub (py_max x z) (or_introl eq_refl)) as Hm.
      destruct Hy as [<- | [<- | Hy]]; [lra | lra |].
      apply Hub. now right.
Qed.

Lemma fold_py_min_spec (l : list R) (x : R) :
  let m := fold_left py_min l x in
  In m (x :: l) /\ forall y : R, In y (x :: l) -> (m <= y)%R.
Proof.
  revert x. induction l as [| z l IH]; intros x; cbn [fold_left].
  - split; [now left |]. intros y [<- | []]. lra.
  - destruct (IH (py_min x z)) as [Hin Hlb]. split.
    + destruct Hin as [Hm | Hm]; [| right; now right].
      rewrite <- Hm. unfold py_min. cbn [flt R_Num].
      destruct (Rltb z x); [right; now left | now left].
    + intros y Hy.
      assert (Hxz : (py_min x z <= x /\ py_min x z <= z)%R).
      { unfold py_min. cbn [flt R_Num].
        destruct (Rltb z x) eqn:E.
        - apply Rltb_iff in E. lra.
        - apply Rltb_false_iff in E. lra. }
      pose proof (Hlb (py_min x z) (or_introl eq_refl)) as Hm.
      destruct Hy as [<- | [<- | Hy]]; [lra | lra |].
      apply Hlb. now right.
Qed.

Lemma extremes_spec (ls rs : list R) (label : Quality) :
  ls <> [] -> rs <> [] ->
  exists left_pos right_pos : R,
    extremes ls rs label = inl (left_pos, right_pos, label)
    /\ is_max left_pos ls /\ is_min right_pos rs.
Proof.
  intros Hl Hr.
  destruct ls as [| x ls]; [contradiction |].
  destruct rs as [| y rs]; [contradiction |].
  exists (fold_left py_max ls x), (fold_left py_min rs y).
  split; [reflexivity |]. split.
  - apply fold_py_max_spec.
  - apply fold_py_min_spec.
Qed.

(** The pair chosen for a ring with at least one left and one right
    position, each position being that of a stored reading: from the
    highest label present on both sides among Ultra-High > Very High >
    High, the greatest left and the least right position carrying it;
    otherwise the greatest of all left and the least of all right positions,
    reported as Standard. *)
Lemma best_pair_three_tiers (records : list (Reading R))
  (sides : Sides R) :
  side_left sides <> [] ->
  side_right sides <> [] ->
  (forall pos : R, In pos (side_left sides ++ side_right sides) ->
     precision_at records pos <> None) ->
  exists (left_pos right_pos : R) (label : Quality),
    best_pair records sides = inl (left_pos, right_pos, label)
    /\ match first_common_tier [UltraHigh; VeryHigh; High] records sides with
       | Some q =>
           label = q
           /\ is_max left_pos (tier_positions records (side_left sides) q)
           /\ is_min right_pos (tier_positions records (side_right sides) q)
       | None =>
           label = Standard
           /\ is_max left_pos (side_left sides)
           /\ is_min right_pos (side_right sides)
       end.
Proof.
  intros Hl Hr Hall.
  destruct (group_by_precision_tiers records (side_left sides))
    as [gl [Hgl Hgetl]];
    [intros pos Hpos; apply Hall, in_or_app; now left |].
  destruct (group_by_precision_tiers records (side_right sides))
    as [gr [Hgr Hgetr]];
    [intros pos Hpos; apply Hall, in_or_app; now right |].
  unfold best_pair. rewrite Hgl, Hgr. unfold select_pair.
  rewrite !Hgetl, !Hgetr. unfold first_common_tier. cbn [find].
  destruct (tier_positions records (side_left sides) UltraHigh)
    as [| l1 L1] eqn:EL1;
  destruct (tier_positions records (side_right sides) UltraHigh)
    as [| r1 R1] eqn:ER1; cbn [nonempty andb];
  try (destruct (extremes_spec (l1 :: L1) (r1 :: R1) UltraHigh)
         as [lp [rp [He [Hmax Hmin]]]]; [discriminate | discriminate |];
       exists lp, rp, UltraHigh; rewrite EL1, ER1; (split; [exact He | split; [reflexivity | split; assumption]]));
  (destruct (tier_positions records (side_left sides) VeryHigh)
     as [| l2 L2] eqn:EL2;
   destruct (tier_positions records (side_right sides) VeryHigh)
     as [| r2 R2] eqn:ER2; cbn [nonempty andb];
   try (destruct (extremes_spec (l2 :: L2) (r2 :: R2) VeryHigh)
          as [lp [rp [He [Hmax Hmin]]]]; [discriminate | discriminate |];
        exists lp, rp, VeryHigh; rewrite EL2, ER2; (split; [exact He | split; [reflexivity | split; assumption]]));
   (destruct (tier_positions records (side_left sides) High)
      as [| l3 L3] eqn:EL3;
    destruct (tier_positions records (side_right sides) High)
      as [| r3 R3] eqn:ER3; cbn [nonempty andb];
    try (destruct (extremes_spec (l3 :: L3) (r3 :: R3) High)
           as [lp [rp [He [Hmax Hmin]]]]; [discriminate | discriminate |];
         exists lp, rp, High; rewrite EL3, ER3; (split; [exact He | split; [reflexivity | split; assumption]]));
    (destruct (extremes_spec (side_left sides) (side_right sides) Standard)
       as [lp [rp [He [Hmax Hmin]]]]; [assumption | assumption |];
     exists lp, rp, Standard; (split; [exact He | split; [reflexivity | split; assumption]])))).
Qed.

Section RingGrouping.
Context {F : Type} `{Num F}.

Lemma sides_entry_set (g : dict nat (Sides F)) (ring ring' : nat)
  (sides : Sides F) :
  sides_entry (dict_set Nat.eqb ring sides g) ring'
  = if Nat.eqb ring ring' then sides else sides_entry g ring'.
Proof.
  unfold sides_entry. destruct (Nat.eqb_spec ring ring') as [<- | Hne].
  - now rewrite (dict_get_set_same Nat.eqb Nat.eqb_eq).
  - now rewrite (dict_get_set_other Nat.eqb Nat.eqb_eq) by assumption.
Qed.

Lemma sides_entry_add (g : dict nat (Sides F)) (ring ring' : nat)
  (r : Reading F) :
  r_closest_ring r = Some ring ->
  side_left (sides_entry (add_reading g ring r) ring')
  = side_left (sides_entry g ring') ++ ring_left [r] ring'
  /\ side_right (sides_entry (add_reading g ring r) ring')
     = side_right (sides_entry g ring') ++ ring_right [r] ring'.
Proof.
  intros Hring. unfold add_reading, ring_left, ring_right, of_ring.
  cbn [filter map]. rewrite Hring.
  fold (sides_entry g ring). rewrite sides_entry_set.
  destruct (Nat.eqb_spec ring ring') as [<- | Hne].
  - destruct (flt (r_position r) (flit 0 0));
      cbn [andb negb map side_left side_right];
      rewrite ?app_nil_r; split; reflexivity.
  - cbn [andb map]. rewrite !app_nil_r. split; reflexivity.
Qed.

Lemma ring_left_cons (r : Reading F) (rs : list (Reading F)) (ring : nat) :
  ring_left (r :: rs) ring = ring_left [r] ring ++ ring_left rs ring.
Proof.
  unfold ring_left. cbn [filter].
  destruct (of_ring ring r && flt (r_position r) (flit 0 0)); reflexivity.
Qed.

Lemma ring_right_cons (r : Reading F) (rs : list (Reading F)) (ring : nat) :
  ring_right (r :: rs) ring = ring_right [r] ring ++ ring_right rs ring.
Proof.
  unfold ring_right. cbn [filter].
  destruct (of_ring ring r && negb (flt (r_position r) (flit 0 0)));
    reflexivity.
Qed.

(** The grouping loop appends, ring by ring, the left and right positions
    of the readings. *)
Lemma group_by_ring_spec (rs : list (Reading F)) (g : dict nat (Sides F)) :
  (forall r, In r rs -> r_closest_ring r <> None) ->
  exists g',
    group_by_ring rs g = inl g'
    /\ forall ring,
         side_left (sides_entry g' ring)
         = side_left (sides_entry g ring) ++ ring_left rs ring
         /\ side_right (sides_entry g' ring)
            = side_right (sides_entry g ring) ++ ring_right rs ring.
Proof.
  revert g. induction rs as [| r rs IH]; intros g Hall.
  - exists g. split; [reflexivity |]. intros ring.
    unfold ring_left, ring_right. cbn [filter map].
    rewrite !app_nil_r. split; reflexivity.
  - cbn [group_by_ring].
    destruct (r_closest_ring r) as [ring0 |] eqn:Hring;
      [| exfalso; apply (Hall r); [now left | assumption]].
    destruct (IH (add_reading g ring0 r)) as [g' [Hg' Hsides]].
    { intros r' Hr'. apply Hall. now right. }
    exists g'. split; [exact Hg' |]. intros ring.
    destruct (Hsides ring) as [Hl Hr].
    destruct (sides_entry_add g ring0 ring r Hring) as [Hl0 Hr0].
    rewrite (ring_left_cons r rs ring), (ring_right_cons r rs ring).
    rewrite Hl, Hr, Hl0, Hr0, <- !app_assoc. split; reflexivity.
Qed.

Lemma dict_get_in_keys {V : Type} (k : nat) (v : V) (d : dict nat V) :
  dict_get Nat.eqb k d = Some v -> In k (dict_keys d).
Proof.
  induction d as [| [k' v'] d IH]; cbn [dict_get dict_keys map fst In].
  - discriminate.
  - destruct (Nat.eqb_spec k' k); [now left | right; now apply IH].
Qed.

(** A ring with a reading on each side is a key of the grouping dict, with
    its positions. *)
Lemma group_by_ring_sides (rs : list (Reading F)) (ring : nat) :
  (forall r, In r rs -> r_closest_ring r <> None) ->
  ring_left rs ring <> [] ->
  exists g,
    group_by_ring rs [] = inl g
    /\ dict_get Nat.eqb ring g = Some (ring_sides rs ring)
    /\ forall ring' sides,
         dict_get Nat.eqb ring' g = Some sides -> sides = ring_sides rs ring'.
Proof.
  intros Hall Hleft.
  destruct (group_by_ring_spec rs [] Hall) as [g [Hg Hsides]].
  exists g. split; [exact Hg |].
  assert (Hany : forall ring' sides,
             dict_get Nat.eqb ring' g = Some sides ->
             sides = ring_sides rs ring').
  { intros ring' sides Hget. destruct (Hsides ring') as [Hl Hr].
    unfold sides_entry in Hl, Hr. rewrite Hget in Hl, Hr.
    cbn [dict_get side_left side_right app] in Hl, Hr.
    destruct sides as [l r]. cbn [side_left side_right] in Hl, Hr.
    unfold ring_sides. now rewrite Hl, Hr. }
  split; [| exact Hany].
  destruct (dict_get Nat.eqb ring g) as [sides |] eqn:Hget.
  - now rewrite (Hany ring sides Hget).
  - exfalso. destruct (Hsides ring) as [Hl _].
    unfold sides_entry in Hl. rewrite Hget in Hl.
    cbn [dict_get side_left app] in Hl. now apply Hleft.
Qed.
End RingGrouping.

Section RowsLoop.
Context {F : Type} `{Num F}.

Lemma rows_loop_row (records : list (Reading F)) (g : dict nat (Sides F))
  (rings : list nat) :
  (forall ring sides,
      In ring rings -> dict_get Nat.eqb ring g = Some sides ->
      has_row sides ring = true ->
      exists res, best_pair records sides = inl res) ->
  snd (rows_loop records g rings) = None
  /\ forall ring sides,
       In ring rings -> dict_get Nat.eqb ring g = Some sides ->
       has_row sides ring = true ->
       exists row,
         In row (fst (rows_loop records g rings))
         /\ row_ring row = ring
         /\ best_pair records sides
            = inl (row_left_pos row, row_right_pos row,
                   row_precision_type row).
Proof.
  induction rings as [| ring0 rings IH]; intros Hok.
  - split; [reflexivity |]. intros ring sides [].
  - destruct IH as [IHnone IHrow].
    { intros ring sides Hin. apply Hok. now right. }
    cbn [rows_loop].
    destruct (dict_get Nat.eqb ring0 g) as [sides0 |] eqn:Hget0.
    + fold (has_row sides0 ring0).
      destruct (has_row sides0 ring0) eqn:Hrow0.
      * destruct (Hok ring0 sides0 (or_introl eq_refl) Hget0 Hrow0)
          as [[[lp rp] label] Hbest].
        rewrite Hbest.
        destruct (rows_loop records g rings) as [rows e] eqn:Hloop.
        cbn [fst snd] in *. split; [exact IHnone |].
        intros ring sides [<- | Hin] Hget Hrow.
        -- rewrite Hget0 in Hget. injection Hget as <-.
           eexists. split; [now left |]. split; [reflexivity |]. exact Hbest.
        -- destruct (IHrow ring sides Hin Hget Hrow) as [row [Hr1 Hr2]].
           exists row. split; [now right | exact Hr2].
      * split; [exact IHnone |].
        intros ring sides [<- | Hin] Hget Hrow.
        -- rewrite Hget0 in Hget. injection Hget as <-.
           rewrite Hrow0 in Hrow. discriminate.
        -- now apply IHrow.
    + split; [exact IHnone |].
      intros ring sides [<- | Hin] Hget Hrow.
      * rewrite Hget0 in Hget. discriminate.
      * now apply IHrow.
Qed.
End RowsLoop.

Lemma precision_at_found (records : list (Reading R)) (r : Reading R) :
  In r records -> precision_at records (r_position r) <> None.
Proof.
  intros Hin. unfold precision_at.
  destruct (find (fun r0 => feq (r_position r0) (r_position r)) records)
    eqn:Hfind; [discriminate |].
  exfalso. pose proof (find_none _ _ Hfind r Hin) as Hno.
  cbn [feq R_Num] in Hno. now rewrite Reqb_true in Hno.
Qed.

Lemma ring_sides_positions (records : list (Reading R)) (ring : nat)
  (pos : R) :
  In pos (side_left (ring_sides records ring)
          ++ side_right (ring_sides records ring)) ->
  precision_at records pos <> None.
Proof.
  intros Hin. cbn [ring_sides side_left side_right] in Hin.
  unfold ring_left, ring_right in Hin.
  apply in_app_or in Hin.
  destruct Hin as [Hin | Hin]; apply in_map_iff in Hin as [r [<- Hr]];
    apply filter_In in Hr as [Hr _]; now apply precision_at_found.
Qed.

Lemma nonempty_true {A : Type} (l : list A) : nonempty l = true <-> l <> [].
Proof. destruct l; cbn; split; intros; congruence. Qed.

(** C7 (amended): when the table of ring diameters is shown and every
    stored reading has a closest ring, every ring other than ring 0 with at
    least one left-side and one right-side reading gets a row, and no
    exception is raised.  The row's pair comes from the highest label
    present on both sides among Ultra-High > Very High > High: the
    rightmost (greatest) left-side position and the leftmost (least)
    right-side position carrying that label.  When none of these three
    labels is on both sides the row has the rightmost of all left-side
    positions and the leftmost of all right-side positions of the ring,
    whatever their labels, and is reported as Standard.  Stated over the
    reals. *)
Theorem C7_rows_pick_from_three_tiers (m : dict R (Reading R)) (ring : nat) :
  let records := sorted_readings m in
  let sides := ring_sides records ring in
  (forall r, In r records -> r_closest_ring r <> None) ->
  table_shown m = true ->
  (0 < ring)%nat ->
  side_left sides <> [] ->
  side_right sides <> [] ->
  snd (ring_rows m) = None
  /\ exists row : Row R,
       In row (fst (ring_rows m))
       /\ row_ring row = ring
       /\ match first_common_tier [UltraHigh; VeryHigh; High] records sides
          with
          | Some q =>
              row_precision_type row = q
              /\ is_max (row_left_pos row)
                   (tier_positions records (side_left sides) q)
              /\ is_min (row_right_pos row)
                   (tier_positions records (side_right sides) q)
          | None =>
              row_precision_type row = Standard
              /\ is_max (row_left_pos row) (side_left sides)
              /\ is_min (row_right_pos row) (side_right sides)
          end.
Proof.
  intros records sides Hall Hshown Hring Hleft Hright.
  destruct (group_by_ring_sides records ring Hall Hleft)
    as [g [Hg [Hget Hany]]].
  unfold ring_rows. fold (table_shown m). rewrite Hshown.
  fold records. rewrite Hg.
  assert (Hkey : In ring (dict_keys g)) by (eapply dict_get_in_keys; eauto).
  assert (Hex : existsb (fun ring0 => (0 <? ring0)%nat) (dict_keys g) = true).
  { apply existsb_exists. exists ring. split; [assumption |].
    now apply Nat.ltb_lt. }
  rewrite Hex.
  assert (Hok : forall ring' sides',
             In ring' (sorted_by Nat.ltb (dict_keys g)) ->
             dict_get Nat.eqb ring' g = Some sides' ->
             has_row sides' ring' = true ->
             exists res, best_pair records sides' = inl res).
  { intros ring' sides' _ Hget' Hrow'.
    rewrite (Hany ring' sides' Hget') in *.
    unfold has_row in Hrow'.
    apply andb_true_iff in Hrow' as [Hrow' _].
    apply andb_true_iff in Hrow' as [Hl' Hr'].
    apply nonempty_true in Hl'. apply nonempty_true in Hr'.
    destruct (best_pair_three_tiers records (ring_sides records ring')
                Hl' Hr' (ring_sides_positions records ring'))
      as [lp [rp [label [Hbest _]]]].
    now exists (lp, rp, label). }
  destruct (rows_loop_row records g (sorted_by Nat.ltb (dict_keys g)) Hok)
    as [Hnone Hrows].
  split; [exact Hnone |].
  destruct (Hrows ring sides) as [row [Hin [Hrr Hbest]]].
  - eapply Permutation_in; [apply Permutation_sym, sorted_by_perm | exact Hkey].
  - exact Hget.
  - unfold has_row. apply andb_true_iff. split; [| now apply Nat.ltb_lt].
    apply andb_true_iff. split; now apply nonempty_true.
  - exists row. split; [exact Hin |]. split; [exact Hrr |].
    destruct (best_pair_three_tiers records sides Hleft Hright
                (ring_sides_positions records ring))
      as [lp [rp [label [Hbest' Hspec]]]].
    rewrite Hbest in Hbest'. injection Hbest' as <- <- <-.
    exact Hspec.
Qed.

Ltac r_agg :=
  repeat (progress
    (unfold good_and_standard, ring5_reading, ring_rows, sorted_positions,
       sorted_readings, sorted_by, add_reading, best_pair, precision_at,
       select_pair, extremes, py_max_list, py_min_list, py_max, py_min,
       tier_positions, first_common_tier, dict_mem, table_shown, ring_sides,
       ring_left, ring_right, of_ring;
     cbn [good_and_standard ring5_reading
          ring_rows sorted_positions sorted_readings sorted_by insert_sorted
          fold_left flat_map app filter nonempty andb negb orb existsb
          dict_keys dict_get dict_set dict_mem map fst snd
          group_by_ring add_reading rows_loop best_pair group_by_precision
          precision_at find Quality_eqb select_pair extremes
          py_max_list py_min_list py_max py_min
          tier_positions first_common_tier
          r_position r_closest_ring r_precision side_left side_right
          Nat.eqb Nat.ltb Nat.leb];
     r_ops; r_cmp; cbv beta iota)).

Lemma C7_rows_pick_from_three_tiers_witness :
  let m := @good_and_standard R _ in
  let records := sorted_readings m in
  let sides := ring_sides records 5 in
  snd (ring_rows m) = None
  /\ exists row : Row R,
       In row (fst (ring_rows m))
       /\ row_ring row = 5%nat
       /\ match first_common_tier [UltraHigh; VeryHigh; High] records sides
          with
          | Some q =>
              row_precision_type row = q
              /\ is_max (row_left_pos row)
                   (tier_positions records (side_left sides) q)
              /\ is_min (row_right_pos row)
                   (tier_positions records (side_right sides) q)
          | None =>
              row_precision_type row = Standard
              /\ is_max (row_left_pos row) (side_left sides)
              /\ is_min (row_right_pos row) (side_right sides)
          end.
Proof.
  apply (C7_rows_pick_from_three_tiers (@good_and_standard R _) 5).
  - intros r. r_agg. cbn [In].
    intros [<- | [<- | [<- | []]]]; discriminate.
  - r_agg. reflexivity.
  - lia.
  - r_agg. discriminate.
  - r_agg. discriminate.
Defined.

(** C7 as stated fails: ring 5 has on its left a reading labelled Good at
    -1.70 mm and one labelled Standard at -1.65 mm, on its right a reading
    labelled Good at 1.70 mm.  Good is the highest label on both sides and
    its only left position is -1.70, but the row of the ring has the left
    position -1.65 of the Standard reading, and the label Standard. *)
Lemma C7_good_tier_counterexample :
  let m := @good_and_standard R _ in
  let records := sorted_readings m in
  let sides := ring_sides records 5 in
  ring_rows m
  = ([{| row_ring := 5; row_left_pos := (- (165 / 100))%R;
         row_right_pos := (170 / 100)%R;
         row_precision_type := Standard |}], None)
  /\ side_left sides = [(- (170 / 100))%R; (- (165 / 100))%R]
  /\ side_right sides = [(170 / 100)%R]
  /\ first_common_tier [UltraHigh; VeryHigh; High; Good; Standard]
       records sides = Some Good
  /\ tier_positions records (side_left sides) Good = [(- (170 / 100))%R]
  /\ tier_positions records (side_right sides) Good = [(170 / 100)%R]
  /\ (- (165 / 100) <> - (170 / 100))%R.
Proof.
  cbv zeta. repeat split; try (r_agg; reflexivity). lra.
Qed.

(** The same three readings in binary64 arithmetic, and a sweep of the
    microscope of a new simulation that stores three such readings: the row
    of ring 5 has the left position of the reading labelled Standard. *)
Example good_tier_binary64 :
  ring_rows (@good_and_standard float _)
  = ([{| row_ring := 5; row_left_pos := fneg (flit 165 (-2));
         row_right_pos := flit 170 (-2);
         row_precision_type := Standard |}], None).
Proof. vm_compute. reflexivity. Qed.

Example sweep_binary64 :
  let m := measurements (run_commands (init (@flit float _ 0 0)) sweep_commands) in
  map (fun e => (r_closest_ring (snd e), r_precision (snd e),
                 flt (r_position (snd e)) (flit 0 0))) m
  = [(Some 5%nat, Standard, true); (Some 5%nat, Good, true);
     (Some 5%nat, Good, false)]
  /\ match ring_rows m with
     | ([row], None) =>
         row_ring row = 5%nat
         /\ row_precision_type row = Standard
         /\ Some (row_left_pos row) = option_map (fun e => r_position (snd e)) (hd_error m)
         /\ within (flit (-17037) (-4)) (row_left_pos row) (flit (-17036) (-4))
            = true
     | _ => False
     end.
Proof. vm_compute. repeat split; reflexivity. Qed.

(** * Further properties *)

(** ** Invariants of the microscope *)

Lemma append_bounded_length {A : Type} (n : nat) (l : list A) (x : A) :
  (List.length l <= n)%nat -> (List.length (append_bounded n l x) <= n)%nat.
Proof.
  intros Hl. unfold append_bounded.
  destruct (Nat.ltb_spec n (List.length (l ++ [x]))) as [Hlt | Hge].
  - destruct l as [| y l']; cbn [app tl List.length] in *; [lia |].
    rewrite length_app. cbn [List.length]. lia.
  - exact Hge.
Qed.

Section Histories.
Context {F : Type} `{Num F}.

(** X1: the two motion histories are bounded.  In every state the
    microscope can reach, [movement_history] holds at most 15 entries and
    [sub_pixel_positions] at most 20: each move appends one entry to both
    and drops the oldest one beyond the bound, and no other operation
    touches them.  For every interpretation of the arithmetic. *)
Theorem histories_bounded (s : TravelingMicroscope F) :
  reachable s ->
  (List.length (movement_history s) <= 15)%nat
  /\ (List.length (sub_pixel_positions s) <= 20)%nat.
Proof.
  induction 1 as [now | s c Hs [IHm IHp]].
  - cbn [init movement_history sub_pixel_positions List.length]. lia.
  - destruct c as [[factor now | factor now] | [|] | | parent radii rnd ts | |];
      cbn [exec do_move do_step].
    + unfold move_left. destruct (flt _ _);
        cbn [snd movement_history sub_pixel_positions];
        split; try assumption; now apply append_bounded_length.
    + unfold move_right. destruct (flt _ _);
        cbn [snd movement_history sub_pixel_positions];
        split; try assumption; now apply append_bounded_length.
    + unfold increase_step_size. destruct (flt _ _); now split.
    + unfold decrease_step_size. destruct (flt _ _); now split.
    + unfold toggle_precision_mode. destruct (negb _); now split.
    + rewrite take_measurement_state. now split.
    + now split.
    + now split.
Qed.
End Histories.

Lemma histories_bounded_witness :
  let s :=
    run_commands (init (@flit float _ 0 0))
      (map (fun i => CMove (MoveRight (flit 1 0) (flit (Z.of_nat i) (-1))))
         (seq 1 25)) in
  (List.length (movement_history s) <= 15)%nat
  /\ (List.length (sub_pixel_positions s) <= 20)%nat.
Proof.
  apply (@histories_bounded float F64_Num).
  unfold run_commands. cbn [seq map fold_left].
  repeat apply reachable_exec. apply reachable_init.
Defined.

(** The histories do fill up: after 25 moves they hold 15 and 20
    entries. *)
Example histories_full_binary64 :
  let s :=
    run_commands (init (@flit float _ 0 0))
      (map (fun i => CMove (MoveRight (flit 1 0) (flit (Z.of_nat i) (-1))))
         (seq 1 25)) in
  List.length (movement_history s) = 15%nat
  /\ List.length (sub_pixel_positions s) = 20%nat.
Proof. vm_compute. split; reflexivity. Qed.

(** *** Step size *)

(** Precision mode on a step size of [a] thousandths. *)
Lemma precision_step_thousandths (a : Z) :
  (1 <= a <= 2300)%Z ->
  exists b : Z,
    R_round (py_max (flit 1 (-3)) (IZR a / 1000 / flit 10 0)%R) 3
    = (IZR b / 1000)%R
    /\ (1 <= b <= 231)%Z.
Proof.
  intros Ha. unfold py_max. r_ops.
  destruct (Z.ltb_spec 10 a) as [H1 | H1].
  - apply IZR_lt in H1 as H1'. rewrite Rltb_true by lra.
    exists (Z_round_half_even (a * 1) 10). split.
    + rewrite <- R_round_scaled by lia. f_equal. lra.
    + pose proof (Z_round_half_even_bounds (a * 1) 10).
      Z.div_mod_to_equations. lia.
  - apply IZR_le in H1 as H1'. rewrite Rltb_false by lra.
    exists 1%Z. split; [apply (R_round_thousandths 1) | lia].
Qed.

Lemma reachable_step_invariant (s : TravelingMicroscope R) :
  reachable s -> step_invariant s.
Proof.
  induction 1 as [now | s c Hs [[a [Ha Hb]] IHn]].
  - split.
    + exists 100%Z. split; [apply init_step_thousandths | lia].
    + cbn [init normal_step_size]. discriminate.
  - destruct c as [[factor now | factor now] | st | | parent radii rnd ts | |];
      cbn [exec do_move].
    + unfold move_left. destruct (flt _ _); (split; [now exists a | exact IHn]).
    + unfold move_right. destruct (flt _ _); (split; [now exists a | exact IHn]).
    + split.
      * exists (step_thousandths a st). split.
        -- destruct st; cbn [do_step step_thousandths].
           ++ now apply increase_step_size_thousandths.
           ++ now apply decrease_step_size_thousandths.
        -- now apply step_thousandths_bounds.
      * destruct st; cbn [do_step].
        -- unfold increase_step_size. destruct (flt _ _); exact IHn.
        -- unfold decrease_step_size. destruct (flt _ _); exact IHn.
    + unfold toggle_precision_mode.
      destruct (negb (precision_mode s)); cbn [snd step_size normal_step_size].
      * split.
        -- rewrite Ha. cbn [fround R_Num].
           destruct (precision_step_thousandths a Hb) as [b [Hb1 Hb2]].
           exists b. split; [exact Hb1 | lia].
        -- intros saved [= <-]. now exists a.
      * split; [| exact IHn].
        destruct (normal_step_size s) as [saved |].
        -- destruct (IHn saved eq_refl) as [b [-> Hb']].
           exists b. split; [apply R_round_thousandths | exact Hb'].
        -- rewrite Ha. exists a. split; [apply R_round_thousandths | exact Hb].
    + rewrite take_measurement_state. split; [now exists a | exact IHn].
    + split; [now exists a | exact IHn].
    + split; [now exists a | exact IHn].
Qed.

(** X2: in every state the microscope can reach, whatever the sequence of
    moves, step size changes, precision mode toggles and measurements, the
    step size is a whole number of thousandths of a millimetre from 0.001
    to 2.3 mm.  Stated over the reals. *)
Theorem reachable_step_size_bounds (s : TravelingMicroscope R) :
  reachable s ->
  (exists a : Z, step_size s = (IZR a / 1000)%R)
  /\ (1 / 1000 <= step_size s <= 23 / 10)%R.
Proof.
  intros Hs. destruct (reachable_step_invariant s Hs) as [[a [Ha Hb]] _].
  split; [now exists a |].
  rewrite Ha. destruct Hb as [Hb1 Hb2].
  apply IZR_le in Hb1. apply IZR_le in Hb2. lra.
Qed.

Lemma reachable_step_size_bounds_witness :
  let s := exec (exec (init 0%R) (CStep Decrease)) CToggle in
  (exists a : Z, step_size s = (IZR a / 1000)%R)
  /\ (1 / 1000 <= step_size s <= 23 / 10)%R.
Proof.
  apply (reachable_step_size_bounds
           (exec (exec (init 0%R) (CStep Decrease)) CToggle)).
  apply reachable_exec, reachable_exec, reachable_init.
Defined.

Lemma decrease_thousandths_floor (a : Z) :
  (2 <= a <= 2300)%Z -> (2 <= step_thousandths a Decrease <= 2300)%Z.
Proof.
  intros Ha. pose proof (step_thousandths_bounds a Decrease ltac:(lia)) as Hb.
  split; [| lia]. cbn [step_thousandths]. unfold decrease_thousandths.
  destruct (Z.ltb_spec 1 a); [| lia].
  destruct (Z.leb_spec a 100).
  - destruct (Z.ltb_spec 10 (a * 8)); [| lia].
    unfold Z_round_half_even.
    destruct (Z.ltb_spec (2 * ((a * 8) mod 10)) 10);
      [Z.div_mod_to_equations; lia |].
    destruct (Z.ltb_spec 10 (2 * ((a * 8) mod 10)));
      [| destruct (Z.even (a * 8 / 10))]; Z.div_mod_to_equations; lia.
  - destruct (Z.leb_spec a 500);
      [pose proof (Z_round_half_even_bounds (a * 85) 100) |
       pose proof (Z_round_half_even_bounds (a * 9) 10)];
      Z.div_mod_to_equations; lia.
Qed.

(** X3: the step size keys alone never reach the minimum.  Starting from
    the constructed microscope, after any sequence of
    [increase_step_size] and [decrease_step_size] calls the step size is a
    whole number of thousandths from 0.002 to 2.3 mm: [decrease_step_size]
    rounds 0.8 times 0.002 back to 0.002, so 0.001 mm is reached through
    precision mode only.  Stated over the reals. *)
Theorem step_keys_stay_above_minimum (now : R) (calls : list StepCall) :
  exists a : Z,
    step_size (run_steps (init now) calls) = (IZR a / 1000)%R
    /\ (2 <= a <= 2300)%Z.
Proof.
  exists (fold_left step_thousandths calls 100%Z). split.
  - apply run_steps_thousandths, init_step_thousandths.
  - assert (Hgen : forall a : Z,
               (2 <= a <= 2300)%Z ->
               (2 <= fold_left step_thousandths calls a <= 2300)%Z).
    { induction calls as [| c calls IH]; intros a Ha; [exact Ha |].
      cbn [fold_left]. apply IH. destruct c.
      - pose proof (step_thousandths_bounds a Increase ltac:(lia)) as Hb.
        split; [| lia]. cbn [step_thousandths]. unfold increase_thousandths.
        destruct (Z.ltb_spec a 2000); [| lia].
        destruct (Z.ltb_spec a 100);
          [pose proof (Z_round_half_even_bounds (a * 125) 100) |
           destruct (Z.ltb_spec a 500);
             [pose proof (Z_round_half_even_bounds (a * 12) 10) |
              pose proof (Z_round_half_even_bounds (a * 115) 100)]];
          Z.div_mod_to_equations; lia.
      - now apply decrease_thousandths_floor. }
    apply Hgen. lia.
Qed.

(** In binary64 arithmetic: forty decreases from the default step size end
    at 0.002 mm; precision mode entered after ten decreases, at 0.011 mm, gives
    0.001 mm, where
    [increase_step_size] returns 0.001 again. *)
Example step_floor_binary64 :
  let s := run_steps (init (@flit float _ 0 0)) (repeat Decrease 40) in
  let p :=
    snd (toggle_precision_mode
           (run_steps (init (@flit float _ 0 0)) (repeat Decrease 10))) in
  step_size s = flit 2 (-3)
  /\ step_size p = flit 1 (-3)
  /\ fst (increase_step_size p) = flit 1 (-3).
Proof. vm_compute. repeat split; reflexivity. Qed.

(** ** The stored measurements *)

Section DictEntries.
Context {K V : Type} (keq : K -> K -> bool).
Hypothesis keq_eq : forall a b : K, keq a b = true <-> a = b.

Lemma dict_get_None_keys (k : K) (d : dict K V) :
  dict_get keq k d = None -> ~ In k (dict_keys d).
Proof.
  induction d as [| [k' v'] d IH]; cbn [dict_get dict_keys map fst In].
  - tauto.
  - destruct (keq k' k) eqn:E; [discriminate |].
    intros Hget [Hk | Hk]; [| now apply IH].
    subst k'. now rewrite (keq_refl keq keq_eq) in E.
Qed.

Lemma dict_set_keys_NoDup (k : K) (v : V) (d : dict K V) :
  NoDup (dict_keys d) -> NoDup (dict_keys (dict_set keq k v d)).
Proof.
  intros Hnd. destruct (dict_mem keq k d) eqn:E.
  - now rewrite (dict_keys_set_present keq k v d E).
  - rewrite (dict_keys_set_absent keq k v d E).
    apply NoDup_app; [assumption | constructor; [intros [] | constructor] |].
    intros x Hx [Hk | []]. subst x.
    unfold dict_mem in E.
    destruct (dict_get keq k d) eqn:G; [discriminate |].
    now apply (dict_get_None_keys k d G).
Qed.

Lemma dict_set_In (k : K) (v : V) (d : dict K V) (k' : K) (v' : V) :
  In (k', v') (dict_set keq k v d) -> (k' = k /\ v' = v) \/ In (k', v') d.
Proof.
  induction d as [| [k0 v0] d IH]; cbn [dict_set In].
  - intros [[= <- <-] | []]. now left.
  - destruct (keq k0 k) eqn:E; cbn [In].
    + apply keq_eq in E. subst k0.
      intros [[= <- <-] | Hin]; [now left | right; now right].
    + intros [Heq | Hin]; [right; now left |].
      destruct (IH Hin) as [Hnew | Hold]; [now left | right; now right].
Qed.

Lemma dict_get_In (k : K) (v : V) (d : dict K V) :
  NoDup (dict_keys d) -> In (k, v) d -> dict_get keq k d = Some v.
Proof.
  induction d as [| [k0 v0] d IH]; cbn [dict_keys map fst In dict_get].
  - tauto.
  - intros Hnd [[= -> ->] | Hin].
    + now rewrite (keq_refl keq keq_eq).
    + inversion Hnd as [| ? ? Hnotin Hnd']; subst.
      destruct (keq k0 k) eqn:E; [| now apply IH].
      apply keq_eq in E. subst k0. exfalso. apply Hnotin.
      change (In (fst (k, v)) (map fst d)). now apply in_map.
Qed.

Lemma dict_get_Some_In (k : K) (v : V) (d : dict K V) :
  dict_get keq k d = Some v -> In (k, v) d.
Proof.
  induction d as [| [k0 v0] d IH]; cbn [dict_get In]; [discriminate |].
  destruct (keq k0 k) eqn:E.
  - apply keq_eq in E. subst k0. intros [= ->]. now left.
  - intros Hget. right. now apply IH.
Qed.
End DictEntries.

Lemma reachable_filed_by_position (s : TravelingMicroscope R) :
  reachable s -> filed_by_position (measurements s).
Proof.
  induction 1 as [now | s c Hs [IHn IHk]].
  - split; [constructor | intros k rd []].
  - destruct c as [m | [|] | | parent radii rnd ts | |]; cbn [exec do_step].
    + rewrite do_move_measurements. now split.
    + unfold increase_step_size. destruct (flt _ _); now split.
    + unfold decrease_step_size. destruct (flt _ _); now split.
    + unfold toggle_precision_mode. destruct (negb _); now split.
    + rewrite take_measurement_state. cbn [store_reading measurements]. split.
      * now apply (dict_set_keys_NoDup Reqb Reqb_iff).
      * intros k rd Hin.
        apply (dict_set_In Reqb Reqb_iff) in Hin as [[-> ->] | Hin].
        -- reflexivity.
        -- now apply IHk.
    + split; [constructor | intros k rd []].
    + now split.
Qed.

(** X4: the stored measurements are filed by position.  In every state
    the microscope can reach, the keys of [measurements] are pairwise
    different, and every stored reading lies under its own position
    rounded to 9 decimals and is what the dict returns for that key.
    Stated over the reals. *)
Theorem measurements_filed_by_position (s : TravelingMicroscope R) :
  reachable s ->
  NoDup (dict_keys (measurements s))
  /\ forall (k : R) (rd : Reading R),
       In (k, rd) (measurements s) ->
       k = fround (r_position rd) 9
       /\ dict_get feq (fround (r_position rd) 9) (measurements s) = Some rd.
Proof.
  intros Hs. destruct (reachable_filed_by_position s Hs) as [Hnd Hk].
  split; [exact Hnd |]. intros k rd Hin.
  pose proof (Hk k rd Hin) as Hkey. split; [exact Hkey |].
  rewrite <- Hkey. now apply (dict_get_In Reqb Reqb_iff).
Qed.

Lemma measurements_filed_by_position_witness :
  let s :=
    exec (exec (init 0%R) (CMove (MoveRight 1%R (1 / 10)%R)))
      (CMeasure None [0%R; 1%R] 0%R "12:00:00") in
  NoDup (dict_keys (measurements s))
  /\ forall (k : R) (rd : Reading R),
       In (k, rd) (measurements s) ->
       k = fround (r_position rd) 9
       /\ dict_get feq (fround (r_position rd) 9) (measurements s) = Some rd.
Proof.
  apply (measurements_filed_by_position
           (exec (exec (init 0%R) (CMove (MoveRight 1%R (1 / 10)%R)))
              (CMeasure None [0%R; 1%R] 0%R "12:00:00"))).
  apply reachable_exec, reachable_exec, reachable_init.
Defined.

(** *** The label looked up by position *)

Lemma sorted_readings_In (m : dict R (Reading R)) (rd : Reading R) :
  In rd (sorted_readings m) -> exists k : R, In (k, rd) m.
Proof.
  unfold sorted_readings. intros Hin.
  apply in_flat_map in Hin as [k [_ Hget]].
  destruct (dict_get feq k m) as [r |] eqn:G; [| contradiction].
  destruct Hget as [<- | []].
  exists k. now apply (dict_get_Some_In Reqb Reqb_iff).
Qed.

Lemma In_sorted_readings (m : dict R (Reading R)) (k : R) (rd : Reading R) :
  NoDup (dict_keys m) -> In (k, rd) m -> In rd (sorted_readings m).
Proof.
  intros Hnd Hin. unfold sorted_readings. apply in_flat_map.
  exists k. split.
  - unfold sorted_positions.
    eapply Permutation_in; [apply Permutation_sym, sorted_by_perm |].
    change (In (fst (k, rd)) (map fst m)). now apply in_map.
  - cbn [feq R_Num]. rewrite (dict_get_In Reqb Reqb_iff k rd m Hnd Hin).
    now left.
Qed.

(** X5: looking a stored reading up by its position finds that reading.
    In every state the microscope can reach, the search
    [next(r for r in records if r['position'] == pos)] of
    [display_microscope_measurements], run for the position of a stored
    reading, ends at that very reading, and so yields its own quality
    label and never raises [StopIteration]: two stored readings never
    share a position.  Stated over the reals. *)
Theorem label_lookup_finds_reading (s : TravelingMicroscope R)
  (rd : Reading R) :
  reachable s ->
  In rd (sorted_readings (measurements s)) ->
  find (fun r => feq (r_position r) (r_position rd))
    (sorted_readings (measurements s)) = Some rd
  /\ precision_at (sorted_readings (measurements s)) (r_position rd)
     = Some (r_precision rd).
Proof.
  intros Hs Hin.
  destruct (reachable_filed_by_position s Hs) as [Hnd Hk].
  assert (Hfind : find (fun r => feq (r_position r) (r_position rd))
                    (sorted_readings (measurements s)) = Some rd).
  { destruct (find _ _) as [r |] eqn:Hf.
    - apply find_some in Hf as [Hr Heq].
      cbn [feq R_Num] in Heq. apply Reqb_iff in Heq.
      destruct (sorted_readings_In _ _ Hr) as [k Hkr].
      destruct (sorted_readings_In _ _ Hin) as [k' Hkrd].
      pose proof (Hk k r Hkr) as E. pose proof (Hk k' rd Hkrd) as E'.
      rewrite Heq in E. rewrite <- E' in E. subst k'.
      pose proof (dict_get_In Reqb Reqb_iff k r _ Hnd Hkr) as G.
      pose proof (dict_get_In Reqb Reqb_iff k rd _ Hnd Hkrd) as G'.
      congruence.
    - exfalso. pose proof (find_none _ _ Hf rd Hin) as Hno.
      cbn [feq R_Num] in Hno. now rewrite Reqb_true in Hno. }
  split; [exact Hfind |]. unfold precision_at. now rewrite Hfind.
Qed.

Lemma label_lookup_finds_reading_witness :
  let s := exec (init 0%R) (CMeasure None [0%R; 1%R] 0%R "12:00:00") in
  let rd := make_reading (init 0%R) [0%R; 1%R] 0%R "12:00:00" in
  find (fun r => feq (r_position r) (r_position rd))
    (sorted_readings (measurements s)) = Some rd
  /\ precision_at (sorted_readings (measurements s)) (r_position rd)
     = Some (r_precision rd).
Proof.
  apply (label_lookup_finds_reading
           (exec (init 0%R) (CMeasure None [0%R; 1%R] 0%R "12:00:00"))).
  - apply reachable_exec, reachable_init.
  - apply (In_sorted_readings _ (fround (position (init 0%R)) 9)).
    + apply (reachable_filed_by_position
               (exec (init 0%R) (CMeasure None [0%R; 1%R] 0%R "12:00:00"))).
      apply reachable_exec, reachable_init.
    + unfold exec, take_measurement.
      cbn [fst store_reading measurements init dict_set In].
      left. reflexivity.
Defined.

(** ** The scan for the closest ring *)

Lemma lt_inf_Some (d m : R) : lt_inf d (Some m) = Rltb d m.
Proof. reflexivity. Qed.

Lemma scan_step_scanned (d : nat -> R) (pos : R) (n : nat) (acc : Scan R)
  (radius : R) :
  Rabs (Rabs pos - radius) = d n ->
  scanned d n acc -> scanned d (S n) (scan_step pos acc n radius).
Proof.
  intros Hd Hacc. unfold scan_step. cbn [fabs fsub R_Num]. rewrite Hd.
  destruct n as [| n'].
  - cbn [scanned] in Hacc. subst acc.
    cbn [scan_start min_distance lt_inf closest_ring second_closest
         second_min_distance scanned].
    exists 0%nat. repeat split; try lia.
    + intros j Hj. replace j with 0%nat by lia. lra.
  - cbn [scanned] in Hacc.
    destruct Hacc as [i [Hc [Hm [[Hi [Hle Hfirst]] Hsec]]]].
    rewrite Hm, lt_inf_Some.
    destruct (Rltb (d (S n')) (d i)) eqn:E.
    + (* a new closest ring; the old one becomes second *)
      apply Rltb_iff in E.
      cbn [scanned closest_ring min_distance second_closest
           second_min_distance].
      exists (S n'). split; [reflexivity |]. split; [reflexivity |].
      split.
      * split; [lia |]. split.
        -- intros j Hj. destruct (Nat.eq_dec j (S n')) as [-> | Hne]; [lra |].
           pose proof (Hle j ltac:(lia)). lra.
        -- intros j Hj. pose proof (Hle j Hj). lra.
      * exists i. rewrite Hc. split; [reflexivity |].
        split; [reflexivity |].
        split; [lia |]. split; [lia |].
        intros k Hk Hne. apply Hle. lia.
    + apply Rltb_false_iff in E.
      assert (Hnear : nearest d (S (S n')) i).
      { split; [lia |]. split; [| exact Hfirst].
        intros j Hj. destruct (Nat.eq_dec j (S n')) as [-> | Hne]; [lra |].
        apply Hle. lia. }
      destruct n' as [| n''].
      * (* the second ring scanned *)
        destruct Hsec as [Hs1 Hs2]. rewrite Hs2.
        cbn [lt_inf scanned closest_ring min_distance second_closest
             second_min_distance].
        exists i. split; [exact Hc |]. split; [first [exact Hm | reflexivity] |].
        split; [exact Hnear |].
        exists 1%nat. split; [reflexivity |]. split; [reflexivity |].
        split; [lia |]. split; [lia |].
        intros k Hk Hne. replace k with 1%nat by lia. lra.
      * destruct Hsec as [j [Hs1 [Hs2 [Hj [Hji Hothers]]]]].
        rewrite Hs2, lt_inf_Some.
        destruct (Rltb (d (S (S n''))) (d j)) eqn:E2.
        -- apply Rltb_iff in E2.
           cbn [scanned closest_ring min_distance second_closest
                second_min_distance].
           exists i. split; [exact Hc |]. split; [first [exact Hm | reflexivity] |].
           split; [exact Hnear |].
           exists (S (S n'')). split; [reflexivity |]. split; [reflexivity |].
           split; [lia |]. split; [lia |].
           intros k Hk Hne.
           destruct (Nat.eq_dec k (S (S n''))) as [-> | Hne']; [lra |].
           pose proof (Hothers k ltac:(lia) Hne). lra.
        -- apply Rltb_false_iff in E2.
           cbn [scanned].
           exists i. split; [exact Hc |]. split; [first [exact Hm | reflexivity] |].
           split; [exact Hnear |].
           exists j. split; [exact Hs1 |]. split; [exact Hs2 |].
           split; [lia |]. split; [exact Hji |].
           intros k Hk Hne.
           destruct (Nat.eq_dec k (S (S n''))) as [-> | Hne']; [lra |].
           apply Hothers; [lia | exact Hne].
Qed.

Lemma scan_from_scanned (pos : R) (ring_radii rest : list R)
  (pre : list R) (acc : Scan R) :
  ring_radii = pre ++ rest ->
  scanned (ring_distance pos ring_radii) (List.length pre) acc ->
  scanned (ring_distance pos ring_radii) (List.length ring_radii)
    (scan_from pos acc (List.length pre) rest).
Proof.
  revert pre acc. induction rest as [| radius rest IH]; intros pre acc Hsplit Hacc.
  - rewrite app_nil_r in Hsplit. subst pre. exact Hacc.
  - cbn [scan_from].
    replace (S (List.length pre)) with (List.length (pre ++ [radius]))
      by (rewrite length_app; cbn [List.length]; lia).
    apply IH.
    + now rewrite <- app_assoc.
    + rewrite length_app. cbn [List.length]. rewrite Nat.add_1_r.
      apply scan_step_scanned; [| exact Hacc].
      unfold ring_distance. rewrite Hsplit, app_nth2, Nat.sub_diag by lia.
      reflexivity.
Qed.

Lemma scan_scanned (pos : R) (ring_radii : list R) :
  scanned (ring_distance pos ring_radii) (List.length ring_radii)
    (scan pos ring_radii).
Proof.
  apply (scan_from_scanned pos ring_radii ring_radii []); reflexivity.
Qed.

(** X6: a measurement records the nearest ring.  For a non-empty ring
    table, the reading made by [take_measurement] has as closest ring the
    first ring of the table at the least distance
    [abs(abs(position) - radius)] and as distance from the ring that least
    distance.  Stated over the reals. *)
Theorem reading_has_nearest_ring (s : TravelingMicroscope R)
  (ring_radii : list R) (rnd : R) (ts : string) :
  ring_radii <> [] ->
  let rd := make_reading s ring_radii rnd ts in
  exists i : nat,
    r_closest_ring rd = Some i
    /\ r_distance_from_ring rd = Some (ring_distance (position s) ring_radii i)
    /\ nearest (ring_distance (position s) ring_radii)
         (List.length ring_radii) i.
Proof.
  intros Hne rd. subst rd. unfold make_reading.
  cbn [r_closest_ring r_distance_from_ring].
  pose proof (scan_scanned (position s) ring_radii) as Hsc.
  destruct ring_radii as [| r0 rest]; [contradiction |].
  cbn [List.length scanned] in Hsc.
  destruct Hsc as [i [Hc [Hm [Hnear _]]]].
  exists i. split; [exact Hc |]. split; [exact Hm | exact Hnear].
Qed.

Lemma reading_has_nearest_ring_witness :
  let rd := make_reading (init 0%R) [0%R; 1%R] 0%R "12:00:00" in
  exists i : nat,
    r_closest_ring rd = Some i
    /\ r_distance_from_ring rd
       = Some (ring_distance (position (init 0%R)) [0%R; 1%R] i)
    /\ nearest (ring_distance (position (init 0%R)) [0%R; 1%R])
         (List.length [0%R; 1%R]) i.
Proof.
  apply (reading_has_nearest_ring (init 0%R) [0%R; 1%R] 0%R "12:00:00").
  discriminate.
Defined.

(** X7: a measurement records the second nearest ring.  For a ring table
    of at least two entries, the second closest ring of the reading is a
    ring other than the closest one, at the least distance among all rings
    other than the closest one.  Stated over the reals. *)
Theorem reading_has_second_nearest_ring (s : TravelingMicroscope R)
  (ring_radii : list R) (rnd : R) (ts : string) :
  (2 <= List.length ring_radii)%nat ->
  let rd := make_reading s ring_radii rnd ts in
  exists i j : nat,
    r_closest_ring rd = Some i
    /\ r_second_closest_ring rd = Some j
    /\ second_nearest (ring_distance (position s) ring_radii)
         (List.length ring_radii) i j.
Proof.
  intros Hlen rd. subst rd. unfold make_reading.
  cbn [r_closest_ring r_second_closest_ring].
  pose proof (scan_scanned (position s) ring_radii) as Hsc.
  destruct ring_radii as [| r0 [| r1 rest]]; cbn [List.length] in Hlen; try lia.
  cbn [List.length scanned] in Hsc.
  destruct Hsc as [i [Hc [_ [_ [j [Hs [_ Hsec]]]]]]].
  exists i, j. split; [exact Hc |]. split; [exact Hs | exact Hsec].
Qed.

Lemma reading_has_second_nearest_ring_witness :
  let rd := make_reading (init 0%R) [0%R; 1%R] 0%R "12:00:00" in
  exists i j : nat,
    r_closest_ring rd = Some i
    /\ r_second_closest_ring rd = Some j
    /\ second_nearest (ring_distance (position (init 0%R)) [0%R; 1%R])
         (List.length [0%R; 1%R]) i j.
Proof.
  apply (reading_has_second_nearest_ring (init 0%R) [0%R; 1%R] 0%R "12:00:00").
  cbn [List.length]. lia.
Defined.

Section LiveViewFacts.
Context {F : Type} `{Num F}.

Lemma nearest_from_scan_from (pos : F) (ring_radii : list F) (n : nat)
  (acc : Scan F) :
  nearest_from pos (closest_ring acc, min_distance acc) n ring_radii
  = (closest_ring (scan_from pos acc n ring_radii),
     min_distance (scan_from pos acc n ring_radii)).
Proof.
  revert n acc. induction ring_radii as [| radius rest IH]; intros n acc.
  - reflexivity.
  - cbn [nearest_from scan_from]. rewrite <- IH. f_equal.
    unfold nearest_step, scan_step. cbn [snd].
    destruct (lt_inf _ (min_distance acc)); [reflexivity |].
    destruct (lt_inf _ (second_min_distance acc)); reflexivity.
Qed.

(** X8: the live view and the measurement agree.  The nearest ring and
    its distance that [display_microscope_view] computes for a position are
    the closest ring and the distance from it that [take_measurement]
    records in a reading at that position, for any ring table.  For every
    interpretation of the arithmetic. *)
Theorem live_view_agrees_with_reading (s : TravelingMicroscope F)
  (ring_radii : list F) (rnd : F) (ts : string) :
  nearest_ring (position s) ring_radii
  = (r_closest_ring (make_reading s ring_radii rnd ts),
     r_distance_from_ring (make_reading s ring_radii rnd ts)).
Proof.
  unfold make_reading. cbn [r_closest_ring r_distance_from_ring].
  unfold nearest_ring, scan.
  exact (nearest_from_scan_from (position s) ring_radii 0 scan_start).
Qed.
End LiveViewFacts.

(** ** What a reading says *)

Lemma scan_min_distance_nonneg (pos : R) (ring_radii : list R) (d : R) :
  min_distance (scan pos ring_radii) = Some d -> (0 <= d)%R.
Proof.
  pose proof (scan_scanned pos ring_radii) as Hsc.
  destruct ring_radii as [| r0 rest].
  - cbn [List.length scanned] in Hsc. rewrite Hsc. discriminate.
  - cbn [List.length scanned] in Hsc.
    destruct Hsc as [i [_ [Hm _]]]. rewrite Hm. intros [= <-].
    apply Rabs_pos.
Qed.

Lemma noise_scale_of_range (md : option R) :
  (0 < noise_scale_of md <= 1)%R.
Proof.
  unfold noise_scale_of.
  destruct (inf_lt md _); [r_ops; lra |].
  destruct (inf_lt md _); [r_ops; lra |].
  destruct (inf_lt md _); r_ops; lra.
Qed.

(** X9: how far a reading is from the position.  When the random sample
    lies in [-1, 1], as [random.triangular(-1.0, 1.0, 0.0)] does, the
    reading made by [take_measurement] differs from the position by at most
    its own noise estimate, which is positive and at most 0.01 mm (0.001 mm
    in precision mode); and its alignment quality lies between 99 and 100,
    whatever the distance from the ring.  Stated over the reals. *)
Theorem reading_within_noise_estimate (s : TravelingMicroscope R)
  (ring_radii : list R) (rnd : R) (ts : string) :
  (-1 <= rnd <= 1)%R ->
  let rd := make_reading s ring_radii rnd ts in
  (Rabs (r_reading rd - r_position rd) <= r_noise_estimate rd)%R
  /\ (0 < r_noise_estimate rd
      <= (if precision_mode s then 1 / 1000 else 1 / 100))%R
  /\ (99 <= r_alignment_quality rd <= 100)%R.
Proof.
  intros Hrnd rd. subst rd. unfold make_reading.
  cbn [r_reading r_position r_noise_estimate r_alignment_quality].
  pose proof (noise_scale_of_range (min_distance (scan (position s) ring_radii)))
    as Hscale.
  set (scale := noise_scale_of _) in *.
  split; [| split].
  - cbn [fadd fsub fmul R_Num].
    replace (position s + rnd * _ * scale - position s)%R
      with (rnd * ((if precision_mode s then flit 1 (-2) * flit 1 (-1)
                    else flit 1 (-2)) * scale))%R
      by (cbn [fmul R_Num]; ring).
    set (b := ((if precision_mode s then _ else _) * scale)%R).
    assert (Hb : (0 <= b)%R).
    { unfold b. destruct (precision_mode s); r_ops; nra. }
    apply Rabs_le. split; nra.
  - destruct (precision_mode s); r_ops; nra.
  - destruct (min_distance (scan (position s) ring_radii)) as [d |] eqn:Hd.
    + apply scan_min_distance_nonneg in Hd.
      rewrite py_min_Rmin. r_ops.
      unfold Rmin. destruct (Rle_dec 1 (d * 100)); lra.
    + r_ops. lra.
Qed.

Lemma reading_within_noise_estimate_witness :
  let s := init 0%R in
  let rd := make_reading s [0%R; 1%R] (1 / 2)%R "12:00:00" in
  (Rabs (r_reading rd - r_position rd) <= r_noise_estimate rd)%R
  /\ (0 < r_noise_estimate rd
      <= (if precision_mode s then 1 / 1000 else 1 / 100))%R
  /\ (99 <= r_alignment_quality rd <= 100)%R.
Proof.
  apply (reading_within_noise_estimate (init 0%R) [0%R; 1%R] (1 / 2)%R
           "12:00:00").
  lra.
Defined.

(** *** A measurement on the edge of a ring *)

Lemma reading_on_ring (s : TravelingMicroscope R) (ring_radii : list R)
  (m : nat) (rnd : R) (ts : string) :
  (m < List.length ring_radii)%nat ->
  nth m ring_radii 0%R = Rabs (position s) ->
  (forall j : nat, (j < List.length ring_radii)%nat ->
     nth j ring_radii 0%R = nth m ring_radii 0%R -> j = m) ->
  (Rabs (instantaneous_velocity (sub_pixel_positions s)) < 1 / 1000)%R ->
  let rd := make_reading s ring_radii rnd ts in
  r_closest_ring rd = Some m
  /\ r_distance_from_ring rd = Some 0%R
  /\ r_precision rd = UltraHigh
  /\ r_alignment_quality rd = 100%R.
Proof.
  intros Hm Hpos Hdistinct Hvel rd. subst rd. unfold make_reading.
  cbn [r_closest_ring r_distance_from_ring r_precision r_alignment_quality].
  pose proof (scan_scanned (position s) ring_radii) as Hsc.
  destruct ring_radii as [| r0 rest] eqn:Hradii;
    [cbn [List.length] in Hm; lia |].
  rewrite <- Hradii in *.
  assert (Hlen : List.length ring_radii = S (List.length rest))
    by (now rewrite Hradii).
  rewrite Hlen in Hsc. cbn [scanned] in Hsc.
  destruct Hsc as [i [Hc [Hmin [[Hi [Hle _]] _]]]].
  assert (Hdm : ring_distance (position s) ring_radii m = 0%R).
  { unfold ring_distance. rewrite Hpos, Rminus_diag. apply Rabs_R0. }
  assert (Hdi : ring_distance (position s) ring_radii i = 0%R).
  { pose proof (Hle m ltac:(lia)) as H1. rewrite Hdm in H1.
    pose proof (Rabs_pos (Rabs (position s) - nth i ring_radii 0%R)) as H2.
    unfold ring_distance in *. lra. }
  assert (Him : i = m).
  { apply Hdistinct; [lia |]. unfold ring_distance in Hdi.
    destruct (Req_dec (Rabs (position s) - nth i ring_radii 0%R) 0%R)
      as [E | E].
    - lra.
    - apply Rabs_no_R0 in E. contradiction. }
  subst i. rewrite Hc, Hmin, Hdi.
  split; [reflexivity |]. split; [reflexivity |].
  split.
  - unfold quality_of. cbn [inf_lt]. r_ops.
    rewrite (Rltb_true 0 (1 / 1000)) by lra.
    rewrite (Rltb_true _ _ Hvel). reflexivity.
  - rewrite py_min_Rmin. r_ops. rewrite Rmult_0_l.
    unfold Rmin. destruct (Rle_dec 1 0); lra.
Qed.

(** X10: a measurement on the edge of a ring.  With positive wavelength,
    radius of curvature and refractive index, a measurement taken at rest
    (instantaneous velocity below 0.001 mm/s) exactly on the left or right
    edge of ring [m] of the table that [calculate_ring_radii] computes
    returns a reading with closest ring [m], distance 0 from it, the label
    Ultra-High and alignment quality 100, and files the position under
    ring [m] in the left measurements of the simulation when it is
    negative, in the right measurements otherwise.  Stated over the
    reals. *)
Theorem measurement_on_ring_edge (sim : NewtonRingsSimulation R)
  (mic : TravelingMicroscope R) (m : nat) (rnd : R) (ts : string) :
  (0 < wavelength sim)%R ->
  (0 < radius_of_curvature sim)%R ->
  (0 < refractive_index sim)%R ->
  (1 <= m <= MAX_RINGS)%nat ->
  Rabs (position mic) = table_entry sim m ->
  (Rabs (instantaneous_velocity (sub_pixel_positions mic)) < 1 / 1000)%R ->
  let sim' := fst (calculate_ring_radii sim) in
  let result :=
    take_measurement mic (Some (session sim')) (ring_radii sim') rnd ts in
  exists (rd : Reading R) (p' : Parent R),
    snd result = inl rd
    /\ snd (fst result) = Some p'
    /\ r_closest_ring rd = Some m
    /\ r_distance_from_ring rd = Some 0%R
    /\ r_precision rd = UltraHigh
    /\ r_alignment_quality rd = 100%R
    /\ (if flt (position mic) (flit 0 0) then
          dict_get Nat.eqb m (left_measurements p') = Some (position mic)
          /\ right_measurements p' = right_measurements (session sim)
        else
          dict_get Nat.eqb m (right_measurements p') = Some (position mic)
          /\ left_measurements p' = left_measurements (session sim)).
Proof.
  intros Hw Hr Hi [Hm1 Hm2] Hpos Hvel sim' result. subst result sim'.
  rewrite calculate_ring_radii_table by assumption.
  cbn [fst set_ring_radii ring_radii session].
  set (radii := map (table_entry sim) (seq 0 (MAX_RINGS + 1))).
  assert (Hlen : List.length radii = (MAX_RINGS + 1)%nat)
    by (unfold radii; now rewrite length_map, length_seq).
  destruct (reading_on_ring mic radii m rnd ts) as [Hc [Hd [Hq Ha]]].
  - lia.
  - unfold radii. rewrite table_nth by assumption. now symmetry.
  - intros j Hj. unfold radii. rewrite !table_nth by lia. intros Heq.
    destruct (Nat.lt_trichotomy j m) as [Hlt | [Heq' | Hgt]]; [| exact Heq' |].
    + pose proof (table_entry_lt sim Hw Hr Hi j m Hlt). lra.
    + pose proof (table_entry_lt sim Hw Hr Hi m j Hgt). lra.
  - exact Hvel.
  - unfold take_measurement. rewrite Hc.
    destruct (Nat.ltb_spec 0 m) as [_ | Hz]; [| lia].
    destruct (flt (position mic) (flit 0 0)); cbn [fst snd];
      eexists; eexists; (split; [reflexivity |]); (split; [reflexivity |]);
      (split; [exact Hc |]); (split; [exact Hd |]); (split; [exact Hq |]);
      (split; [exact Ha |]);
      cbn [left_measurements right_measurements];
      (split; [apply (dict_get_set_same Nat.eqb Nat.eqb_eq) | reflexivity]).
Qed.

Lemma measurement_on_ring_edge_witness :
  let sim := default_parameters 0%R in
  let mic := microscope_at (- table_entry sim 5)%R in
  let sim' := fst (calculate_ring_radii sim) in
  let result :=
    take_measurement mic (Some (session sim')) (ring_radii sim') 0%R
      "12:00:00" in
  exists (rd : Reading R) (p' : Parent R),
    snd result = inl rd
    /\ snd (fst result) = Some p'
    /\ r_closest_ring rd = Some 5%nat
    /\ r_distance_from_ring rd = Some 0%R
    /\ r_precision rd = UltraHigh
    /\ r_alignment_quality rd = 100%R
    /\ (if flt (position mic) (flit 0 0) then
          dict_get Nat.eqb 5 (left_measurements p') = Some (position mic)
          /\ right_measurements p' = right_measurements (session sim)
        else
          dict_get Nat.eqb 5 (right_measurements p') = Some (position mic)
          /\ left_measurements p' = left_measurements (session sim)).
Proof.
  destruct (default_parameters_positive 0%R) as [Hw [Hr Hi]].
  apply (measurement_on_ring_edge (default_parameters 0%R)
           (microscope_at (- table_entry (default_parameters 0%R) 5)%R) 5
           0%R "12:00:00" Hw Hr Hi).
  - unfold MAX_RINGS. lia.
  - cbn [microscope_at position]. rewrite Rabs_Ropp. apply Rabs_pos_eq.
    left. apply formula_radius_pos; try assumption. lia.
  - cbn [microscope_at sub_pixel_positions]. unfold instantaneous_velocity.
    cbn [rev]. r_ops. rewrite Rabs_R0. lra.
Defined.

(** ** Travel in one direction *)

Lemma elapsed_nonneg (lu now : R) :
  (lu <= now)%R -> (0 <= Rmin (1 / 10) (now - lu))%R.
Proof. intros Hle. apply Rmin_glb; lra. Qed.

Lemma move_right_toward (s : TravelingMicroscope R) (factor now last : R) :
  travel_invariant DRight last s ->
  (0 < step_size s)%R -> (0 <= factor)%R -> (last <= now)%R ->
  travel_invariant DRight now (snd (move_right s factor now)).
Proof.
  intros [Hmax [Hsm [Hlu [Hpos Hvel]]]] Hstep Hfactor Hnow.
  unfold move_right. cbn [flt R_Num].
  destruct (Rltb (position s) (max_position s)) eqn:E.
  - rewrite py_min_Rmin. r_ops.
    pose proof (elapsed_nonneg (last_update_time s) now ltac:(lra)) as Hdt.
    set (dt := Rmin (1 / 10) (now - last_update_time s)) in *.
    set (v1 := (velocity s * movement_smoothness s + _)%R).
    assert (Hv1 : (0 <= v1)%R).
    { unfold v1.
      assert (H1 : (0 <= velocity s * movement_smoothness s)%R)
        by (apply Rmult_le_pos; lra).
      assert (H2 : (0 <= step_size s * factor)%R)
        by (apply Rmult_le_pos; lra).
      assert (H3 : (0 <= 1 - movement_smoothness s)%R) by lra.
      destruct (precision_mode s);
        (apply Rplus_le_le_0_compat; [exact H1 |]);
        apply Rmult_le_pos; try exact H3; lra. }
    assert (Hadv : (0 <= v1 * dt)%R) by (now apply Rmult_le_pos).
    cbn [snd]. unfold travel_invariant.
    cbn [max_position movement_smoothness last_update_time position velocity].
    split; [exact Hmax |]. split; [exact Hsm |]. split; [lra |].
    destruct (Rltb (max_position s) (position s + v1 * dt)) eqn:E2.
    + rewrite Hmax. split; lra.
    + apply Rltb_false_iff in E2. rewrite Hmax in E2. split; lra.
  - cbn [snd]. unfold travel_invariant.
    cbn [max_position movement_smoothness last_update_time position velocity].
    r_ops. split; [exact Hmax |]. split; [exact Hsm |]. split; [lra |].
    split; lra.
Qed.

Lemma move_left_toward (s : TravelingMicroscope R) (factor now last : R) :
  travel_invariant DLeft last s ->
  (0 < step_size s)%R -> (0 <= factor)%R -> (last <= now)%R ->
  travel_invariant DLeft now (snd (move_left s factor now)).
Proof.
  intros [Hmax [Hsm [Hlu [Hpos Hvel]]]] Hstep Hfactor Hnow.
  unfold move_left. cbn [flt fneg R_Num].
  destruct (Rltb (- max_position s) (position s)) eqn:E.
  - rewrite py_min_Rmin. r_ops.
    pose proof (elapsed_nonneg (last_update_time s) now ltac:(lra)) as Hdt.
    set (dt := Rmin (1 / 10) (now - last_update_time s)) in *.
    set (v1 := (velocity s * movement_smoothness s + _)%R).
    assert (Hv1 : (v1 <= 0)%R).
    { unfold v1.
      assert (H1 : (0 <= - velocity s * movement_smoothness s)%R)
        by (apply Rmult_le_pos; lra).
      assert (H2 : (0 <= step_size s * factor)%R)
        by (apply Rmult_le_pos; lra).
      assert (H3 : (0 <= 1 - movement_smoothness s)%R) by lra.
      destruct (precision_mode s).
      - assert (H4 : (0 <= step_size s * factor / 10 * 10
                           * (1 - movement_smoothness s))%R)
          by (apply Rmult_le_pos; lra).
        lra.
      - assert (H4 : (0 <= step_size s * factor * 10
                           * (1 - movement_smoothness s))%R)
          by (apply Rmult_le_pos; lra).
        lra. }
    assert (Hadv : (0 <= - v1 * dt)%R) by (apply Rmult_le_pos; lra).
    cbn [snd]. unfold travel_invariant.
    cbn [max_position movement_smoothness last_update_time position velocity].
    split; [exact Hmax |]. split; [exact Hsm |]. split; [lra |].
    destruct (Rltb (position s + v1 * dt) (- max_position s)) eqn:E2.
    + rewrite Hmax. split; lra.
    + apply Rltb_false_iff in E2. rewrite Hmax in E2. split; lra.
  - cbn [snd]. unfold travel_invariant.
    cbn [max_position movement_smoothness last_update_time position velocity].
    r_ops. split; [exact Hmax |]. split; [exact Hsm |]. split; [lra |].
    split; lra.
Qed.

Lemma reachable_step_size_pos (s : TravelingMicroscope R) :
  reachable s -> (0 < step_size s)%R.
Proof.
  intros Hs. destruct (reachable_step_invariant s Hs) as [[a [Ha [Ha1 _]]] _].
  rewrite Ha. apply IZR_le in Ha1. lra.
Qed.

Lemma exec_toward (dir : Direction) (s : TravelingMicroscope R)
  (c : Command R) (last : R) :
  reachable s ->
  travel_invariant dir last s ->
  toward dir c = true ->
  clock_monotone last (moves_of [c]) = true ->
  exists last' : R,
    travel_invariant dir last' (exec s c)
    /\ forall rest : list (Command R),
         clock_monotone last (moves_of (c :: rest)) = true ->
         clock_monotone last' (moves_of rest) = true.
Proof.
  intros Hs Hinv Htow Hclock.
  pose proof (reachable_step_size_pos s Hs) as Hstep.
  destruct c as [[factor now | factor now] | st | | parent radii rnd ts | |].
  - destruct dir; cbn [toward] in Htow; [| discriminate].
    cbn [moves_of flat_map app clock_monotone fle R_Num] in Hclock.
    apply andb_true_iff in Hclock as [Hnow _].
    cbn [fle R_Num] in Htow. r_ops.
    unfold Rleb in *. destruct (Rle_dec last now); [| discriminate].
    revert Htow. r_ops. destruct (Rle_dec 0 factor); [| discriminate].
    intros _. exists now. split.
    + cbn [exec do_move]. now apply (move_left_toward s factor now last).
    + intros rest Hrest.
      cbn [moves_of flat_map app clock_monotone] in Hrest.
      now apply andb_true_iff in Hrest as [_ Hrest].
  - destruct dir; cbn [toward] in Htow; [discriminate |].
    cbn [moves_of flat_map app clock_monotone fle R_Num] in Hclock.
    apply andb_true_iff in Hclock as [Hnow _].
    cbn [fle R_Num] in Htow.
    unfold Rleb in *. destruct (Rle_dec last now); [| discriminate].
    revert Htow. r_ops. destruct (Rle_dec 0 factor); [| discriminate].
    intros _. exists now. split.
    + cbn [exec do_move]. now apply (move_right_toward s factor now last).
    + intros rest Hrest.
      cbn [moves_of flat_map app clock_monotone] in Hrest.
      now apply andb_true_iff in Hrest as [_ Hrest].
  - exists last. split; [| intros rest Hrest; exact Hrest].
    destruct st; cbn [exec do_step].
    + unfold increase_step_size. destruct (flt _ _); exact Hinv.
    + unfold decrease_step_size. destruct (flt _ _); exact Hinv.
  - exists last. split; [| intros rest Hrest; exact Hrest].
    destruct Hinv as [Hmax [Hsm [Hlu Hdir]]].
    cbn [exec]. unfold toggle_precision_mode.
    destruct (negb (precision_mode s)); cbn [snd]; unfold travel_invariant;
      cbn [max_position movement_smoothness last_update_time position
           velocity];
      r_ops; (split; [exact Hmax |]); (split; [lra |]); (split; [exact Hlu |]);
      destruct dir; (split; [apply Hdir | lra]).
  - exists last. split; [| intros rest Hrest; exact Hrest].
    cbn [exec]. rewrite take_measurement_state. exact Hinv.
  - exists last. split; [| intros rest Hrest; exact Hrest]. exact Hinv.
  - exists last. split; [| intros rest Hrest; exact Hrest]. exact Hinv.
Qed.

Lemma run_toward (dir : Direction) (commands : list (Command R))
  (s : TravelingMicroscope R) (last : R) :
  reachable s ->
  travel_invariant dir last s ->
  forallb (toward dir) commands = true ->
  clock_monotone last (moves_of commands) = true ->
  exists last' : R, travel_invariant dir last' (run_commands s commands).
Proof.
  revert s last. induction commands as [| c rest IH];
    intros s last Hs Hinv Htow Hclock.
  - now exists last.
  - cbn [forallb] in Htow. apply andb_true_iff in Htow as [Hc Hrest].
    assert (Hclock1 : clock_monotone last (moves_of [c]) = true).
    { destruct c as [[factor now | factor now] | | | | |];
        cbn [moves_of flat_map app clock_monotone] in *; try reflexivity;
        apply andb_true_iff in Hclock as [H1 _]; now rewrite H1. }
    destruct (exec_toward dir s c last Hs Hinv Hc Hclock1)
      as [last' [Hinv' Hnext]].
    unfold run_commands. cbn [fold_left].
    apply (IH (exec s c) last'); auto.
    now apply reachable_exec.
Qed.

(** X11: travel in one direction respects the limits.  Starting from the
    constructed microscope, a run of commands whose moves all go right (or
    all go left) with factors that are not negative, on a clock that does
    not run backwards, and with any step size changes, precision mode
    toggles and measurements in between, keeps the position between the
    centre and the limit of that side, 30 mm away, and never leaves a
    velocity pointing back.  Stated over the reals. *)
Theorem one_way_travel_within_limits (dir : Direction) (now : R)
  (commands : list (Command R)) :
  forallb (toward dir) commands = true ->
  clock_monotone now (moves_of commands) = true ->
  let s := run_commands (init now) commands in
  max_position s = 30%R
  /\ match dir with
     | DRight => (0 <= position s <= 30)%R /\ (0 <= velocity s)%R
     | DLeft => (-30 <= position s <= 0)%R /\ (velocity s <= 0)%R
     end.
Proof.
  intros Htow Hclock s. subst s.
  destruct (run_toward dir commands (init now) now) as [last [Hmax [_ [_ Hdir]]]].
  - apply reachable_init.
  - unfold travel_invariant.
    cbn [init max_position movement_smoothness last_update_time position
         velocity].
    r_ops. split; [reflexivity |]. split; [lra |]. split; [lra |].
    destruct dir; split; lra.
  - exact Htow.
  - exact Hclock.
  - split; assumption.
Qed.

Lemma one_way_travel_within_limits_witness :
  let commands :=
    [CMove (MoveRight 1000%R (1 / 10)%R); CStep Increase;
     CMove (MoveRight 1%R (2 / 10)%R)] in
  let s := run_commands (init 0%R) commands in
  max_position s = 30%R
  /\ (0 <= position s <= 30)%R /\ (0 <= velocity s)%R.
Proof.
  apply (one_way_travel_within_limits DRight 0%R
           [CMove (MoveRight 1000%R (1 / 10)%R); CStep Increase;
            CMove (MoveRight 1%R (2 / 10)%R)]).
  - cbn [forallb toward]. r_ops. r_cmp. reflexivity.
  - cbn [moves_of flat_map app clock_monotone]. r_ops. r_cmp. reflexivity.
Defined.

(** ** The least-squares slope *)

Lemma fold_left_Zadd (l : list Z) (a : Z) :
  fold_left Z.add l a = (a + Zsum l)%Z.
Proof.
  revert a. induction l as [| x l IH]; intros a; cbn [fold_left Zsum].
  - lia.
  - rewrite IH. lia.
Qed.

Lemma fold_left_Rplus (l : list R) (a : R) :
  fold_left Rplus l a = (a + Rsum l)%R.
Proof.
  revert a. induction l as [| x l IH]; intros a; cbn [fold_left Rsum].
  - lra.
  - rewrite IH. lra.
Qed.

Lemma py_sum_Rsum (l : list R) : py_sum l = Rsum l.
Proof.
  unfold py_sum. cbn [fadd flit R_Num]. rewrite fold_left_Rplus.
  r_ops. lra.
Qed.

Lemma squared_differences (x : Z) (l : list Z) :
  Zsum (map (fun y => ((x - y) ^ 2)%Z) l)
  = (Z.of_nat (List.length l) * x ^ 2 - 2 * x * Zsum l
     + Zsum (map (fun y => (y ^ 2)%Z) l))%Z.
Proof.
  induction l as [| y l IH]; cbn [map Zsum List.length].
  - lia.
  - rewrite IH, Nat2Z.inj_succ. ring.
Qed.

Lemma squared_differences_nonneg (x : Z) (l : list Z) :
  (0 <= Zsum (map (fun y => ((x - y) ^ 2)%Z) l))%Z.
Proof.
  induction l as [| y l IH]; cbn [map Zsum]; [lia |].
  pose proof (Z.pow_even_nonneg (x - y) 2 (ex_intro _ 1%Z eq_refl)). lia.
Qed.

Lemma spread_cons (x : Z) (l : list Z) :
  spread (x :: l) = (spread l + Zsum (map (fun y => ((x - y) ^ 2)%Z) l))%Z.
Proof.
  unfold spread. rewrite squared_differences.
  cbn [map Zsum List.length]. rewrite Nat2Z.inj_succ. ring.
Qed.

Lemma spread_nonneg (l : list Z) : (0 <= spread l)%Z.
Proof.
  induction l as [| x l IH]; [unfold spread; cbn; lia |].
  rewrite spread_cons. pose proof (squared_differences_nonneg x l). lia.
Qed.

(** Two different ring numbers make the denominator positive. *)
Lemma spread_pos (l : list Z) :
  NoDup l -> (2 <= List.length l)%nat -> (0 < spread l)%Z.
Proof.
  intros Hnd Hlen. destruct l as [| x [| y l]]; cbn [List.length] in Hlen;
    try lia.
  rewrite spread_cons. cbn [map Zsum].
  pose proof (spread_nonneg (y :: l)).
  pose proof (squared_differences_nonneg x l).
  assert (Hxy : x <> y).
  { inversion Hnd as [| ? ? Hnotin _]; subst. intros ->. apply Hnotin.
    now left. }
  assert (0 < (x - y) ^ 2)%Z by nia.
  lia.
Qed.

Section Slope.
Context {F : Type} `{Num F}.

Lemma regression_slope_spread (points : list (nat * F)) :
  regression_slope points
  = if (spread (ring_numbers points) =? 0)%Z then inr ZeroDivisionError
    else
      inl (fdiv
             (fsub
                (fmul (flit (Z.of_nat (List.length points)) 0)
                   (py_sum
                      (map (fun xy => fmul (flit (Z.of_nat (fst xy)) 0)
                                        (snd xy)) points)))
                (fmul (flit (Zsum (ring_numbers points)) 0)
                   (py_sum (map snd points))))
             (flit (spread (ring_numbers points)) 0)).
Proof.
  unfold regression_slope, spread, ring_numbers.
  rewrite !fold_left_Zadd, !Z.add_0_l, !length_map. reflexivity.
Qed.

Lemma ring_numbers_NoDup (points : list (nat * F)) :
  NoDup (map fst points) -> NoDup (ring_numbers points).
Proof.
  intros Hnd. unfold ring_numbers. rewrite <- (map_map fst Z.of_nat).
  apply Finite.Injective_map_NoDup; [| exact Hnd].
  intros a b. apply Nat2Z.inj.
Qed.

Lemma regression_slope_defined (points : list (nat * F)) :
  NoDup (map fst points) -> (2 <= List.length points)%nat ->
  exists slope : F, regression_slope points = inl slope.
Proof.
  intros Hnd Hlen. rewrite regression_slope_spread.
  pose proof (spread_pos (ring_numbers points) (ring_numbers_NoDup _ Hnd))
    as Hpos.
  unfold ring_numbers in Hpos at 1. rewrite length_map in Hpos.
  specialize (Hpos Hlen).
  destruct (Z.eqb_spec (spread (ring_numbers points)) 0) as [E | E]; [lia |].
  eexists. reflexivity.
Qed.

Lemma valid_rings_NoDup (s : NewtonRingsSimulation F) :
  NoDup (dict_keys (left_measurements (session s))) ->
  NoDup (map fst (valid_rings_and_squares s)).
Proof.
  intros Hnd. unfold valid_rings_and_squares. rewrite complete_rings_filter.
  apply NoDup_filter.
  eapply Permutation_NoDup; [| exact Hnd].
  apply Permutation_sym, sorted_by_perm.
Qed.
End Slope.

(** X12: the radius calculation raises nothing.  For a wavelength and a
    radius of curvature other than zero, on any measurements
    [calculate_radius_from_measurements] returns a report and leaves the
    state as it was: with fewer than two complete rings the message that
    two are needed, otherwise the results.  The denominator
    [n * sum(x^2) - sum(x)^2] of the slope is positive, since the ring
    numbers are the pairwise different keys of a dict.  Stated over the
    reals. *)
Theorem radius_calculation_raises_nothing (s : NewtonRingsSimulation R) :
  wavelength s <> 0%R ->
  radius_of_curvature s <> 0%R ->
  NoDup (dict_keys (left_measurements (session s))) ->
  exists report : RadiusReport R,
    calculate_radius_from_measurements s = (s, inl report)
    /\ (report = NeedTwoRings
        <-> (List.length (valid_rings_and_squares s) < 2)%nat).
Proof.
  intros Hw Hr Hnd. unfold calculate_radius_from_measurements.
  destruct (Nat.ltb_spec (List.length (valid_rings_and_squares s)) 2)
    as [Hlt | Hge].
  - exists NeedTwoRings. split; [reflexivity | tauto].
  - destruct (regression_slope_defined (valid_rings_and_squares s)
                (valid_rings_NoDup s Hnd) Hge) as [slope ->].
    unfold py_div. r_ops.
    rewrite (Reqb_false (wavelength s * (1 / 10000000)))
      by (intros E; apply Hw; lra).
    rewrite (Reqb_false (radius_of_curvature s / 10000000))
      by (intros E; apply Hr; lra).
    eexists. split; [reflexivity |].
    split; [discriminate | lia].
Qed.

Lemma radius_calculation_raises_nothing_witness :
  let s :=
    set_session (default_parameters 0%R)
      {| left_measurements := [(1%nat, (-1)%R); (2%nat, (-2)%R)];
         right_measurements := [(1%nat, 1%R); (2%nat, 2%R)] |} in
  exists report : RadiusReport R,
    calculate_radius_from_measurements s = (s, inl report)
    /\ (report = NeedTwoRings
        <-> (List.length (valid_rings_and_squares s) < 2)%nat).
Proof.
  apply (radius_calculation_raises_nothing
           (set_session (default_parameters 0%R)
              {| left_measurements := [(1%nat, (-1)%R); (2%nat, (-2)%R)];
                 right_measurements := [(1%nat, 1%R); (2%nat, 2%R)] |})).
  - cbn [set_session wavelength default_parameters]. r_ops. lra.
  - cbn [set_session radius_of_curvature default_parameters]. r_ops. lra.
  - cbn [set_session session left_measurements dict_keys map fst].
    repeat constructor; cbn [In]; lia.
Defined.

(** *** Exactly linear data *)

Lemma linear_sums (points : list (nat * R)) (a b : R) :
  (forall (x : nat) (y : R), In (x, y) points -> y = (a * INR x + b)%R) ->
  Rsum (map snd points)
  = (a * IZR (Zsum (ring_numbers points))
     + IZR (Z.of_nat (List.length points)) * b)%R
  /\ Rsum (map (fun xy => (INR (fst xy) * snd xy)%R) points)
     = (a * IZR (Zsum (map (fun x => (x ^ 2)%Z) (ring_numbers points)))
        + b * IZR (Zsum (ring_numbers points)))%R.
Proof.
  induction points as [| [x y] points IH]; intros Hlin.
  - cbn. split; lra.
  - destruct IH as [IH1 IH2];
      [intros x' y' Hin; apply Hlin; now right |].
    pose proof (Hlin x y (or_introl eq_refl)) as Hy.
    cbn [map snd fst Rsum ring_numbers Zsum List.length].
    fold (ring_numbers points).
    rewrite IH1, IH2, Nat2Z.inj_succ, succ_IZR, !plus_IZR, Z.pow_2_r,
      mult_IZR, <- !INR_IZR_INZ, Hy.
    split; ring.
Qed.

(** X13: the regression recovers the slope of exactly linear data.  When
    the squared diameters of at least two rings with pairwise different
    numbers lie exactly on a line [a * ring + b], the slope computed by
    the linear regression of [calculate_radius_from_measurements] is [a],
    whatever the intercept [b].  Stated over the reals. *)
Theorem regression_slope_of_linear_data (points : list (nat * R))
  (a b : R) :
  NoDup (map fst points) ->
  (2 <= List.length points)%nat ->
  (forall (x : nat) (y : R), In (x, y) points -> y = (a * INR x + b)%R) ->
  regression_slope points = inl a.
Proof.
  intros Hnd Hlen Hlin. rewrite regression_slope_spread.
  pose proof (spread_pos (ring_numbers points) (ring_numbers_NoDup _ Hnd))
    as Hpos.
  unfold ring_numbers in Hpos at 1. rewrite length_map in Hpos.
  specialize (Hpos Hlen).
  destruct (Z.eqb_spec (spread (ring_numbers points)) 0) as [E | E]; [lia |].
  f_equal. rewrite !py_sum_Rsum.
  cbn [fadd fsub fmul fdiv flit R_Num]. rewrite !R_lit_int.
  replace (map (fun xy => (R_lit (Z.of_nat (fst xy)) 0 * snd xy)%R) points)
    with (map (fun xy => (INR (fst xy) * snd xy)%R) points)
    by (apply map_ext; intros xy; now rewrite R_lit_nat).
  destruct (linear_sums points a b Hlin) as [-> ->].
  apply IZR_lt in Hpos.
  assert (Hs : IZR (spread (ring_numbers points))
               = (IZR (Z.of_nat (List.length points))
                  * IZR (Zsum (map (fun x => (x ^ 2)%Z) (ring_numbers points)))
                  - IZR (Zsum (ring_numbers points))
                    * IZR (Zsum (ring_numbers points)))%R).
  { unfold spread. rewrite minus_IZR, mult_IZR, Z.pow_2_r, mult_IZR.
    unfold ring_numbers at 1. now rewrite length_map. }
  rewrite Hs in *. field. lra.
Qed.

Lemma regression_slope_of_linear_data_witness :
  regression_slope [(1%nat, 5%R); (2%nat, 8%R); (4%nat, 14%R)] = inl 3%R.
Proof.
  apply (regression_slope_of_linear_data
           [(1%nat, 5%R); (2%nat, 8%R); (4%nat, 14%R)] 3%R 2%R).
  - cbn [map fst]. repeat constructor; cbn [In]; lia.
  - cbn [List.length]. lia.
  - intros x y [[= <- <-] | [[= <- <-] | [[= <- <-] | []]]]; cbn [INR]; lra.
Defined.

(** ** The parameters of the experiment *)

Lemma table_entry_set_ring_radii (s : NewtonRingsSimulation R)
  (radii : list R) (m : nat) :
  table_entry (set_ring_radii s radii) m = table_entry s m.
Proof. destruct m; reflexivity. Qed.

Lemma valid_parameters_positive (s : NewtonRingsSimulation R) :
  valid_parameters s ->
  (0 < wavelength s)%R /\ (0 < radius_of_curvature s)%R
  /\ (0 < refractive_index s)%R.
Proof. intros [Hw [Hr [Hi _]]]. rewrite Hi. repeat split; lra. Qed.

(** Recomputing the table for parameters in range gives a valid state. *)
Lemma calculate_ring_radii_valid (s : NewtonRingsSimulation R) :
  (400 <= wavelength s <= 700)%R ->
  (50 <= radius_of_curvature s / 10000000 <= 200)%R ->
  refractive_index s = 1%R ->
  valid_parameters (fst (calculate_ring_radii s))
  /\ snd (calculate_ring_radii s) = None.
Proof.
  intros Hw Hr Hi.
  rewrite calculate_ring_radii_table by (rewrite ?Hi; lra).
  cbn [fst snd]. split; [| reflexivity].
  unfold valid_parameters.
  cbn [set_ring_radii wavelength radius_of_curvature refractive_index
       ring_radii].
  split; [lra |]. split; [lra |]. split; [assumption |].
  apply map_ext. intros m. symmetry. apply table_entry_set_ring_radii.
Qed.

Lemma new_simulation_valid (now : R) : valid_parameters (new_simulation now).
Proof.
  unfold new_simulation. apply calculate_ring_radii_valid;
    cbn [default_parameters wavelength radius_of_curvature refractive_index];
    r_ops; lra.
Qed.

Lemma do_parameter_valid (s : NewtonRingsSimulation R)
  (c : ParameterCall R) :
  valid_parameters s ->
  valid_parameters (fst (do_parameter s c)) /\ snd (do_parameter s c) = None.
Proof.
  intros Hv. pose proof Hv as [Hw [Hr [Hi Ht]]].
  destruct c as [choice | new_radius]; cbn [do_parameter].
  - unfold change_wavelength.
    apply calculate_ring_radii_valid;
      destruct choice;
      cbn [set_wavelength wavelength radius_of_curvature refractive_index];
      r_ops; try lra; try assumption.
    + destruct (Rleb 400 custom) eqn:E1; cbn [andb]; [| exact Hw].
      destruct (Rleb custom 700) eqn:E2; [| exact Hw].
      cbn [set_wavelength wavelength].
      unfold Rleb in E1, E2.
      destruct (Rle_dec 400 custom); [| discriminate].
      destruct (Rle_dec custom 700); [| discriminate]. lra.
    + destruct (Rleb 400 custom && Rleb custom 700); exact Hr.
    + destruct (Rleb 400 custom && Rleb custom 700); exact Hi.
  - unfold change_radius. r_ops.
    destruct (Rleb 50 new_radius) eqn:E1; cbn [andb]; [| now split].
    destruct (Rleb new_radius 200) eqn:E2; [| now split].
    unfold Rleb in E1, E2.
    destruct (Rle_dec 50 new_radius); [| discriminate].
    destruct (Rle_dec new_radius 200); [| discriminate].
    apply calculate_ring_radii_valid;
      cbn [set_radius_of_curvature wavelength radius_of_curvature
           refractive_index]; try assumption; lra.
Qed.

Lemma run_parameters_valid (calls : list (ParameterCall R))
  (s : NewtonRingsSimulation R) :
  valid_parameters s ->
  valid_parameters (fst (run_parameters s calls))
  /\ snd (run_parameters s calls) = None.
Proof.
  revert s. induction calls as [| c rest IH]; intros s Hv.
  - now split.
  - cbn [run_parameters].
    destruct (do_parameter_valid s c Hv) as [Hv' He].
    destruct (do_parameter s c) as [s' e]. cbn [fst snd] in *. subst e.
    now apply IH.
Qed.

(** X14: the parameters stay in range and the ring table stays in step
    with them.  After any sequence of [change_wavelength] and
    [change_radius] calls on a new simulation, with any choices and
    inputs, no call has raised an exception, the wavelength lies between
    400 and 700 nm, the radius of curvature between 50 and 200 cm, the
    refractive index is 1, and the ring table has [MAX_RINGS + 1] entries,
    entry [m] being the radius the ring formula gives for the current
    parameters.  Stated over the reals. *)
Theorem parameters_stay_valid (now : R) (calls : list (ParameterCall R)) :
  let result := run_parameters (new_simulation now) calls in
  let s := fst result in
  snd result = None
  /\ (400 <= wavelength s <= 700)%R
  /\ (50 <= radius_of_curvature s / 10000000 <= 200)%R
  /\ refractive_index s = 1%R
  /\ List.length (ring_radii s) = (MAX_RINGS + 1)%nat
  /\ forall m : nat,
       (m <= MAX_RINGS)%nat -> nth m (ring_radii s) 0%R = table_entry s m.
Proof.
  cbv zeta.
  destruct (run_parameters_valid calls (new_simulation now)
              (new_simulation_valid now)) as [Hv He].
  pose proof (valid_parameters_positive _ Hv) as [Hwp [Hrp Hip]].
  destruct Hv as [Hw [Hr [Hi Ht]]].
  split; [exact He |]. split; [exact Hw |]. split; [exact Hr |].
  split; [exact Hi |]. rewrite Ht. split.
  - now rewrite length_map, length_seq.
  - intros m Hm. now apply table_nth.
Qed.

(** In binary64 arithmetic: mercury light and a lens of 150 cm give a
    first ring of radius 0.905 mm; values out of range change nothing. *)
Example parameters_binary64 :
  let s0 := new_simulation (@flit float _ 0 0) in
  let s :=
    fst (run_parameters s0
           [ChangeWavelength MercuryGreen; ChangeRadius (flit 150 0);
            ChangeWavelength (Custom (flit 399 0));
            ChangeRadius (flit 201 0)]) in
  wavelength s = flit 5461 (-1)
  /\ radius_of_curvature s = flit 1500000000 0
  /\ List.length (ring_radii s) = 16%nat
  /\ within (flit 9050 (-4)) (nth 1 (ring_radii s) (flit 0 0))
       (flit 9051 (-4)) = true.
Proof. vm_compute. repeat split; reflexivity. Qed.

(** *** Manual measurements *)

(** Every ring of a valid table lies at least 0.4 mm from the centre. *)
Lemma valid_ring_radius_bound (s : NewtonRingsSimulation R) (m : nat) :
  valid_parameters s -> (1 <= m)%nat -> (4 / 10 <= table_entry s m)%R.
Proof.
  intros [Hw [Hr [Hi _]]] Hm. destruct m as [| k]; [lia |].
  cbn [table_entry]. unfold formula_radius. rewrite Hi.
  assert (Hk : (1 <= INR (S k))%R) by (apply (le_INR 1); lia).
  assert (Hkw : (400 <= INR (S k) * wavelength s)%R) by nra.
  assert (Hrc : (500000000 <= radius_of_curvature s)%R) by lra.
  assert (Hprod : (400 * 500000000
                   <= INR (S k) * wavelength s * radius_of_curvature s)%R)
    by (apply Rmult_le_compat; lra).
  assert (Hrad : (400000 * 400000
                  <= INR (S k) * wavelength s * radius_of_curvature s / 1)%R)
    by lra.
  apply sqrt_le_1_alt in Hrad.
  rewrite sqrt_square in Hrad by lra. lra.
Qed.



(** *** The wavelength column of the measurements table *)

(** X16: the wavelength printed in a row is ten times the wavelength.
    With positive parameters, for the noise-free pair of ring [m], the
    left edge at minus the ring radius and the right edge at the ring
    radius, the wavelength in nm that [display_microscope_measurements]
    computes for the row of ring [m] is ten times the wavelength of the
    simulation: the squared diameter in mm^2 is divided by a radius of
    curvature in cm and scaled by 1e6.  Stated over the reals. *)
Theorem row_wavelength_is_ten_wavelengths (s : NewtonRingsSimulation R)
  (m : nat) :
  (0 < wavelength s)%R ->
  (0 < radius_of_curvature s)%R ->
  (0 < refractive_index s)%R ->
  (1 <= m)%nat ->
  row_wavelength s m (- table_entry s m)%R (table_entry s m)
  = inl (10 * wavelength s)%R.
Proof.
  intros Hw Hr Hi Hm. unfold row_wavelength, py_div.
  destruct m as [| k]; [lia |]. cbn [table_entry].
  cbn [fadd fsub fmul fdiv fneg feq flit R_Num].
  rewrite !R_lit_int, mult_IZR, <- INR_IZR_INZ.
  change (IZR (10 ^ 7)) with 10000000%R.
  assert (Hk : (1 <= INR (S k))%R) by (apply (le_INR 1); lia).
  assert (Hden : (4 * INR (S k) * radius_of_curvature s / 10000000 <> 0)%R).
  { assert (0 < 4 * INR (S k) * radius_of_curvature s)%R by nra. lra. }
  rewrite (Reqb_false _ _ Hden). f_equal.
  replace ((formula_radius s (S k) - - formula_radius s (S k))
           * (formula_radius s (S k) - - formula_radius s (S k)))%R
    with (4 * (formula_radius s (S k) * formula_radius s (S k)))%R by ring.
  rewrite formula_radius_sqr by assumption.
  field. repeat split; lra.
Qed.

Lemma row_wavelength_is_ten_wavelengths_witness :
  let s := default_parameters 0%R in
  row_wavelength s 5 (- table_entry s 5)%R (table_entry s 5)
  = inl (10 * wavelength s)%R.
Proof.
  destruct (default_parameters_positive 0%R) as [Hw [Hr Hi]].
  apply (row_wavelength_is_ten_wavelengths (default_parameters 0%R) 5
           Hw Hr Hi).
  lia.
Defined.

(** In binary64 arithmetic, for ring 5 of the default simulation. *)
Example row_wavelength_binary64 :
  let s := new_simulation (@flit float _ 0 0) in
  let r := nth 5 (ring_radii s) (flit 0 0) in
  match row_wavelength s 5 (fneg r) r with
  | inl w => within (flit 58929 (-1)) w (flit 58931 (-1)) = true
  | inr _ => False
  end.
Proof. vm_compute. reflexivity. Qed.

(** ** The rows of the table and the statistics *)

Section RowsSound.
Context {F : Type} `{Num F}.

(** Every row comes from a ring of the loop with both sides measured. *)
Lemma rows_loop_sound (records : list (Reading F)) (g : dict nat (Sides F))
  (rings : list nat) (row : Row F) :
  In row (fst (rows_loop records g rings)) ->
  exists sides : Sides F,
    In (row_ring row) rings
    /\ dict_get Nat.eqb (row_ring row) g = Some sides
    /\ has_row sides (row_ring row) = true
    /\ best_pair records sides
       = inl (row_left_pos row, row_right_pos row, row_precision_type row).
Proof.
  induction rings as [| ring rest IH]; cbn [rows_loop fst]; [intros [] |].
  destruct (dict_get Nat.eqb ring g) as [sides |] eqn:Hget.
  - fold (has_row sides ring). destruct (has_row sides ring) eqn:Hrow.
    + destruct (best_pair records sides) as [[[lp rp] label] | e] eqn:Hbest;
        [| intros []].
      destruct (rows_loop records g rest) as [rows e] eqn:Hloop.
      cbn [fst In]. intros [<- | Hin].
      * exists sides. cbn [row_ring row_left_pos row_right_pos
                             row_precision_type].
        split; [now left |]. split; [exact Hget |].
        split; [exact Hrow | exact Hbest].
      * destruct (IH Hin) as [sides' [H1 H2]]. exists sides'.
        split; [now right | exact H2].
    + intros Hin. destruct (IH Hin) as [sides' [H1 H2]]. exists sides'.
      split; [now right | exact H2].
  - intros Hin. destruct (IH Hin) as [sides' [H1 H2]]. exists sides'.
    split; [now right | exact H2].
Qed.

Lemma group_by_ring_closest (rs : list (Reading F)) (g g' : dict nat (Sides F)) :
  group_by_ring rs g = inl g' ->
  forall r : Reading F, In r rs -> r_closest_ring r <> None.
Proof.
  revert g. induction rs as [| r0 rs IH]; intros g Hg r Hin; [destruct Hin |].
  cbn [group_by_ring] in Hg.
  destruct (r_closest_ring r0) as [ring |] eqn:Hring; [| discriminate].
  destruct Hin as [<- | Hin]; [now rewrite Hring |].
  now apply (IH _ Hg).
Qed.

(** The sides of a ring in the grouping dict are its left and right
    positions among the readings. *)
Lemma group_by_ring_entry (rs : list (Reading F)) (g : dict nat (Sides F))
  (ring : nat) (sides : Sides F) :
  group_by_ring rs [] = inl g ->
  dict_get Nat.eqb ring g = Some sides ->
  sides = ring_sides rs ring.
Proof.
  intros Hg Hget.
  destruct (group_by_ring_spec rs [] (group_by_ring_closest rs [] g Hg))
    as [g' [Hg' Hsides]].
  rewrite Hg in Hg'. injection Hg' as <-.
  destruct (Hsides ring) as [Hl Hr].
  unfold sides_entry in Hl, Hr. rewrite Hget in Hl, Hr.
  cbn [dict_get side_left side_right app] in Hl, Hr.
  destruct sides as [l r]. cbn [side_left side_right] in Hl, Hr.
  unfold ring_sides. now rewrite Hl, Hr.
Qed.

(** The lists of a dict filled from positions hold those positions only. *)
Lemma group_by_precision_members (records : list (Reading F))
  (positions : list F) (g g' : dict Quality (list F)) (P : F -> Prop) :
  group_by_precision records positions g = inl g' ->
  (forall pos, In pos positions -> P pos) ->
  (forall q l pos, dict_get Quality_eqb q g = Some l -> In pos l -> P pos) ->
  forall q l pos, dict_get Quality_eqb q g' = Some l -> In pos l -> P pos.
Proof.
  revert g. induction positions as [| p rest IH]; intros g Hg Hpos Hacc.
  - cbn [group_by_precision] in Hg. injection Hg as <-. exact Hacc.
  - cbn [group_by_precision] in Hg.
    destruct (precision_at records p) as [q0 |]; [| discriminate].
    apply (IH _ Hg); [intros pos Hin; apply Hpos; now right |].
    intros q l pos Hget Hin.
    destruct (Quality_eqb q0 q) eqn:E.
    + apply Quality_eqb_eq in E. subst q0.
      rewrite (dict_get_set_same Quality_eqb Quality_eqb_eq) in Hget.
      injection Hget as <-. apply in_app_or in Hin as [Hin | [<- | []]].
      * destruct (dict_get Quality_eqb q g) as [l0 |] eqn:G; [| destruct Hin].
        now apply (Hacc q l0).
      * apply Hpos. now left.
    + rewrite (dict_get_set_other Quality_eqb Quality_eqb_eq) in Hget.
      * now apply (Hacc q l).
      * intros ->. rewrite (proj2 (Quality_eqb_eq q q) eq_refl) in E.
        discriminate.
Qed.
End RowsSound.

Lemma extremes_members (ls rs : list R) (label label' : Quality)
  (lp rp : R) :
  extremes ls rs label = inl (lp, rp, label') ->
  In lp ls /\ In rp rs /\ label' = label.
Proof.
  unfold extremes, py_max_list, py_min_list.
  destruct ls as [| x ls]; [discriminate |].
  destruct rs as [| y rs]; [discriminate |].
  intros [= <- <- <-].
  split; [apply fold_py_max_spec |]. split; [apply fold_py_min_spec |].
  reflexivity.
Qed.

Lemma best_pair_members (records : list (Reading R)) (sides : Sides R)
  (lp rp : R) (label : Quality) :
  best_pair records sides = inl (lp, rp, label) ->
  In lp (side_left sides) /\ In rp (side_right sides).
Proof.
  unfold best_pair.
  destruct (group_by_precision records (side_left sides) [])
    as [lb | e] eqn:Hlb; [| discriminate].
  destruct (group_by_precision records (side_right sides) [])
    as [rb | e] eqn:Hrb; [| discriminate].
  assert (Hl : forall q l pos,
             dict_get Quality_eqb q lb = Some l -> In pos l ->
             In pos (side_left sides)).
  { apply (group_by_precision_members records (side_left sides) [] lb
             (fun pos => In pos (side_left sides)) Hlb); [auto |].
    intros q l pos Hget. discriminate. }
  assert (Hr : forall q l pos,
             dict_get Quality_eqb q rb = Some l -> In pos l ->
             In pos (side_right sides)).
  { apply (group_by_precision_members records (side_right sides) [] rb
             (fun pos => In pos (side_right sides)) Hrb); [auto |].
    intros q l pos Hget. discriminate. }
  unfold select_pair.
  destruct (dict_get Quality_eqb UltraHigh lb) as [l1 |] eqn:L1;
    destruct (dict_get Quality_eqb UltraHigh rb) as [r1 |] eqn:R1;
    try (intros He; apply extremes_members in He as [H1 [H2 _]];
         split; [now apply (Hl UltraHigh l1) | now apply (Hr UltraHigh r1)]);
    (destruct (dict_get Quality_eqb VeryHigh lb) as [l2 |] eqn:L2;
     destruct (dict_get Quality_eqb VeryHigh rb) as [r2 |] eqn:R2;
     try (intros He; apply extremes_members in He as [H1 [H2 _]];
          split; [now apply (Hl VeryHigh l2) | now apply (Hr VeryHigh r2)]);
     (destruct (dict_get Quality_eqb High lb) as [l3 |] eqn:L3;
      destruct (dict_get Quality_eqb High rb) as [r3 |] eqn:R3;
      try (intros He; apply extremes_members in He as [H1 [H2 _]];
           split; [now apply (Hl High l3) | now apply (Hr High r3)]);
      (intros He; apply extremes_members in He as [H1 [H2 _]];
       split; assumption))).
Qed.

(** A row belongs to a ring other than ring 0 and pairs the positions of
    two stored readings of that ring, one left of the centre and one not
    left of it. *)
Lemma ring_rows_readings (m : dict R (Reading R)) (row : Row R) :
  In row (fst (ring_rows m)) ->
  (0 < row_ring row)%nat
  /\ exists rl rr : Reading R,
       (In rl (sorted_readings m)
        /\ r_position rl = row_left_pos row
        /\ r_closest_ring rl = Some (row_ring row)
        /\ Rltb (r_position rl) 0 = true)
       /\ (In rr (sorted_readings m)
           /\ r_position rr = row_right_pos row
           /\ r_closest_ring rr = Some (row_ring row)
           /\ Rltb (r_position rr) 0 = false).
Proof.
  unfold ring_rows.
  destruct (nonempty _ && nonempty _); [| intros []].
  destruct (group_by_ring (sorted_readings m) []) as [g | e] eqn:Hg;
    [| intros []].
  destruct (existsb _ (dict_keys g)); [| intros []].
  intros Hin.
  destruct (rows_loop_sound _ _ _ row Hin) as [sides [_ [Hget [Hrow Hbest]]]].
  rewrite (group_by_ring_entry _ _ _ _ Hg Hget) in Hbest.
  apply best_pair_members in Hbest as [Hl Hr].
  unfold has_row in Hrow. apply andb_true_iff in Hrow as [_ Hpos].
  apply Nat.ltb_lt in Hpos. split; [exact Hpos |].
  cbn [ring_sides side_left side_right] in Hl, Hr.
  unfold ring_left in Hl. unfold ring_right in Hr.
  apply in_map_iff in Hl as [rl [Hpl Hfl]].
  apply in_map_iff in Hr as [rr [Hpr Hfr]].
  apply filter_In in Hfl as [Hinl Hcl]. apply filter_In in Hfr as [Hinr Hcr].
  apply andb_true_iff in Hcl as [Hringl Hnegl].
  apply andb_true_iff in Hcr as [Hringr Hnegr].
  unfold of_ring in Hringl, Hringr.
  destruct (r_closest_ring rl) as [kl |] eqn:Ekl; [| discriminate].
  destruct (r_closest_ring rr) as [kr |] eqn:Ekr; [| discriminate].
  apply Nat.eqb_eq in Hringl, Hringr. subst kl kr.
  revert Hnegl Hnegr. r_ops. intros Hnegl Hnegr.
  apply negb_true_iff in Hnegr.
  exists rl, rr. repeat split; assumption.
Qed.

(** X17: every row pairs two stored readings of its ring.  For any stored
    measurements, each row of the table of ring diameters that
    [display_microscope_measurements] prints belongs to a ring other than
    ring 0, its left position is the position of a stored reading of that
    ring and is negative, and its right position is the position of a
    stored reading of that ring and is not negative: the diameter of the
    row is positive.  Stated over the reals. *)
Theorem rows_pair_stored_readings (m : dict R (Reading R)) (row : Row R) :
  In row (fst (ring_rows m)) ->
  (0 < row_ring row)%nat
  /\ (row_left_pos row < 0 <= row_right_pos row)%R
  /\ (exists rd : Reading R,
        In rd (sorted_readings m)
        /\ r_position rd = row_left_pos row
        /\ r_closest_ring rd = Some (row_ring row))
  /\ (exists rd : Reading R,
        In rd (sorted_readings m)
        /\ r_position rd = row_right_pos row
        /\ r_closest_ring rd = Some (row_ring row)).
Proof.
  intros Hin.
  destruct (ring_rows_readings m row Hin)
    as [Hpos [rl [rr [[Hinl [Hpl [Hcl Hnegl]]] [Hinr [Hpr [Hcr Hnegr]]]]]]].
  apply Rltb_iff in Hnegl. apply Rltb_false_iff in Hnegr.
  split; [exact Hpos |]. split; [rewrite <- Hpl, <- Hpr; lra |].
  split; [now exists rl | now exists rr].
Qed.

Lemma rows_pair_stored_readings_witness :
  let m := @good_and_standard R R_Num in
  let row :=
    {| row_ring := 5; row_left_pos := (- (165 / 100))%R;
       row_right_pos := (170 / 100)%R; row_precision_type := Standard |} in
  (0 < row_ring row)%nat
  /\ (row_left_pos row < 0 <= row_right_pos row)%R
  /\ (exists rd : Reading R,
        In rd (sorted_readings m)
        /\ r_position rd = row_left_pos row
        /\ r_closest_ring rd = Some (row_ring row))
  /\ (exists rd : Reading R,
        In rd (sorted_readings m)
        /\ r_position rd = row_right_pos row
        /\ r_closest_ring rd = Some (row_ring row)).
Proof.
  apply (rows_pair_stored_readings (@good_and_standard R R_Num)
           {| row_ring := 5; row_left_pos := (- (165 / 100))%R;
              row_right_pos := (170 / 100)%R;
              row_precision_type := Standard |}).
  r_agg. cbn [In]. left. reflexivity.
Defined.

(** ** The wavelength statistics *)

Section StaleGroups.
Context {F : Type} `{Num F}.

(** After a loop over the rows that raised nothing, the local dicts are
    those of the ring of the last row, and choosing from them gives that
    row. *)
Lemma last_groups_last_row (records : list (Reading F))
  (g : dict nat (Sides F)) (rings : list nat) (rows : list (Row F))
  (acc : option (dict Quality (list F) * dict Quality (list F))) :
  rows_loop records g rings = (rows, None) ->
  (rows = [] /\ last_groups records g rings acc = acc)
  \/ exists (rows' : list (Row F)) (last_row : Row F) (sides : Sides F)
       (left_by right_by : dict Quality (list F)),
       rows = rows' ++ [last_row]
       /\ last_groups records g rings acc = Some (left_by, right_by)
       /\ select_pair left_by right_by (side_left sides) (side_right sides)
          = inl (row_left_pos last_row, row_right_pos last_row,
                 row_precision_type last_row).
Proof.
  revert rows acc. induction rings as [| ring rest IH]; intros rows acc.
  - cbn [rows_loop last_groups]. intros [= <-]. left. now split.
  - cbn [rows_loop last_groups].
    destruct (dict_get Nat.eqb ring g) as [sides |]; [| apply IH].
    destruct (nonempty (side_left sides) && nonempty (side_right sides)
              && (0 <? ring)%nat); [| apply IH].
    unfold best_pair.
    destruct (group_by_precision records (side_left sides) [])
      as [left_by | e]; [| discriminate].
    destruct (group_by_precision records (side_right sides) [])
      as [right_by | e]; [| discriminate].
    destruct (select_pair left_by right_by (side_left sides)
                (side_right sides)) as [[[lp rp] label] | e] eqn:Hsel;
      [| discriminate].
    destruct (rows_loop records g rest) as [rows1 e1] eqn:Hloop.
    intros [= <- ->]. right.
    destruct (IH rows1 (Some (left_by, right_by)) eq_refl)
      as [[-> Hlast] | [rows' [last_row [sides' [lb [rb [-> [Hlast Hsel']]]]]]]].
    + exists [], {| row_ring := ring; row_left_pos := lp;
                    row_right_pos := rp; row_precision_type := label |},
        sides, left_by, right_by.
      split; [reflexivity |]. split; [exact Hlast | exact Hsel].
    + exists ({| row_ring := ring; row_left_pos := lp; row_right_pos := rp;
                 row_precision_type := label |} :: rows'),
        last_row, sides', lb, rb.
      split; [reflexivity |]. split; [exact Hlast | exact Hsel'].
Qed.

(** The rings of the rows are the rings of the loop with both sides
    measured. *)
Lemma rows_loop_rings (records : list (Reading F)) (g : dict nat (Sides F))
  (rings : list nat) (rows : list (Row F)) :
  rows_loop records g rings = (rows, None) ->
  map (@row_ring F) rows
  = filter (fun ring => has_row (sides_entry g ring) ring) rings.
Proof.
  revert rows. induction rings as [| ring rest IH]; intros rows.
  - cbn [rows_loop filter]. now intros [= <-].
  - cbn [rows_loop filter]. unfold sides_entry at 1.
    destruct (dict_get Nat.eqb ring g) as [sides |].
    + fold (has_row sides ring). destruct (has_row sides ring); [| apply IH].
      destruct (best_pair records sides) as [[[lp rp] label] | e];
        [| discriminate].
      destruct (rows_loop records g rest) as [rows1 e1] eqn:Hloop.
      intros [= <- ->]. cbn [map row_ring]. f_equal. now apply IH.
    + unfold has_row. cbn [nonempty side_left andb]. apply IH.
Qed.
End StaleGroups.

(** A pair chosen from one of the three labels does not depend on the
    positions of the ring. *)
Lemma select_pair_stale (left_by right_by : dict Quality (list R))
  (all_left all_right : list R) (lp rp : R) (label : Quality) :
  select_pair left_by right_by all_left all_right = inl (lp, rp, label) ->
  label <> Standard ->
  forall all_left' all_right' : list R,
    select_pair left_by right_by all_left' all_right' = inl (lp, rp, label).
Proof.
  unfold select_pair. intros Hsel Hlabel l' r'.
  destruct (dict_get Quality_eqb UltraHigh left_by);
    destruct (dict_get Quality_eqb UltraHigh right_by); try exact Hsel;
    (destruct (dict_get Quality_eqb VeryHigh left_by);
     destruct (dict_get Quality_eqb VeryHigh right_by); try exact Hsel;
     (destruct (dict_get Quality_eqb High left_by);
      destruct (dict_get Quality_eqb High right_by); try exact Hsel;
      (apply extremes_members in Hsel as [_ [_ ->]]; contradiction))).
Qed.

Lemma statistics_loop_stale (s : NewtonRingsSimulation R)
  (g : dict nat (Sides R)) (rings : list nat)
  (left_by right_by : dict Quality (list R)) (lp rp : R) (label : Quality) :
  radius_of_curvature s <> 0%R ->
  (forall all_left all_right : list R,
      select_pair left_by right_by all_left all_right = inl (lp, rp, label)) ->
  snd (statistics_loop s g rings left_by right_by) = None
  /\ map (@stat_ring R) (fst (statistics_loop s g rings left_by right_by))
     = filter (fun ring => has_row (sides_entry g ring) ring) rings
  /\ forall e : StatEntry R,
       In e (fst (statistics_loop s g rings left_by right_by)) ->
       stat_diameter e = (rp - lp)%R
       /\ stat_class e = precision_class label.
Proof.
  intros Hr Hsel. induction rings as [| ring rest [IHe [IHr IHd]]].
  - cbn. split; [reflexivity |]. split; [reflexivity |]. intros e [].
  - cbn [statistics_loop filter]. unfold sides_entry at 1.
    destruct (dict_get Nat.eqb ring g) as [sides |].
    + fold (has_row sides ring).
      destruct (has_row sides ring) eqn:Hrow;
        [| split; [exact IHe | split; [exact IHr | exact IHd]]].
      rewrite Hsel. unfold row_wavelength, py_div.
      cbn [fadd fsub fmul fdiv feq flit R_Num].
      rewrite !R_lit_int, mult_IZR, <- INR_IZR_INZ.
      change (IZR (10 ^ 7)) with 10000000%R.
      unfold has_row in Hrow. apply andb_true_iff in Hrow as [_ Hpos].
      apply Nat.ltb_lt in Hpos.
      assert (Hk : (1 <= INR ring)%R) by (apply (le_INR 1); lia).
      assert (Hden : (4 * INR ring * radius_of_curvature s / 10000000
                      <> 0)%R).
      { intros E.
        assert (E' : (4 * INR ring * radius_of_curvature s = 0)%R) by lra.
        apply Rmult_integral in E' as [E' | E']; [lra | contradiction]. }
      rewrite (Reqb_false _ _ Hden).
      destruct (statistics_loop s g rest left_by right_by) as [entries e].
      cbn [fst snd map stat_ring] in *.
      split; [exact IHe |]. split; [now rewrite IHr |].
      intros e0 [<- | Hin]; [now split | now apply IHd].
    + unfold has_row. cbn [nonempty side_left andb].
      split; [exact IHe | split; [exact IHr | exact IHd]].
Qed.

(** X18: the statistics measure every ring with the pair of the last one.
    When the table of ring diameters is printed without an exception and
    its last row was chosen from one of the labels Ultra-High, Very High
    and High, the loop that fills [diameters], [ring_numbers] and
    [precisions] for the wavelength statistics appends one entry for the
    ring of every row, and every entry has the diameter and the precision
    class of the last row: the loop reads the dicts [left_measurements]
    and [right_measurements] that the loop over the rows left behind for
    its last ring.  The radius of curvature is other than zero.  Stated
    over the reals. *)
Theorem statistics_use_last_ring (s : NewtonRingsSimulation R)
  (m : dict R (Reading R)) (rows : list (Row R)) (last_row : Row R) :
  radius_of_curvature s <> 0%R ->
  ring_rows m = (rows ++ [last_row], None) ->
  row_precision_type last_row <> Standard ->
  snd (ring_statistics s m) = None
  /\ map (@stat_ring R) (fst (ring_statistics s m))
     = map (@row_ring R) (rows ++ [last_row])
  /\ forall e : StatEntry R,
       In e (fst (ring_statistics s m)) ->
       stat_diameter e = (row_right_pos last_row - row_left_pos last_row)%R
       /\ stat_class e = precision_class (row_precision_type last_row).
Proof.
  intros Hr Hrows Hlabel. unfold ring_rows in Hrows. unfold ring_statistics.
  destruct (nonempty _ && nonempty _);
    [| destruct rows; discriminate].
  destruct (group_by_ring (sorted_readings m) []) as [g | e];
    [| discriminate].
  destruct (existsb _ (dict_keys g)); [| destruct rows; discriminate].
  rewrite Hrows.
  destruct (last_groups_last_row _ _ _ _ None Hrows)
    as [[Hnil _] | [rows' [lr [sides [lb [rb [Heq [Hlast Hsel]]]]]]]];
    [destruct rows; discriminate |].
  apply app_inj_tail in Heq as [<- <-].
  rewrite Hlast.
  pose proof (select_pair_stale _ _ _ _ _ _ _ Hsel Hlabel) as Hstale.
  destruct (statistics_loop_stale s g (sorted_by Nat.ltb (dict_keys g))
              lb rb _ _ _ Hr Hstale) as [He [Hrings Hent]].
  split; [exact He |]. split; [| exact Hent].
  rewrite Hrings. symmetry. now apply (rows_loop_rings (sorted_readings m)).
Qed.

Lemma statistics_use_last_ring_witness :
  let s := default_parameters 0%R in
  let m := @two_rings_measured R R_Num in
  let rows := [edge_row 1 (@flit R R_Num 1 0)] in
  let last_row := edge_row 2 (@flit R R_Num 2 0) in
  snd (ring_statistics s m) = None
  /\ map (@stat_ring R) (fst (ring_statistics s m))
     = map (@row_ring R) (rows ++ [last_row])
  /\ forall e : StatEntry R,
       In e (fst (ring_statistics s m)) ->
       stat_diameter e = (row_right_pos last_row - row_left_pos last_row)%R
       /\ stat_class e = precision_class (row_precision_type last_row).
Proof.
  apply (statistics_use_last_ring (default_parameters 0%R)
           (@two_rings_measured R R_Num)
           [edge_row 1 (@flit R R_Num 1 0)] (edge_row 2 (@flit R R_Num 2 0))).
  - cbn [default_parameters radius_of_curvature]. r_ops. lra.
  - unfold two_rings_measured, edge_reading, edge_row. r_agg. reflexivity.
  - cbn [edge_row row_precision_type]. discriminate.
Defined.

(** In binary64 arithmetic, for measurements at rest on both edges of the
    rings 1 and 2 of the default simulation: the table has the rows of
    ring 1 and ring 2, each with its own edges, and the statistics hold
    the diameter of ring 2 for both rings. *)
Example statistics_binary64 :
  let s := new_simulation (@flit float _ 0 0) in
  let m := edge_measurements (ring_radii s) in
  let r1 := nth 1 (ring_radii s) (flit 0 0) in
  let r2 := nth 2 (ring_radii s) (flit 0 0) in
  ring_rows m = ([edge_row 1 r1; edge_row 2 r2], None)
  /\ snd (ring_statistics s m) = None
  /\ map (@stat_ring float) (fst (ring_statistics s m)) = [1%nat; 2%nat]
  /\ map (@stat_diameter float) (fst (ring_statistics s m))
     = [fsub r2 (fneg r2); fsub r2 (fneg r2)]
  /\ flt r1 r2 = true.
Proof. vm_compute. repeat split; reflexivity. Qed.

(** ** The arrow keys *)

Lemma R_trunc_nonneg (x : R) :
  (0 <= x)%R -> (IZR (ftrunc x) <= x < IZR (ftrunc x) + 1)%R.
Proof.
  intros Hx. cbn [ftrunc R_Trunc].
  destruct (Rle_dec 0 x); [| contradiction].
  pose proof (Zfloor_bound x). lra.
Qed.

(** The acceleration stays between 1 and 4. *)
Lemma arrow_event_acceleration (k : KeyRepeat R) (e : ArrowEvent R) :
  (1 <= movement_acceleration k <= 4)%R ->
  (1 <= movement_acceleration (arrow_event k e) <= 4)%R.
Proof.
  intros Hk. destruct e as [current_time |]; cbn [arrow_event].
  - unfold arrow_down. cbn [fst movement_acceleration].
    destruct (continuous_movement k && _); [| r_ops; lra].
    rewrite py_min_Rmin. r_ops. unfold Rmin.
    destruct (Rle_dec 4 _); lra.
  - unfold arrow_up. destruct (continuous_movement k); [| exact Hk].
    unfold py_max. r_ops.
    destruct (Rltb 1 (movement_acceleration k * (95 / 100))) eqn:E;
      [apply Rltb_iff in E | apply Rltb_false_iff in E].
    + destruct (Rltb _ (105 / 100)); cbn [movement_acceleration]; lra.
    + rewrite Rltb_true by lra. cbn [movement_acceleration]. lra.
Qed.

Lemma arrow_events_acceleration (events : list (ArrowEvent R))
  (k : KeyRepeat R) :
  (1 <= movement_acceleration k <= 4)%R ->
  (1 <= movement_acceleration (fold_left arrow_event events k) <= 4)%R.
Proof.
  revert k. induction events as [| e events IH]; intros k Hk; [exact Hk |].
  cbn [fold_left]. apply IH. now apply arrow_event_acceleration.
Qed.

(** X19: what a held arrow key asks of the microscope.  In every frame of
    [adjust_microscope_realtime], whatever the earlier frames were, the
    acceleration lies between 1 and 4; a frame with an arrow key down
    makes between 1 and 6 calls of the move operation, each with the same
    factor, which lies between 2/3 and 4/3 and which times the number of
    calls is the acceleration.  Stated over the reals. *)
Theorem arrow_key_factors (now : R) (events : list (ArrowEvent R))
  (current_time : R) :
  let k := fold_left arrow_event events (key_repeat_start now) in
  let k' := fst (arrow_down k current_time) in
  let steps := fst (snd (arrow_down k current_time)) in
  let step_size := snd (snd (arrow_down k current_time)) in
  (1 <= movement_acceleration k <= 4)%R
  /\ (1 <= movement_acceleration k' <= 4)%R
  /\ (1 <= steps <= 6)%nat
  /\ (INR steps * step_size = movement_acceleration k')%R
  /\ (2 / 3 <= step_size < 4 / 3)%R.
Proof.
  cbv zeta.
  assert (Hk : (1 <= movement_acceleration
                       (fold_left arrow_event events (key_repeat_start now))
                <= 4)%R).
  { apply arrow_events_acceleration. cbn [key_repeat_start
      movement_acceleration]. r_ops. lra. }
  set (k := fold_left arrow_event events (key_repeat_start now)) in *.
  pose proof (arrow_event_acceleration k (ArrowDown current_time) Hk) as Hk'.
  cbn [arrow_event] in Hk'.
  split; [exact Hk |]. split; [exact Hk' |].
  unfold arrow_down in *. cbn [fst snd movement_acceleration] in *.
  set (acc := if continuous_movement k && _ then _ else _) in *.
  cbn [fmul fdiv flit R_Num]. rewrite R_lit_int. r_ops.
  assert (Hpos : (0 <= acc * (15 / 10))%R) by lra.
  pose proof (R_trunc_nonneg _ Hpos) as [Hlo Hhi].
  set (n := ftrunc (acc * (15 / 10))%R) in *.
  assert (Hn1 : (1 <= n)%Z).
  { assert (Hn0 : (IZR 0 < IZR (n + 1))%R) by (rewrite plus_IZR; lra).
    apply lt_IZR in Hn0.
    assert (Hcase : (n = 0 \/ 1 <= n)%Z) by lia.
    destruct Hcase as [E | E]; [| exact E].
    rewrite E in Hhi. lra. }
  assert (Hn6 : (n <= 6)%Z).
  { apply le_IZR. lra. }
  rewrite Z.max_r by lia. rewrite Z2Nat.id by lia.
  assert (HnR : (1 <= IZR n <= 6)%R)
    by (split; [apply (IZR_le 1) | apply (IZR_le n 6)]; lia).
  split; [lia |]. split.
  - rewrite INR_IZR_INZ, Z2Nat.id by lia. field. lra.
  - split.
    + apply Rmult_le_reg_r with (IZR n); [lra |].
      unfold Rdiv at 2. rewrite Rmult_assoc, Rinv_l by lra. lra.
    + apply Rmult_lt_reg_r with (IZR n); [lra |].
      unfold Rdiv at 1. rewrite Rmult_assoc, Rinv_l by lra. nra.
Qed.

(** In binary64 arithmetic: in the first frame one call with factor 1;
    after sixty frames 0.01 s apart the acceleration is 4, with six calls
    per frame. *)
Example arrow_keys_binary64 :
  let start := key_repeat_start (@flit float _ 0 0) in
  let held :=
    fold_left arrow_event
      (map (fun i => ArrowDown (flit (Z.of_nat i) (-2))) (seq 1 60)) start in
  snd (arrow_down start (flit 1 (-2))) = (1%nat, flit 1 0)
  /\ movement_acceleration held = flit 4 0
  /\ fst (snd (arrow_down held (flit 61 (-2)))) = 6%nat.
Proof. vm_compute. repeat split; reflexivity. Qed.

(** ** display_rings_ascii *)

Lemma ascii_rings_loop_none (s : NewtonRingsSimulation R) (ms : list nat) :
  valid_parameters s ->
  (forall m : nat, In m ms -> (1 <= m <= MAX_RINGS)%nat) ->
  ascii_rings_loop s ms = inl [].
Proof.
  intros Hv. induction ms as [| m rest IH]; intros Hms; [reflexivity |].
  cbn [ascii_rings_loop].
  pose proof (Hms m (or_introl eq_refl)) as [H1 H2].
  pose proof (valid_ring_radius_bound s m Hv H1) as Hrad.
  destruct Hv as [_ [_ [_ Ht]]].
  rewrite Ht, table_nth_error by assumption.
  rewrite IH by (intros m' Hin; apply Hms; now right).
  r_ops.
  assert (Hpos : (0 <= table_entry s m * 100)%R) by lra.
  pose proof (R_trunc_nonneg _ Hpos) as [_ Hhi].
  assert (Hge : (15 <= ftrunc (table_entry s m * 100)%R)%Z).
  { assert (Hlt : (IZR 39 < IZR (ftrunc (table_entry s m * 100)%R + 1))%R)
      by (rewrite plus_IZR; lra).
    apply lt_IZR in Hlt. lia. }
  change (Z.min 30 15) with 15%Z.
  destruct (Z.leb_spec 15 (ftrunc (table_entry s m * 100)%R)); [reflexivity | lia].
Qed.

(** X20: the ASCII picture never shows a ring.  In a simulation whose
    parameters are in the accepted ranges and whose ring table is the
    computed one, [display_rings_ascii] raises nothing and skips every
    ring: each ring radius is at least 0.4 mm, so its radius on the screen,
    [int(radius * 100)], is at least 40 characters and never below the
    limit [min(center_x, center_y)] of 15.  Only the central spot is
    drawn.  Stated over the reals. *)
Theorem ascii_picture_shows_no_ring (s : NewtonRingsSimulation R) :
  valid_parameters s -> ascii_rings_drawn s = inl [].
Proof.
  intros Hv. unfold ascii_rings_drawn. apply ascii_rings_loop_none; [exact Hv |].
  intros m Hin. apply in_rev, in_seq in Hin. lia.
Qed.

Lemma ascii_picture_shows_no_ring_witness :
  ascii_rings_drawn (new_simulation 0%R) = inl [].
Proof.
  apply (ascii_picture_shows_no_ring (new_simulation 0%R)).
  apply new_simulation_valid.
Defined.

Example ascii_picture_binary64 :
  ascii_rings_drawn (new_simulation (@flit float _ 0 0)) = inl [].
Proof. vm_compute. reflexivity. Qed.

(** ** From the table of ring diameters to the radius calculation *)

Section StoredRows.
Context {F : Type} `{Num F}.

Lemma group_by_ring_keys (rs : list (Reading F)) (g g' : dict nat (Sides F)) :
  group_by_ring rs g = inl g' ->
  NoDup (dict_keys g) -> NoDup (dict_keys g').
Proof.
  revert g. induction rs as [| r rs IH]; intros g Hg Hnd.
  - cbn [group_by_ring] in Hg. now injection Hg as <-.
  - cbn [group_by_ring] in Hg.
    destruct (r_closest_ring r) as [ring |]; [| discriminate].
    apply (IH _ Hg). unfold add_reading. now apply dict_set_NoDup.
Qed.

(** The rings of the rows are pairwise different. *)
Lemma rows_loop_NoDup (records : list (Reading F)) (g : dict nat (Sides F))
  (rings : list nat) :
  NoDup rings ->
  NoDup (map (@row_ring F) (fst (rows_loop records g rings))).
Proof.
  induction rings as [| ring rest IH]; intros Hnd; [constructor |].
  inversion Hnd as [| ? ? Hnotin Hnd']; subst.
  cbn [rows_loop].
  destruct (dict_get Nat.eqb ring g) as [sides |]; [| now apply IH].
  destruct (nonempty (side_left sides) && nonempty (side_right sides)
            && (0 <? ring)%nat); [| now apply IH].
  destruct (best_pair records sides) as [[[lp rp] label] | e];
    [| constructor].
  pose proof (rows_loop_sound records g rest) as Hsound.
  destruct (rows_loop records g rest) as [rows e] eqn:Hloop.
  cbn [fst map row_ring] in *. constructor; [| now apply IH].
  intros Hin. apply in_map_iff in Hin as [row [Hring Hrow]].
  destruct (Hsound row Hrow) as [_ [Hin' _]]. rewrite Hring in Hin'.
  contradiction.
Qed.

Lemma ring_rows_NoDup (m : dict F (Reading F)) :
  NoDup (map (@row_ring F) (fst (ring_rows m))).
Proof.
  unfold ring_rows.
  destruct (nonempty _ && nonempty _); [| constructor].
  destruct (group_by_ring (sorted_readings m) []) as [g | e] eqn:Hg;
    [| constructor].
  destruct (existsb _ (dict_keys g)); [| constructor].
  apply rows_loop_NoDup.
  eapply Permutation_NoDup; [apply Permutation_sym, sorted_by_perm |].
  apply (group_by_ring_keys _ _ _ Hg). constructor.
Qed.

Lemma dict_mem_set (k k' : nat) (v : F) (d : dict nat F) :
  dict_mem Nat.eqb k' d = true ->
  dict_mem Nat.eqb k' (dict_set Nat.eqb k v d) = true.
Proof.
  intros Hmem. destruct (Nat.eq_dec k k') as [<- | Hne].
  - apply (dict_mem_set_same Nat.eqb Nat.eqb_eq).
  - unfold dict_mem in *.
    now rewrite (dict_get_set_other Nat.eqb Nat.eqb_eq) by assumption.
Qed.

(** Storing the rows keeps the keys pairwise different and what was
    measured, and makes the ring of every row complete. *)
Lemma store_rows_complete (rows : list (Row F)) (p : Parent F) :
  NoDup (dict_keys (left_measurements p)) ->
  NoDup (dict_keys (left_measurements (store_rows p rows)))
  /\ (forall ring : nat,
        complete_ring p ring -> complete_ring (store_rows p rows) ring)
  /\ forall row : Row F,
       In row rows -> complete_ring (store_rows p rows) (row_ring row).
Proof.
  revert p. induction rows as [| row0 rows IH]; intros p Hnd.
  - cbn. split; [exact Hnd |]. split; [auto | intros row []].
  - unfold store_rows. cbn [fold_left].
    set (p1 := {| left_measurements := _; right_measurements := _ |}).
    fold (store_rows p1 rows).
    destruct (IH p1) as [Hnd' [Hkeep Hrows]].
    { unfold p1. cbn [left_measurements]. now apply dict_set_NoDup. }
    split; [exact Hnd' |]. split.
    + intros ring [Hl Hr]. apply Hkeep. unfold p1, complete_ring.
      cbn [left_measurements right_measurements].
      split; now apply dict_mem_set.
    + intros row [<- | Hin]; [| now apply Hrows].
      apply Hkeep. unfold p1, complete_ring.
      cbn [left_measurements right_measurements].
      split; apply (dict_mem_set_same Nat.eqb Nat.eqb_eq).
Qed.

(** Pairwise different complete rings are all among the points of the
    regression. *)
Lemma complete_rings_counted (s : NewtonRingsSimulation F)
  (rings : list nat) :
  NoDup rings ->
  (forall ring : nat, In ring rings -> complete_ring (session s) ring) ->
  (List.length rings <= List.length (valid_rings_and_squares s))%nat.
Proof.
  intros Hnd Hcomplete.
  rewrite <- (length_map fst (valid_rings_and_squares s)).
  apply NoDup_incl_length; [exact Hnd |].
  intros ring Hin. destruct (Hcomplete ring Hin) as [Hl Hr].
  unfold valid_rings_and_squares. rewrite complete_rings_filter.
  apply filter_In. split; [| now rewrite Hl, Hr].
  eapply Permutation_in; [apply Permutation_sym, sorted_by_perm |].
  unfold dict_mem in Hl.
  destruct (dict_get Nat.eqb ring (left_measurements (session s)))
    as [v |] eqn:G; [| discriminate].
  now apply (dict_get_in_keys ring v).
Qed.
End StoredRows.

Lemma radius_results_defined (s : NewtonRingsSimulation R) :
  wavelength s <> 0%R ->
  radius_of_curvature s <> 0%R ->
  NoDup (dict_keys (left_measurements (session s))) ->
  (2 <= List.length (valid_rings_and_squares s))%nat ->
  exists calculated actual error : R,
    calculate_radius_from_measurements s
    = (s, inl (RadiusResults calculated actual error)).
Proof.
  intros Hw Hr Hnd Hlen. unfold calculate_radius_from_measurements.
  destruct (Nat.ltb_spec (List.length (valid_rings_and_squares s)) 2);
    [lia |].
  destruct (regression_slope_defined (valid_rings_and_squares s)
              (valid_rings_NoDup s Hnd) Hlen) as [slope ->].
  unfold py_div. r_ops.
  rewrite (Reqb_false (wavelength s * (1 / 10000000)))
    by (intros E; apply Hw; lra).
  rewrite (Reqb_false (radius_of_curvature s / 10000000))
    by (intros E; apply Hr; lra).
  eexists. eexists. eexists. reflexivity.
Qed.

(** X21: a table of two rows or more feeds the radius calculation.  When
    [display_microscope_measurements] prints rows for two rings or more
    and stores their positions in the left and right measurements of the
    simulation, [calculate_radius_from_measurements] afterwards raises
    nothing and reports a calculated radius, whatever the measurements
    held before, for a wavelength and a radius of curvature other than
    zero.  Stated over the reals. *)
Theorem table_rows_feed_radius_calculation (s : NewtonRingsSimulation R)
  (m : dict R (Reading R)) :
  wavelength s <> 0%R ->
  radius_of_curvature s <> 0%R ->
  NoDup (dict_keys (left_measurements (session s))) ->
  (2 <= List.length (fst (ring_rows m)))%nat ->
  let s' := set_session s (store_rows (session s) (fst (ring_rows m))) in
  exists calculated actual error : R,
    calculate_radius_from_measurements s'
    = (s', inl (RadiusResults calculated actual error)).
Proof.
  intros Hw Hr Hnd Hrows s'.
  destruct (store_rows_complete (fst (ring_rows m)) (session s) Hnd)
    as [Hnd' [_ Hcomplete]].
  apply radius_results_defined; try assumption.
  pose proof (complete_rings_counted s'
                (map (@row_ring R) (fst (ring_rows m)))
                (ring_rows_NoDup m)) as Hcount.
  rewrite length_map in Hcount.
  etransitivity; [exact Hrows |]. apply Hcount.
  intros ring Hin. apply in_map_iff in Hin as [row [<- Hin]].
  now apply Hcomplete.
Qed.

Lemma table_rows_feed_radius_calculation_witness :
  let s := default_parameters 0%R in
  let m := @two_rings_measured R R_Num in
  let s' := set_session s (store_rows (session s) (fst (ring_rows m))) in
  exists calculated actual error : R,
    calculate_radius_from_measurements s'
    = (s', inl (RadiusResults calculated actual error)).
Proof.
  apply (table_rows_feed_radius_calculation (default_parameters 0%R)
           (@two_rings_measured R R_Num)).
  - cbn [default_parameters wavelength]. r_ops. lra.
  - cbn [default_parameters radius_of_curvature]. r_ops. lra.
  - cbn [default_parameters session left_measurements dict_keys map].
    constructor.
  - unfold two_rings_measured, edge_reading. r_agg. cbn [List.length]. lia.
Defined.

(** ** Sessions *)

Lemma calculate_ring_radii_session (s : NewtonRingsSimulation R) :
  session (fst (calculate_ring_radii s)) = session s.
Proof.
  unfold calculate_ring_radii.
  destruct (ring_radii_loop s (seq 0 (MAX_RINGS + 1)) []) as [radii e].
  reflexivity.
Qed.

Lemma do_parameter_session (s : NewtonRingsSimulation R)
  (c : ParameterCall R) :
  session (fst (do_parameter s c)) = session s.
Proof.
  destruct c as [choice | new_radius]; cbn [do_parameter].
  - unfold change_wavelength. rewrite calculate_ring_radii_session.
    destruct choice; try reflexivity.
    destruct (_ && _); reflexivity.
  - unfold change_radius. destruct (_ && _); [| reflexivity].
    now rewrite calculate_ring_radii_session.
Qed.

Lemma rows_before_error_incl (s : NewtonRingsSimulation R)
  (rows : list (Row R)) (row : Row R) :
  In row (rows_before_error s rows) -> In row rows.
Proof.
  induction rows as [| row0 rows IH]; cbn [rows_before_error]; [tauto |].
  destruct (row_wavelength s _ _ _); [| intros []].
  destruct (feq (wavelength s) (flit 0 0)); [intros [] |].
  intros [<- | Hin]; [now left | right; now apply IH].
Qed.

(** Storing rows with a negative left and a non-negative right position
    keeps the signs of the measurements. *)
Lemma store_rows_signs (rows : list (Row R)) (p : Parent R) :
  (forall row : Row R,
      In row rows -> (row_left_pos row < 0 <= row_right_pos row)%R) ->
  NoDup (dict_keys (left_measurements p)) ->
  (forall (ring : nat) (pos : R),
      In (ring, pos) (left_measurements p) -> (pos < 0)%R) ->
  (forall (ring : nat) (pos : R),
      In (ring, pos) (right_measurements p) -> (0 <= pos)%R) ->
  NoDup (dict_keys (left_measurements (store_rows p rows)))
  /\ (forall (ring : nat) (pos : R),
        In (ring, pos) (left_measurements (store_rows p rows)) ->
        (pos < 0)%R)
  /\ (forall (ring : nat) (pos : R),
        In (ring, pos) (right_measurements (store_rows p rows)) ->
        (0 <= pos)%R).
Proof.
  revert p. induction rows as [| row0 rows IH]; intros p Hrows Hnd Hl Hr.
  - cbn. now repeat split.
  - unfold store_rows. cbn [fold_left].
    set (p1 := {| left_measurements := _; right_measurements := _ |}).
    fold (store_rows p1 rows).
    pose proof (Hrows row0 (or_introl eq_refl)) as [Hneg Hnn].
    apply IH.
    + intros row Hin. apply Hrows. now right.
    + unfold p1. cbn [left_measurements]. now apply dict_set_NoDup.
    + unfold p1. cbn [left_measurements]. intros ring pos Hin.
      apply (dict_set_In Nat.eqb Nat.eqb_eq) in Hin as [[_ ->] | Hin];
        [exact Hneg | now apply (Hl ring)].
    + unfold p1. cbn [right_measurements]. intros ring pos Hin.
      apply (dict_set_In Nat.eqb Nat.eqb_eq) in Hin as [[_ ->] | Hin];
        [exact Hnn | now apply (Hr ring)].
Qed.

Lemma session_invariant_microscope (s : NewtonRingsSimulation R)
  (mic : TravelingMicroscope R) :
  session_invariant s -> session_invariant (set_microscope s mic).
Proof. intros Hinv. exact Hinv. Qed.

Lemma show_measurements_invariant (s : NewtonRingsSimulation R) :
  session_invariant s -> session_invariant (show_measurements s).
Proof.
  intros [Hv [Hnd [Hl Hr]]]. unfold show_measurements.
  destruct (store_rows_signs
              (rows_before_error s
                 (fst (ring_rows (measurements (microscope s)))))
              (session s)) as [Hnd' [Hl' Hr']]; try assumption.
  - intros row Hin. apply rows_before_error_incl in Hin.
    destruct (ring_rows_readings _ row Hin)
      as [_ [rl [rr [[_ [Hpl [_ Hnegl]]] [_ [Hpr [_ Hnegr]]]]]]].
    apply Rltb_iff in Hnegl. apply Rltb_false_iff in Hnegr.
    rewrite <- Hpl, <- Hpr. lra.
  - split; [exact Hv |]. split; [exact Hnd' |]. split; assumption.
Qed.

Lemma take_measurement_invariant (s : NewtonRingsSimulation R)
  (rnd : R) (ts : string) :
  session_invariant s ->
  session_invariant
    (let '(mic, parent, _) :=
       take_measurement (microscope s) (Some (session s)) (ring_radii s)
         rnd ts in
     set_session (set_microscope s mic)
       match parent with Some p => p | None => session s end).
Proof.
  intros [Hv [Hnd [Hl Hr]]]. unfold take_measurement.
  destruct (r_closest_ring _) as [ring |];
    [| split; [exact Hv | split; [exact Hnd | split; [exact Hl | exact Hr]]]].
  destruct (0 <? ring)%nat;
    [| split; [exact Hv | split; [exact Hnd | split; [exact Hl | exact Hr]]]].
  cbn [flt flit R_Num]. rewrite R_lit_int.
  destruct (Rltb (position (microscope s)) 0) eqn:E;
    [apply Rltb_iff in E | apply Rltb_false_iff in E];
    (split; [exact Hv |]);
    cbn [set_session set_microscope session left_measurements
         right_measurements].
  - split; [now apply dict_set_NoDup |]. split; [| exact Hr].
    intros k pos Hin.
    apply (dict_set_In Nat.eqb Nat.eqb_eq) in Hin as [[_ ->] | Hin];
      [exact E | now apply (Hl k)].
  - split; [exact Hnd |]. split; [exact Hl |].
    intros k pos Hin.
    apply (dict_set_In Nat.eqb Nat.eqb_eq) in Hin as [[_ ->] | Hin];
      [exact E | now apply (Hr k)].
Qed.

Lemma session_step_invariant (s : NewtonRingsSimulation R)
  (e : SessionEvent R) :
  event_ok e = true -> session_invariant s ->
  session_invariant (session_step s e).
Proof.
  intros Hok Hinv.
  destruct e as [key now rnd ts | c | c | ring_number u | ring_number u |];
    cbn [session_step].
  - unfold process_microscope_key.
    destruct (key_in key _); [exact Hinv |].
    destruct (key_in key _); [exact Hinv |].
    destruct (key_in key _); [exact Hinv |].
    destruct (key_in key _); [exact Hinv |].
    destruct (key_in key _); [now apply take_measurement_invariant |].
    destruct (String.eqb key "m"); [now apply show_measurements_invariant |].
    destruct (String.eqb key "c"); [exact Hinv |].
    destruct (String.eqb key "p"); exact Hinv.
  - exact Hinv.
  - destruct Hinv as [Hv [Hnd [Hl Hr]]].
    destruct (do_parameter_valid s c Hv) as [Hv' _].
    split; [exact Hv' |]. rewrite do_parameter_session.
    split; [exact Hnd |]. split; assumption.
  - destruct Hinv as [Hv [Hnd [Hl Hr]]].
    cbn [event_ok fle flt flit R_Num] in Hok. rewrite !R_lit_int in Hok.
    apply andb_true_iff in Hok as [Hu0 Hu1].
    unfold Rleb in Hu0. destruct (Rle_dec 0 u); [| discriminate].
    apply Rltb_iff in Hu1.
    unfold measure_left_side.
    destruct ((1 <=? ring_number)%nat && (ring_number <=? MAX_RINGS)%nat)
      eqn:Hring;
      [| split; [exact Hv | split; [exact Hnd | split; [exact Hl | exact Hr]]]].
    apply andb_true_iff in Hring as [H1 H2].
    apply Nat.leb_le in H1. apply Nat.leb_le in H2.
    pose proof (valid_ring_radius_bound s ring_number Hv H1) as Hrad.
    pose proof Hv as [_ [_ [_ Ht]]].
    rewrite Ht, table_nth_error by assumption. cbn [fst].
    split; [exact Hv |].
    cbn [set_session session left_measurements right_measurements].
    split; [now apply dict_set_NoDup |]. split; [| exact Hr].
    intros k pos Hin.
    apply (dict_set_In Nat.eqb Nat.eqb_eq) in Hin as [[_ ->] | Hin];
      [| now apply (Hl k)].
    r_ops. lra.
  - destruct Hinv as [Hv [Hnd [Hl Hr]]].
    cbn [event_ok fle flt flit R_Num] in Hok. rewrite !R_lit_int in Hok.
    apply andb_true_iff in Hok as [Hu0 Hu1].
    unfold Rleb in Hu0. destruct (Rle_dec 0 u); [| discriminate].
    apply Rltb_iff in Hu1.
    unfold measure_right_side.
    destruct ((1 <=? ring_number)%nat && (ring_number <=? MAX_RINGS)%nat)
      eqn:Hring;
      [| split; [exact Hv | split; [exact Hnd | split; [exact Hl | exact Hr]]]].
    apply andb_true_iff in Hring as [H1 H2].
    apply Nat.leb_le in H1. apply Nat.leb_le in H2.
    pose proof (valid_ring_radius_bound s ring_number Hv H1) as Hrad.
    pose proof Hv as [_ [_ [_ Ht]]].
    rewrite Ht, table_nth_error by assumption. cbn [fst].
    split; [exact Hv |].
    cbn [set_session session left_measurements right_measurements].
    split; [exact Hnd |]. split; [exact Hl |].
    intros k pos Hin.
    apply (dict_set_In Nat.eqb Nat.eqb_eq) in Hin as [[_ ->] | Hin];
      [| now apply (Hr k)].
    r_ops. lra.
  - destruct Hinv as [Hv _]. split; [exact Hv |].
    cbn [reset_all_measurements set_session session left_measurements
         right_measurements dict_keys map].
    split; [constructor |]. split; intros k pos [].
Qed.

Lemma run_session_invariant (events : list (SessionEvent R))
  (s : NewtonRingsSimulation R) :
  forallb event_ok events = true -> session_invariant s ->
  session_invariant (run_session s events).
Proof.
  revert s. induction events as [| e events IH]; intros s Hok Hinv;
    [exact Hinv |].
  cbn [forallb] in Hok. apply andb_true_iff in Hok as [He Hok].
  unfold run_session. cbn [fold_left]. apply IH; [exact Hok |].
  now apply session_step_invariant.
Qed.

Lemma complete_rings_positive (p : Parent R) (rings : list nat)
  (ring : nat) (y : R) :
  (forall (k : nat) (pos : R), In (k, pos) (left_measurements p) ->
     (pos < 0)%R) ->
  (forall (k : nat) (pos : R), In (k, pos) (right_measurements p) ->
     (0 <= pos)%R) ->
  In (ring, y) (complete_rings p rings) -> (0 < y)%R.
Proof.
  intros Hl Hr. induction rings as [| r0 rings IH]; cbn [complete_rings];
    [intros [] |].
  destruct (dict_get Nat.eqb r0 (right_measurements p)) as [rp |] eqn:Gr;
    [| exact IH].
  destruct (dict_get Nat.eqb r0 (left_measurements p)) as [lp |] eqn:Gl;
    [| exact IH].
  intros [[= <- <-] | Hin]; [| now apply IH].
  apply (dict_get_Some_In Nat.eqb Nat.eqb_eq) in Gr, Gl.
  pose proof (Hl _ _ Gl). pose proof (Hr _ _ Gr).
  cbn [fabs fsub fmul R_Num]. rewrite Rabs_pos_eq by lra. nra.
Qed.

(** X22: what every session keeps.  Starting from a new simulation, after
    any sequence of keys of the microscope view, moves of the real-time
    loop, parameter changes, manual measurements (with random samples in
    [0, 1)) and resets, every left measurement of the simulation is
    negative and every right measurement is not negative, whoever stored
    it: [take_measurement], [measure_left_side], [measure_right_side] or
    the table of [display_microscope_measurements].  So every ring
    measured on both sides enters the regression with a positive squared
    diameter, and [calculate_radius_from_measurements] raises nothing.
    Stated over the reals. *)
Theorem session_measurements_have_sides (now : R)
  (events : list (SessionEvent R)) :
  forallb event_ok events = true ->
  let s := run_session (new_simulation now) events in
  (forall (ring : nat) (pos : R),
      In (ring, pos) (left_measurements (session s)) -> (pos < 0)%R)
  /\ (forall (ring : nat) (pos : R),
        In (ring, pos) (right_measurements (session s)) -> (0 <= pos)%R)
  /\ (forall (ring : nat) (y : R),
        In (ring, y) (valid_rings_and_squares s) -> (0 < y)%R)
  /\ exists report : RadiusReport R,
       calculate_radius_from_measurements s = (s, inl report).
Proof.
  intros Hok s.
  assert (Hinv : session_invariant s).
  { apply run_session_invariant; [exact Hok |].
    split; [apply new_simulation_valid |].
    unfold new_simulation. rewrite calculate_ring_radii_session.
    cbn [default_parameters session left_measurements right_measurements
         dict_keys map].
    split; [constructor |]. split; intros k pos []. }
  destruct Hinv as [Hv [Hnd [Hl Hr]]].
  split; [exact Hl |]. split; [exact Hr |]. split.
  - intros ring y. unfold valid_rings_and_squares.
    now apply complete_rings_positive.
  - destruct (valid_parameters_positive s Hv) as [Hw [Hrc _]].
    destruct (Nat.ltb_spec (List.length (valid_rings_and_squares s)) 2)
      as [Hlt | Hge].
    + exists NeedTwoRings. unfold calculate_radius_from_measurements.
      destruct (Nat.ltb_spec (List.length (valid_rings_and_squares s)) 2);
        [reflexivity | lia].
    + destruct (radius_results_defined s) as [c [a [e Hres]]];
        try assumption; try lra.
      now exists (RadiusResults c a e).
Qed.

Lemma session_measurements_have_sides_witness :
  let events :=
    [ManualLeft 3 (1 / 4)%R; Key "a" (1 / 10)%R 0%R "12:00:00";
     Key "space" (2 / 10)%R 0%R "12:00:01"; ManualRight 3 (3 / 4)%R;
     Key "m" (3 / 10)%R 0%R "12:00:02"] in
  let s := run_session (new_simulation 0%R) events in
  (forall (ring : nat) (pos : R),
      In (ring, pos) (left_measurements (session s)) -> (pos < 0)%R)
  /\ (forall (ring : nat) (pos : R),
        In (ring, pos) (right_measurements (session s)) -> (0 <= pos)%R)
  /\ (forall (ring : nat) (y : R),
        In (ring, y) (valid_rings_and_squares s) -> (0 < y)%R)
  /\ exists report : RadiusReport R,
       calculate_radius_from_measurements s = (s, inl report).
Proof.
  apply (session_measurements_have_sides 0%R
           [ManualLeft 3 (1 / 4)%R; Key "a" (1 / 10)%R 0%R "12:00:00";
            Key "space" (2 / 10)%R 0%R "12:00:01"; ManualRight 3 (3 / 4)%R;
            Key "m" (3 / 10)%R 0%R "12:00:02"]).
  cbn [forallb event_ok]. r_ops. r_cmp. reflexivity.
Defined.

(** In binary64 arithmetic: both sides of the rings 3 and 7 measured by
    hand, then the radius calculated. *)
Example session_binary64 :
  let events :=
    [ManualLeft 3 (flit 25 (-2)); ManualRight 3 (flit 75 (-2));
     ManualLeft 7 (flit 5 (-1)); ManualRight 7 (flit 5 (-1))] in
  let s := run_session (new_simulation (@flit float _ 0 0)) events in
  map fst (valid_rings_and_squares s) = [3%nat; 7%nat]
  /\ match snd (calculate_radius_from_measurements s) with
     | inl (RadiusResults calculated actual _) =>
         within (flit 39000 0) calculated (flit 41000 0) = true
         /\ actual = flit 100 0
     | _ => False
     end.
Proof. vm_compute. repeat split; reflexivity. Qed.

(** ** How far the microscope can pass a limit *)

(** One integration step towards the positive side, for a speed bound [V],
    a smoothing [sm] and a carry [c] that fit together. *)
Lemma drift_step (c sm V pos v T dt : R) :
  (0 <= sm <= 1)%R -> (0 <= c)%R -> (sm * (1 / 10 + c) <= c)%R ->
  (30 + c * V <= 634 / 15)%R ->
  (0 <= T <= V)%R -> (0 <= dt <= 1 / 10)%R -> (- V <= v <= V)%R ->
  (- pos + c * Rmax (- v) 0 <= 634 / 15)%R ->
  let v1 := (v * sm + T * (1 - sm))%R in
  let p1 := (pos + v1 * dt)%R in
  (- V <= v1 <= V)%R
  /\ ((p1 <= 30)%R -> (p1 + c * Rmax v1 0 <= 634 / 15)%R)
  /\ (- p1 + c * Rmax (- v1) 0 <= 634 / 15)%R.
Proof.
  intros Hsm Hc Hfit HB HT Hdt Hv Hlow v1 p1.
  assert (Hv1 : (- V <= v1 <= V)%R) by (unfold v1; split; nra).
  split; [exact Hv1 |]. split.
  - intros Hp1. unfold Rmax. destruct (Rle_dec v1 0); nra.
  - unfold p1. unfold Rmax in *.
    destruct (Rle_dec (- v1) 0) as [Hpos | Hneg].
    + destruct (Rle_dec (- v) 0); nra.
    + assert (Hv1neg : (v1 < 0)%R) by lra.
      assert (Hvneg : (v < 0)%R) by (unfold v1 in Hv1neg; nra).
      destruct (Rle_dec (- v) 0); [lra |].
      assert (Hshrink : (- v1 <= sm * - v)%R) by (unfold v1; nra).
      assert (Hstep : (- v1 * dt <= - v1 * (1 / 10))%R) by nra.
      nra.
Qed.

Lemma carry_fits (s : TravelingMicroscope R) :
  movement_smoothness s = (if precision_mode s then 9 / 10 else 8 / 10)%R ->
  (0 <= movement_smoothness s <= 1)%R /\ (0 <= carry s)%R
  /\ (movement_smoothness s * (1 / 10 + carry s) <= carry s)%R
  /\ (30 + carry s * top_speed s <= 634 / 15)%R
  /\ (0 < top_speed s)%R.
Proof.
  intros ->. unfold carry, top_speed. destruct (precision_mode s);
    repeat split; lra.
Qed.

(** The speed a move asks for is at most the top speed. *)
Lemma target_speed_bound (s : TravelingMicroscope R) (factor : R) :
  (0 < step_size s <= 23 / 10)%R -> (0 <= factor <= 4 / 3)%R ->
  (0 <= (if precision_mode s then step_size s * factor / 10
         else step_size s * factor) * 10 <= top_speed s)%R.
Proof.
  intros Hstep Hfactor. unfold top_speed.
  assert (Hprod : (0 <= step_size s * factor <= 23 / 10 * (4 / 3))%R).
  { split; [apply Rmult_le_pos; lra |].
    apply Rmult_le_compat; lra. }
  destruct (precision_mode s); lra.
Qed.

Lemma move_right_overshoot (s : TravelingMicroscope R)
  (factor now last : R) :
  overshoot_invariant last s ->
  (0 < step_size s <= 23 / 10)%R -> (0 <= factor <= 4 / 3)%R ->
  (last <= now)%R ->
  overshoot_invariant now (snd (move_right s factor now)).
Proof.
  intros [Hmax [Hsm [Hlu [Hv [Hup Hlow]]]]] Hstep Hfactor Hnow.
  destruct (carry_fits s Hsm) as [Hsm01 [Hc [Hfit [HB HV]]]].
  pose proof (target_speed_bound s factor Hstep Hfactor) as HT.
  unfold move_right. cbn [flt R_Num].
  destruct (Rltb (position s) (max_position s)) eqn:E.
  - rewrite py_min_Rmin. r_ops.
    pose proof (elapsed_nonneg (last_update_time s) now ltac:(lra)) as Hdt0.
    pose proof (Rmin_l (1 / 10) (now - last_update_time s)) as Hdt1.
    set (dt := Rmin (1 / 10) (now - last_update_time s)) in *.
    set (T := ((if precision_mode s then step_size s * factor / 10
                else step_size s * factor) * 10)%R) in *.
    destruct (drift_step (carry s) (movement_smoothness s) (top_speed s)
                (position s) (velocity s) T dt)
      as [Hv1 [Hup1 Hlow1]]; try assumption; try lra.
    cbn zeta in Hv1, Hup1, Hlow1.
    cbn [snd]. unfold overshoot_invariant, carry, top_speed in *.
    cbn [max_position movement_smoothness last_update_time position velocity
         precision_mode].
    split; [exact Hmax |]. split; [exact Hsm |]. split; [lra |].
    destruct (Rltb (max_position s) _) eqn:E2.
    + rewrite Hmax. unfold Rmax.
      destruct (Rle_dec 0 0); [| lra]. destruct (Rle_dec (- 0) 0); [| lra].
      destruct (precision_mode s); repeat split; lra.
    + apply Rltb_false_iff in E2. rewrite Hmax in E2.
      split; [exact Hv1 |]. split; [now apply Hup1 | exact Hlow1].
  - cbn [snd]. unfold overshoot_invariant, carry, top_speed in *.
    cbn [max_position movement_smoothness last_update_time position velocity
         precision_mode].
    r_ops. split; [exact Hmax |]. split; [exact Hsm |]. split; [lra |].
    unfold Rmax in *.
    destruct (Rle_dec (velocity s) 0); destruct (Rle_dec (- velocity s) 0);
      destruct (Rle_dec (velocity s * (5 / 10)) 0);
      destruct (Rle_dec (- (velocity s * (5 / 10))) 0);
      destruct (precision_mode s); repeat split; lra.
Qed.

Lemma move_left_overshoot (s : TravelingMicroscope R)
  (factor now last : R) :
  overshoot_invariant last s ->
  (0 < step_size s <= 23 / 10)%R -> (0 <= factor <= 4 / 3)%R ->
  (last <= now)%R ->
  overshoot_invariant now (snd (move_left s factor now)).
Proof.
  intros [Hmax [Hsm [Hlu [Hv [Hup Hlow]]]]] Hstep Hfactor Hnow.
  destruct (carry_fits s Hsm) as [Hsm01 [Hc [Hfit [HB HV]]]].
  pose proof (target_speed_bound s factor Hstep Hfactor) as HT.
  unfold move_left. cbn [flt fneg R_Num].
  destruct (Rltb (- max_position s) (position s)) eqn:E.
  - rewrite py_min_Rmin. r_ops.
    pose proof (elapsed_nonneg (last_update_time s) now ltac:(lra)) as Hdt0.
    pose proof (Rmin_l (1 / 10) (now - last_update_time s)) as Hdt1.
    set (dt := Rmin (1 / 10) (now - last_update_time s)) in *.
    set (T := ((if precision_mode s then step_size s * factor / 10
                else step_size s * factor) * 10)%R) in *.
    destruct (drift_step (carry s) (movement_smoothness s) (top_speed s)
                (- position s) (- velocity s) T dt)
      as [Hv1 [Hup1 Hlow1]]; try assumption; try lra.
    { rewrite !Ropp_involutive. exact Hup. }
    cbn zeta in Hv1, Hup1, Hlow1.
    set (v1 := (velocity s * movement_smoothness s + _)%R).
    assert (Ev : (- velocity s * movement_smoothness s
                  + T * (1 - movement_smoothness s) = - v1)%R).
    { unfold v1, T. destruct (precision_mode s); ring. }
    rewrite Ev in Hv1, Hup1, Hlow1.
    replace (- position s + - v1 * dt)%R with (- (position s + v1 * dt))%R
      in Hup1, Hlow1 by ring.
    rewrite !Ropp_involutive in Hlow1.
    cbn [snd]. unfold overshoot_invariant, carry, top_speed in *.
    cbn [max_position movement_smoothness last_update_time position velocity
         precision_mode].
    split; [exact Hmax |]. split; [exact Hsm |]. split; [lra |].
    destruct (Rltb _ (- max_position s)) eqn:E2.
    + rewrite Hmax. unfold Rmax.
      destruct (Rle_dec 0 0); [| lra]. destruct (Rle_dec (- 0) 0); [| lra].
      destruct (precision_mode s); repeat split; lra.
    + apply Rltb_false_iff in E2. rewrite Hmax in E2.
      split; [lra |]. split; [exact Hlow1 | apply Hup1; lra].
  - cbn [snd]. unfold overshoot_invariant, carry, top_speed in *.
    cbn [max_position movement_smoothness last_update_time position velocity
         precision_mode].
    r_ops. split; [exact Hmax |]. split; [exact Hsm |]. split; [lra |].
    unfold Rmax in *.
    destruct (Rle_dec (velocity s) 0); destruct (Rle_dec (- velocity s) 0);
      destruct (Rle_dec (velocity s * (5 / 10)) 0);
      destruct (Rle_dec (- (velocity s * (5 / 10))) 0);
      destruct (precision_mode s); repeat split; lra.
Qed.

Lemma reachable_step_size_range (s : TravelingMicroscope R) :
  reachable s -> (0 < step_size s <= 23 / 10)%R.
Proof.
  intros Hs.
  destruct (reachable_step_invariant s Hs) as [[a [Ha [Ha1 Ha2]]] _].
  rewrite Ha. apply IZR_le in Ha1. apply IZR_le in Ha2. lra.
Qed.

Lemma exec_overshoot (s : TravelingMicroscope R) (c : Command R)
  (last : R) :
  reachable s ->
  overshoot_invariant last s ->
  key_factor c = true ->
  clock_monotone last (moves_of [c]) = true ->
  exists last' : R,
    overshoot_invariant last' (exec s c)
    /\ forall rest : list (Command R),
         clock_monotone last (moves_of (c :: rest)) = true ->
         clock_monotone last' (moves_of rest) = true.
Proof.
  intros Hs Hinv Hkey Hclock.
  pose proof (reachable_step_size_range s Hs) as Hstep.
  destruct c as [[factor now | factor now] | st | | parent radii rnd ts | |].
  - cbn [moves_of flat_map app clock_monotone fle R_Num] in Hclock.
    apply andb_true_iff in Hclock as [Hnow _].
    cbn [key_factor fle fmul flit R_Num] in Hkey. rewrite !R_lit_int in Hkey.
    apply andb_true_iff in Hkey as [Hf0 Hf1].
    unfold Rleb in *. destruct (Rle_dec last now); [| discriminate].
    destruct (Rle_dec 0 factor); [| discriminate].
    destruct (Rle_dec (factor * 3) 4); [| discriminate].
    exists now. split.
    + cbn [exec do_move]. apply (move_left_overshoot s factor now last);
        try assumption; lra.
    + intros rest Hrest.
      cbn [moves_of flat_map app clock_monotone] in Hrest.
      now apply andb_true_iff in Hrest as [_ Hrest].
  - cbn [moves_of flat_map app clock_monotone fle R_Num] in Hclock.
    apply andb_true_iff in Hclock as [Hnow _].
    cbn [key_factor fle fmul flit R_Num] in Hkey. rewrite !R_lit_int in Hkey.
    apply andb_true_iff in Hkey as [Hf0 Hf1].
    unfold Rleb in *. destruct (Rle_dec last now); [| discriminate].
    destruct (Rle_dec 0 factor); [| discriminate].
    destruct (Rle_dec (factor * 3) 4); [| discriminate].
    exists now. split.
    + cbn [exec do_move]. apply (move_right_overshoot s factor now last);
        try assumption; lra.
    + intros rest Hrest.
      cbn [moves_of flat_map app clock_monotone] in Hrest.
      now apply andb_true_iff in Hrest as [_ Hrest].
  - exists last. split; [| intros rest Hrest; exact Hrest].
    destruct st; cbn [exec do_step].
    + unfold increase_step_size. destruct (flt _ _); exact Hinv.
    + unfold decrease_step_size. destruct (flt _ _); exact Hinv.
  - exists last. split; [| intros rest Hrest; exact Hrest].
    destruct Hinv as [Hmax [Hsm [Hlu [Hv [Hup Hlow]]]]].
    cbn [exec]. unfold toggle_precision_mode.
    unfold overshoot_invariant, carry, top_speed in *.
    unfold Rmax in *.
    destruct (precision_mode s); cbn [negb snd];
      cbn [max_position movement_smoothness last_update_time position
           velocity precision_mode];
      r_ops;
      destruct (Rle_dec (velocity s) 0); destruct (Rle_dec (- velocity s) 0);
      destruct (Rle_dec 0 0); destruct (Rle_dec (- 0) 0);
      repeat split; lra.
  - exists last. split; [| intros rest Hrest; exact Hrest].
    cbn [exec]. rewrite take_measurement_state. exact Hinv.
  - exists last. split; [| intros rest Hrest; exact Hrest]. exact Hinv.
  - exists last. split; [| intros rest Hrest; exact Hrest]. exact Hinv.
Qed.

Lemma run_overshoot (commands : list (Command R))
  (s : TravelingMicroscope R) (last : R) :
  reachable s ->
  overshoot_invariant last s ->
  forallb key_factor commands = true ->
  clock_monotone last (moves_of commands) = true ->
  exists last' : R, overshoot_invariant last' (run_commands s commands).
Proof.
  revert s last. induction commands as [| c rest IH];
    intros s last Hs Hinv Hkey Hclock.
  - now exists last.
  - cbn [forallb] in Hkey. apply andb_true_iff in Hkey as [Hc Hrest].
    assert (Hclock1 : clock_monotone last (moves_of [c]) = true).
    { destruct c as [[factor now | factor now] | | | | |];
        cbn [moves_of flat_map app clock_monotone] in *; try reflexivity;
        apply andb_true_iff in Hclock as [H1 _]; now rewrite H1. }
    destruct (exec_overshoot s c last Hs Hinv Hc Hclock1)
      as [last' [Hinv' Hnext]].
    unfold run_commands. cbn [fold_left].
    apply (IH (exec s c) last'); auto.
    now apply reachable_exec.
Qed.

(** X23: the microscope passes a limit by 12.27 mm at most.  Starting
    from the constructed microscope, after any run of commands whose
    moves, in either direction, have factors from 0 to 4/3 (the default
    factor and the factors of the arrow keys), on a clock that does not
    run backwards, the position is within 634/15 = 42.27 mm of the centre
    and the speed is at most 92/3 mm/s: a velocity left over from earlier
    moves carries the microscope beyond the limit of 30 mm, but only so
    far.  Stated over the reals. *)
Theorem overshoot_is_bounded (now : R) (commands : list (Command R)) :
  forallb key_factor commands = true ->
  clock_monotone now (moves_of commands) = true ->
  let s := run_commands (init now) commands in
  (Rabs (position s) <= 634 / 15)%R /\ (Rabs (velocity s) <= 92 / 3)%R.
Proof.
  intros Hkey Hclock s. subst s.
  destruct (run_overshoot commands (init now) now)
    as [last [_ [_ [_ [Hv [Hup Hlow]]]]]].
  - apply reachable_init.
  - unfold overshoot_invariant, carry, top_speed.
    cbn [init max_position movement_smoothness last_update_time position
         velocity precision_mode].
    r_ops. unfold Rmax.
    destruct (Rle_dec 0 0); destruct (Rle_dec (- 0) 0); repeat split; lra.
  - exact Hkey.
  - exact Hclock.
  - set (s := run_commands (init now) commands) in *.
    unfold carry, top_speed, Rmax in *.
    split; apply Rabs_le;
      destruct (precision_mode s);
      destruct (Rle_dec (velocity s) 0); destruct (Rle_dec (- velocity s) 0);
      split; nra.
Qed.

Lemma overshoot_is_bounded_witness :
  let commands :=
    [CMove (MoveRight (4 / 3)%R (1 / 10)%R);
     CMove (MoveLeft 1%R (2 / 10)%R)] in
  let s := run_commands (init 0%R) commands in
  (Rabs (position s) <= 634 / 15)%R /\ (Rabs (velocity s) <= 92 / 3)%R.
Proof.
  apply (overshoot_is_bounded 0%R
           [CMove (MoveRight (4 / 3)%R (1 / 10)%R);
            CMove (MoveLeft 1%R (2 / 10)%R)]).
  - cbn [forallb key_factor]. r_ops. r_cmp. reflexivity.
  - cbn [moves_of flat_map app clock_monotone]. r_ops. r_cmp. reflexivity.
Defined.

(** ** The table of manual measurements *)

Section MeasurementTableFacts.
Context {F : Type} `{Num F}.

Lemma dict_keys_get {V : Type} (k : nat) (d : dict nat V) :
  In k (dict_keys d) -> exists v : V, dict_get Nat.eqb k d = Some v.
Proof.
  induction d as [| [k' v'] d IH]; cbn [dict_keys map fst In dict_get];
    [intros [] |].
  destruct (Nat.eqb_spec k' k) as [-> | Hne].
  - intros _. now exists v'.
  - intros [Hk | Hin]; [contradiction | now apply IH].
Qed.

Lemma display_measurements_rows (p : Parent F) :
  display_measurements p = map (table_row p) (measured_rings p).
Proof.
  unfold display_measurements.
  destruct (left_measurements p) as [| e1 l] eqn:El;
    destruct (right_measurements p) as [| e2 r] eqn:Er; try reflexivity.
  unfold measured_rings. now rewrite El, Er.
Qed.

Lemma measured_rings_In (p : Parent F) (ring : nat) :
  In ring (measured_rings p)
  <-> In ring (dict_keys (left_measurements p))
      \/ In ring (dict_keys (right_measurements p)).
Proof.
  unfold measured_rings. split.
  - intros Hin.
    apply (Permutation_in _ (sorted_by_perm Nat.ltb _)) in Hin.
    apply nodup_In in Hin. now apply in_app_or.
  - intros Hin.
    apply (Permutation_in _ (Permutation_sym (sorted_by_perm Nat.ltb _))).
    apply nodup_In. now apply in_or_app.
Qed.

Lemma complete_rings_In (p : Parent F) (rings : list nat) (ring : nat)
  (y : F) :
  In (ring, y) (complete_rings p rings)
  <-> In ring rings
      /\ exists l r : F,
           dict_get Nat.eqb ring (left_measurements p) = Some l
           /\ dict_get Nat.eqb ring (right_measurements p) = Some r
           /\ y = fmul (fabs (fsub r l)) (fabs (fsub r l)).
Proof.
  induction rings as [| r0 rings IH]; cbn [complete_rings In].
  - split; [intros [] | intros [[] _]].
  - destruct (dict_get Nat.eqb r0 (right_measurements p)) as [rp |] eqn:Gr;
      [destruct (dict_get Nat.eqb r0 (left_measurements p)) as [lp |] eqn:Gl
      |].
    + cbn [In]. split.
      * intros [[= <- <-] | Hin].
        -- split; [now left |]. exists lp, rp. now repeat split.
        -- apply IH in Hin as [Hin Hex]. split; [now right | exact Hex].
      * intros [[<- | Hin] [l [r [Hl [Hr ->]]]]].
        -- left. rewrite Gl in Hl. rewrite Gr in Hr.
           injection Hl as <-. injection Hr as <-. reflexivity.
        -- right. apply IH. split; [exact Hin |]. now exists l, r.
    + split.
      * intros Hin. apply IH in Hin as [Hin Hex]. split; [now right | exact Hex].
      * intros [[<- | Hin] [l [r [Hl [Hr ->]]]]].
        -- rewrite Gl in Hl. discriminate.
        -- apply IH. split; [exact Hin |]. now exists l, r.
    + split.
      * intros Hin. apply IH in Hin as [Hin Hex]. split; [now right | exact Hex].
      * intros [[<- | Hin] [l [r [Hl [Hr ->]]]]].
        -- rewrite Gr in Hr. discriminate.
        -- apply IH. split; [exact Hin |]. now exists l, r.
Qed.

(** X24: the table of manual measurements and the regression agree.  The
    table that [display_measurements] prints has exactly one row for every
    ring measured on the left or on the right, and it shows a squared
    diameter for a ring exactly when [calculate_radius_from_measurements]
    uses that ring as a point of its regression, with that same squared
    diameter.  For every interpretation of the arithmetic. *)
Theorem table_agrees_with_regression (s : NewtonRingsSimulation F) :
  let rows := display_measurements (session s) in
  NoDup (map (@table_ring F) rows)
  /\ (forall ring : nat,
        In ring (map (@table_ring F) rows)
        <-> dict_mem Nat.eqb ring (left_measurements (session s)) = true
            \/ dict_mem Nat.eqb ring (right_measurements (session s)) = true)
  /\ forall (ring : nat) (y : F),
       (exists row : TableRow F,
          In row rows /\ table_ring row = ring
          /\ table_diameter_squared row = Some y)
       <-> In (ring, y) (valid_rings_and_squares s).
Proof.
  cbv zeta. rewrite display_measurements_rows.
  assert (Hrings : map (@table_ring F)
                     (map (table_row (session s)) (measured_rings (session s)))
                   = measured_rings (session s)).
  { rewrite map_map. cbn [table_row table_ring]. apply map_id. }
  rewrite Hrings. split; [| split].
  - unfold measured_rings.
    eapply Permutation_NoDup; [apply Permutation_sym, sorted_by_perm |].
    apply NoDup_nodup.
  - intros ring. rewrite measured_rings_In. unfold dict_mem.
    split; intros [Hin | Hin].
    + left. apply dict_keys_get in Hin as [v ->]. reflexivity.
    + right. apply dict_keys_get in Hin as [v ->]. reflexivity.
    + left. destruct (dict_get Nat.eqb ring _) as [v |] eqn:G;
        [| discriminate].
      now apply (dict_get_in_keys ring v).
    + right. destruct (dict_get Nat.eqb ring _) as [v |] eqn:G;
        [| discriminate].
      now apply (dict_get_in_keys ring v).
  - intros ring y. unfold valid_rings_and_squares.
    rewrite complete_rings_In. split.
    + intros [row [Hin [Hring Hy]]].
      apply in_map_iff in Hin as [ring' [<- Hin]].
      cbn [table_row table_ring table_diameter_squared] in Hring, Hy.
      subst ring'.
      destruct (dict_get Nat.eqb ring (left_measurements (session s)))
        as [l |] eqn:Gl; [| discriminate].
      destruct (dict_get Nat.eqb ring (right_measurements (session s)))
        as [r |] eqn:Gr; [| discriminate].
      injection Hy as <-. split.
      * eapply Permutation_in; [apply Permutation_sym, sorted_by_perm |].
        now apply (dict_get_in_keys ring l).
      * now exists l, r.
    + intros [Hin [l [r [Hl [Hr ->]]]]].
      exists (table_row (session s) ring). split; [| split].
      * apply in_map, measured_rings_In. left.
        now apply (dict_get_in_keys ring l).
      * reflexivity.
      * cbn [table_row table_diameter_squared]. now rewrite Hl, Hr.
Qed.
End MeasurementTableFacts.

(** In binary64 arithmetic: ring 5 measured on both sides and ring 7 on
    the right only give two rows, the first with a squared diameter. *)
Example table_binary64 :
  map (fun row => (table_ring row, table_diameter_squared row))
    (display_measurements (session one_complete_ring))
  = [(5%nat, Some (fmul (flit 34 (-1)) (flit 34 (-1)))); (7%nat, None)].
Proof. vm_compute. reflexivity. Qed.

